(** * Conversation memory and buyer-journey engine

    A shallow embedding of [enhanced_memory_manager.py] (class
    [EnhancedMemoryManager]) and of the render workflow helpers of
    [app_enhanced_rusty.py], with the properties the specification states
    about them.

    Conventions of the embedding.
    - Utterances are ASCII [string]s; [str.lower], [in], [str.count] and
      [str.split] are written out on them.
    - A [datetime] is a [Z] counting microseconds; [datetime.now()] is an
      explicit argument, and an ISO string written by [isoformat] and read
      back by [fromisoformat] is the same [Z].
    - The dictionaries [key_facts] and [contact_info] are [gmap]s with
      string keys; the memory dictionary itself, whose keys are fixed by
      [load_memory], is a record.
    - A Python exception is [None] in an [option] result.
    - Python floats are IEEE binary64 values, computed with the
      Standard Library's [SpecFloat] operations at precision 53. *)

From Stdlib Require Import ZArith QArith Qminmax Qround String Ascii List Bool Lia.
From Stdlib Require Import Floats.SpecFloat.
From stdpp Require Import gmap strings list.

Open Scope Z_scope.

(** ** Text helpers (Python [str] methods) *)

Module Text.

Definition is_upper (c : ascii) : bool :=
  let n := nat_of_ascii c in (65 <=? n)%nat && (n <=? 90)%nat.

Definition lower_ascii (c : ascii) : ascii :=
  if is_upper c then ascii_of_nat (nat_of_ascii c + 32) else c.

(** [s.lower()] *)
Fixpoint lower (s : string) : string :=
  match s with
  | EmptyString => EmptyString
  | String c t => String (lower_ascii c) (lower t)
  end.

(** [needle in hay] *)
Fixpoint contains (needle hay : string) : bool :=
  String.prefix needle hay ||
  match hay with
  | EmptyString => false
  | String _ t => contains needle t
  end.

(** [any(w in s for w in words)] *)
Definition any_in (words : list string) (s : string) : bool :=
  existsb (fun w => contains w s) words.

(** [s.count(c)] for a one-character pattern *)
Fixpoint count_char (c : ascii) (s : string) : Z :=
  match s with
  | EmptyString => 0
  | String d t => (if Ascii.eqb c d then 1 else 0) + count_char c t
  end.

(** The ASCII characters [str.isspace] and the pattern [\s] accept:
    codes 9-13, 28-31 and 32. *)
Definition is_space (c : ascii) : bool :=
  let n := nat_of_ascii c in
  ((9 <=? n)%nat && (n <=? 13)%nat) || ((28 <=? n)%nat && (n <=? 32)%nat).

(** [len(s.split())]: the number of maximal runs of non-space
    characters; [in_word] tells whether the previous character belonged
    to a word. *)
Fixpoint count_words (in_word : bool) (s : string) : Z :=
  match s with
  | EmptyString => 0
  | String c t =>
      if is_space c then count_words false t
      else (if in_word then 0 else 1) + count_words true t
  end.

Definition word_count (s : string) : Z := count_words false s.

(** [x in l] for a list of strings *)
Definition mem (x : string) (l : list string) : bool :=
  existsb (String.eqb x) l.

End Text.

(** ** Regular expressions, as far as [re.search] is used for a yes/no
    answer: matching by derivatives, with [re.IGNORECASE]. *)

Module Regex.

Inductive regex : Type :=
| Eps
| Chr (c : ascii)
| Space
| Seq (r1 r2 : regex)
| Alt (r1 r2 : regex)
| Star (r : regex)
| Void.

Definition Opt (r : regex) : regex := Alt r Eps.

Fixpoint lit (s : string) : regex :=
  match s with
  | EmptyString => Eps
  | String c t => Seq (Chr c) (lit t)
  end.

Fixpoint nullable (r : regex) : bool :=
  match r with
  | Eps => true
  | Chr _ => false
  | Space => false
  | Seq r1 r2 => nullable r1 && nullable r2
  | Alt r1 r2 => nullable r1 || nullable r2
  | Star _ => true
  | Void => false
  end.

Fixpoint deriv (a : ascii) (r : regex) : regex :=
  match r with
  | Eps => Void
  | Chr c => if Ascii.eqb (Text.lower_ascii a) (Text.lower_ascii c) then Eps else Void
  | Space => if Text.is_space a then Eps else Void
  | Seq r1 r2 =>
      if nullable r1 then Alt (Seq (deriv a r1) r2) (deriv a r2)
      else Seq (deriv a r1) r2
  | Alt r1 r2 => Alt (deriv a r1) (deriv a r2)
  | Star r1 => Seq (deriv a r1) (Star r1)
  | Void => Void
  end.

(** Some prefix of [s] matches [r]. *)
Fixpoint match_prefix (r : regex) (s : string) : bool :=
  nullable r ||
  match s with
  | EmptyString => false
  | String a t => match_prefix (deriv a r) t
  end.

(** [re.search(r, s, re.IGNORECASE)] is not [None]. *)
Fixpoint search (r : regex) (s : string) : bool :=
  match_prefix r s ||
  match s with
  | EmptyString => false
  | String _ t => search r t
  end.

Definition ws : regex := Star Space.
Definition quote : regex := Opt (Chr "'").

(** [a\s*x\s*b|a'?\s*x\s*b'?|a\s*by\s*b] *)
Definition size_pattern (a b : string) : regex :=
  Alt (Seq (lit a) (Seq ws (Seq (Chr "x") (Seq ws (lit b)))))
 (Alt (Seq (lit a) (Seq quote (Seq ws (Seq (Chr "x") (Seq ws (Seq (lit b) quote))))))
      (Seq (lit a) (Seq ws (Seq (lit "by") (Seq ws (lit b)))))).

End Regex.

(** ** The record ([memory]) *)

(** A value stored in [key_facts]. *)
Inductive Fact : Type :=
| FStr (s : string)
| FBool (b : bool)
| FList (l : list string).

(** Python truthiness of [d.get(k)]. *)
Definition truthy (v : option Fact) : bool :=
  match v with
  | None => false
  | Some (FStr s) => negb (String.eqb s "")
  | Some (FBool b) => b
  | Some (FList l) => negb (Nat.eqb (length l) 0)
  end.

Definition truthy_str (v : option string) : bool :=
  match v with
  | None => false
  | Some s => negb (String.eqb s "")
  end.

Record Interaction : Type := {
  i_timestamp : Z;
  i_user : string;
  i_bot : string
}.

Record CtaAttempt : Type := {
  a_timestamp : Z;
  a_type : string;
  a_response : string
}.

Record Memory : Type := {
  user_id : string;
  created_at : Z;
  last_updated : Z;
  interactions : list Interaction;
  key_facts : gmap string Fact;
  conversation_summary : string;
  preferences : gmap string string;
  buyer_stage : string;
  engagement_level : Z;
  render_requested : bool;
  render_status : option string;
  render_details : gmap string string;
  contact_info : gmap string string;
  cta_attempts : list CtaAttempt;
  last_cta_attempt : option Z
}.

Definition set_interactions (v : list Interaction) (m : Memory) : Memory :=
  {| user_id := user_id m; created_at := created_at m; last_updated := last_updated m;
     interactions := v; key_facts := key_facts m;
     conversation_summary := conversation_summary m; preferences := preferences m;
     buyer_stage := buyer_stage m; engagement_level := engagement_level m;
     render_requested := render_requested m; render_status := render_status m;
     render_details := render_details m; contact_info := contact_info m;
     cta_attempts := cta_attempts m; last_cta_attempt := last_cta_attempt m |}.

Definition set_key_facts (v : gmap string Fact) (m : Memory) : Memory :=
  {| user_id := user_id m; created_at := created_at m; last_updated := last_updated m;
     interactions := interactions m; key_facts := v;
     conversation_summary := conversation_summary m; preferences := preferences m;
     buyer_stage := buyer_stage m; engagement_level := engagement_level m;
     render_requested := render_requested m; render_status := render_status m;
     render_details := render_details m; contact_info := contact_info m;
     cta_attempts := cta_attempts m; last_cta_attempt := last_cta_attempt m |}.

Definition set_buyer_stage (v : string) (m : Memory) : Memory :=
  {| user_id := user_id m; created_at := created_at m; last_updated := last_updated m;
     interactions := interactions m; key_facts := key_facts m;
     conversation_summary := conversation_summary m; preferences := preferences m;
     buyer_stage := v; engagement_level := engagement_level m;
     render_requested := render_requested m; render_status := render_status m;
     render_details := render_details m; contact_info := contact_info m;
     cta_attempts := cta_attempts m; last_cta_attempt := last_cta_attempt m |}.

Definition set_engagement_level (v : Z) (m : Memory) : Memory :=
  {| user_id := user_id m; created_at := created_at m; last_updated := last_updated m;
     interactions := interactions m; key_facts := key_facts m;
     conversation_summary := conversation_summary m; preferences := preferences m;
     buyer_stage := buyer_stage m; engagement_level := v;
     render_requested := render_requested m; render_status := render_status m;
     render_details := render_details m; contact_info := contact_info m;
     cta_attempts := cta_attempts m; last_cta_attempt := last_cta_attempt m |}.

Definition set_render (req : bool) (st : option string) (m : Memory) : Memory :=
  {| user_id := user_id m; created_at := created_at m; last_updated := last_updated m;
     interactions := interactions m; key_facts := key_facts m;
     conversation_summary := conversation_summary m; preferences := preferences m;
     buyer_stage := buyer_stage m; engagement_level := engagement_level m;
     render_requested := req; render_status := st;
     render_details := render_details m; contact_info := contact_info m;
     cta_attempts := cta_attempts m; last_cta_attempt := last_cta_attempt m |}.

Definition set_contact_info (v : gmap string string) (m : Memory) : Memory :=
  {| user_id := user_id m; created_at := created_at m; last_updated := last_updated m;
     interactions := interactions m; key_facts := key_facts m;
     conversation_summary := conversation_summary m; preferences := preferences m;
     buyer_stage := buyer_stage m; engagement_level := engagement_level m;
     render_requested := render_requested m; render_status := render_status m;
     render_details := render_details m; contact_info := v;
     cta_attempts := cta_attempts m; last_cta_attempt := last_cta_attempt m |}.

Definition set_cta (attempts : list CtaAttempt) (last : option Z) (m : Memory) : Memory :=
  {| user_id := user_id m; created_at := created_at m; last_updated := last_updated m;
     interactions := interactions m; key_facts := key_facts m;
     conversation_summary := conversation_summary m; preferences := preferences m;
     buyer_stage := buyer_stage m; engagement_level := engagement_level m;
     render_requested := render_requested m; render_status := render_status m;
     render_details := render_details m; contact_info := contact_info m;
     cta_attempts := attempts; last_cta_attempt := last |}.

Definition set_stamps (created updated : Z) (m : Memory) : Memory :=
  {| user_id := user_id m; created_at := created; last_updated := updated;
     interactions := interactions m; key_facts := key_facts m;
     conversation_summary := conversation_summary m; preferences := preferences m;
     buyer_stage := buyer_stage m; engagement_level := engagement_level m;
     render_requested := render_requested m; render_status := render_status m;
     render_details := render_details m; contact_info := contact_info m;
     cta_attempts := cta_attempts m; last_cta_attempt := last_cta_attempt m |}.

(** The instance attributes of [EnhancedMemoryManager]. *)
Record EnhancedMemoryManager : Type := {
  max_interactions : nat;
  expiry_days : Z
}.

(** [timedelta] values, in microseconds. *)
Definition minutes (n : Z) : Z := n * 60000000.
Definition hours (n : Z) : Z := n * 3600000000.
Definition days (n : Z) : Z := n * 86400000000.

(** ** Python floats *)

Module Float64.

Definition prec : Z := 53.
Definition emax : Z := 1024.

(** [float(n)] for a Python [int]; an [int] too large for a float, for
    which Python raises [OverflowError], comes out as an infinity. *)
Definition of_Z (n : Z) : spec_float := binary_normalize prec emax n 0 false.

Definition add : spec_float -> spec_float -> spec_float := SFadd prec emax.
Definition mul : spec_float -> spec_float -> spec_float := SFmul prec emax.
Definition div : spec_float -> spec_float -> spec_float := SFdiv prec emax.

Definition one : spec_float := of_Z 1.

(** The literals [0.5] and [0.3]: the binary64 values nearest to them. *)
Definition half : spec_float := S754_finite false 4503599627370496 (-53).
Definition three_tenths : spec_float := S754_finite false 5404319552844595 (-54).

(** [min(x, y)] keeps its first argument unless the second is smaller. *)
Definition py_min (x y : spec_float) : spec_float :=
  if SFltb y x then y else x.

(** [int(x)]: truncation toward zero.  Python raises on an infinity or
    a NaN; neither arises from the levels of a record (a database INT)
    and the bounded score, and they are sent to 0 here. *)
Definition to_Z (x : spec_float) : Z :=
  match x with
  | S754_finite s m e =>
      cond_Zopp s
        (match e with
         | Zneg p => Z.shiftr (Zpos m) (Zpos p)
         | _ => Z.shiftl (Zpos m) e
         end)
  | _ => 0
  end.

End Float64.

(** ** [_extract_key_facts] *)

Definition feature_map : list (string * list string) :=
  [ ("tanning ledge", ["tanning ledge"; "tanning shelf"; "sun shelf"; "ledge"]);
    ("wraparound bench", ["bench"; "seating"; "wraparound"; "built-in seating"]);
    ("lighting", ["lighting"; "lights"; "underwater lights"; "led"]);
    ("heating", ["heated"; "heating"; "heater"; "warm"; "year-round"]);
    ("jets", ["jets"; "hydrotherapy"; "massage"; "spa jets"]);
    ("fountains", ["fountain"; "water feature"; "bubblers"; "spillover"]) ].

(** One round of the loop over [feature_map.items()].  [features] is the
    object [key_facts.setdefault("features", [])] returned: on a list the
    name is appended unless present; on a string [not in] is the substring
    test and [append] raises; on a boolean [not in] raises. *)
Definition feature_step (message_lower : string) (features : Fact)
    (entry : string * list string) : option Fact :=
  if Text.any_in (snd entry) message_lower then
    match features with
    | FList l =>
        if Text.mem (fst entry) l then Some features
        else Some (FList (l ++ [fst entry]))
    | FStr s => if Text.contains (fst entry) s then Some features else None
    | FBool _ => None
    end
  else Some features.

Fixpoint feature_loop (message_lower : string) (features : Fact)
    (entries : list (string * list string)) : option Fact :=
  match entries with
  | [] => Some features
  | entry :: rest =>
      match feature_step message_lower features entry with
      | Some features' => feature_loop message_lower features' rest
      | None => None
      end
  end.

(** The blocks of [_extract_key_facts], one per comment heading of the
    source, each acting on the dictionary [memory["key_facts"]]. *)

(* Pool focus *)
Definition focus_block (message_lower : string) (key_facts : gmap string Fact)
    : gmap string Fact :=
  if Text.any_in ["relax"; "relaxing"; "peaceful"; "quiet"; "unwind"] message_lower
  then <["focus" := FStr "relaxation"]> key_facts
  else if Text.any_in ["entertain"; "entertaining"; "party"; "friends"; "gather"; "host"]
            message_lower
  then <["focus" := FStr "entertaining"]> key_facts
  else if Text.any_in ["family"; "kids"; "children"; "grandkids"] message_lower
  then <["focus" := FStr "family"]> key_facts
  else if Text.contains "both" message_lower
          && Text.any_in ["relax"; "entertain"] message_lower
  then <["focus" := FStr "both"]> key_facts
  else key_facts.

(* Budget detection *)
Definition budget_block (user_message message_lower : string)
    (key_facts : gmap string Fact) : gmap string Fact :=
  let budget_signals :=
    ["budget"; "cost"; "price"; "expensive"; "affordable"; "cheap"; "financing";
     "payment"] in
  if Text.any_in budget_signals message_lower || Text.contains "$" user_message
  then <["budget_conscious" := FBool true]> key_facts
  else key_facts.

(* Pool type preferences *)
Definition pool_type_block (message_lower : string) (key_facts : gmap string Fact)
    : gmap string Fact :=
  if Text.contains "cocktail pool" message_lower || Text.contains "cocktail" message_lower
  then <["pool_type" := FStr "cocktail"]> key_facts
  else if Text.contains "semi" message_lower && Text.contains "ground" message_lower
  then <["pool_type" := FStr "semi-inground"]> key_facts
  else if Text.contains "custom" message_lower
  then <["pool_type" := FStr "custom"]> key_facts
  else key_facts.

(* Size preferences *)
Definition size_block (user_message : string) (key_facts : gmap string Fact)
    : gmap string Fact :=
  if Regex.search (Regex.size_pattern "12" "24") user_message
  then <["preferred_size" := FStr "12x24"]> key_facts
  else if Regex.search (Regex.size_pattern "14" "28") user_message
  then <["preferred_size" := FStr "14x28"]> key_facts
  else key_facts.

(* Features: [setdefault] creates the entry, the loop mutates the list it
   holds. *)
Definition features_block (message_lower : string) (key_facts : gmap string Fact)
    : option (gmap string Fact) :=
  let features :=
    match key_facts !! "features" with
    | Some v => v
    | None => FList []
    end in
  match feature_loop message_lower features feature_map with
  | Some features' => Some (<["features" := features']> key_facts)
  | None => None
  end.

(* Timeline signals *)
Definition timeline_block (message_lower : string) (key_facts : gmap string Fact)
    : gmap string Fact :=
  let timeline_signals :=
    ["timeline"; "when"; "how long"; "schedule"; "start"; "soon"; "ready"] in
  if Text.any_in timeline_signals message_lower
  then <["timeline_interest" := FBool true]> key_facts
  else key_facts.

(* Space/yard concerns *)
Definition space_block (message_lower : string) (key_facts : gmap string Fact)
    : gmap string Fact :=
  let space_signals := ["space"; "yard"; "backyard"; "small"; "tight"; "fit"; "room"] in
  if Text.any_in space_signals message_lower
  then <["space_concerns" := FBool true]> key_facts
  else key_facts.

Definition extract_facts (key_facts : gmap string Fact) (user_message : string)
    : option (gmap string Fact) :=
  let message_lower := Text.lower user_message in
  let kf := focus_block message_lower key_facts in
  let kf := budget_block user_message message_lower kf in
  let kf := pool_type_block message_lower kf in
  let kf := size_block user_message kf in
  match features_block message_lower kf with
  | Some kf =>
      let kf := timeline_block message_lower kf in
      let kf := space_block message_lower kf in
      Some kf
  | None => None
  end.

Definition _extract_key_facts (memory : Memory) (user_message : string)
    : option Memory :=
  match extract_facts (key_facts memory) user_message with
  | Some kf => Some (set_key_facts kf memory)
  | None => None
  end.

(** ** [_update_buyer_stage] *)

Definition _update_buyer_stage (memory : Memory) (user_message : string) : Memory :=
  let message_lower := Text.lower user_message in
  let current_stage := buyer_stage memory in
  let specific_signals :=
    ["size"; "cost"; "price"; "timeline"; "process"; "how long"; "when"; "schedule"] in
  let commitment_signals :=
    ["ready"; "interested"; "want"; "need"; "planning"; "thinking about"] in
  if String.eqb current_stage "browsing" then
    if Text.any_in specific_signals message_lower
    then set_buyer_stage "interested" memory
    else if Text.any_in commitment_signals message_lower
    then set_buyer_stage "interested" memory
    else memory
  else if String.eqb current_stage "interested" then
    if Text.any_in ["timeline"; "schedule"; "when can"; "how soon"] message_lower
    then set_buyer_stage "considering" memory
    else if (3 <=? size (key_facts memory))%nat
    then set_buyer_stage "considering" memory
    else memory
  else if String.eqb current_stage "considering" then
    if Text.any_in ["ready"; "let's do"; "schedule"; "visit"; "consult"] message_lower
    then set_buyer_stage "ready" memory
    else memory
  else memory.

(** ** [_update_engagement_level] *)

(** The three indicators read off the utterance. *)
Definition question_count (user_message : string) : Z :=
  Text.count_char "?" user_message.

Definition specific_terms (user_message : string) : Z :=
  Z.of_nat (length (List.filter
    (fun term => Text.contains term (Text.lower user_message))
    ["size"; "cost"; "feature"; "timeline"; "process"])).

Definition message_length (user_message : string) : Z :=
  Text.word_count user_message.

(** [engagement_score], accumulated from 0 by three [+=]. *)
Definition engagement_score (user_message : string) : spec_float :=
  let s := Float64.of_Z 0 in
  let s := Float64.add s
    (Float64.py_min
       (Float64.mul (Float64.of_Z (question_count user_message)) Float64.half)
       Float64.one) in
  let s := Float64.add s
    (Float64.py_min (Float64.mul (Float64.of_Z (specific_terms user_message))
                                 Float64.three_tenths)
                    Float64.one) in
  let s := Float64.add s
    (Float64.py_min (Float64.div (Float64.of_Z (message_length user_message))
                                 (Float64.of_Z 20))
                    Float64.one) in
  s.

Definition _update_engagement_level (memory : Memory) (user_message : string) : Memory :=
  let current_level := engagement_level memory in
  let new_level :=
    Z.min 5 (Z.max current_level
      (Float64.to_Z (Float64.add (Float64.of_Z current_level)
                                 (engagement_score user_message)))) in
  set_engagement_level new_level memory.

(** ** [add_interaction] *)

(** [l[-n:]] when [len(l) > n]; for [n = 0] the slice [l[-0:]] is all of
    [l]. *)
Definition prune (n : nat) (l : list Interaction) : list Interaction :=
  if (n <? length l)%nat then
    match n with
    | O => l
    | _ => skipn (length l - n) l
    end
  else l.

Definition add_interaction (self : EnhancedMemoryManager) (memory : Memory)
    (user_message bot_response : string) (now : Z) : option Memory :=
  let interaction :=
    {| i_timestamp := now; i_user := user_message; i_bot := bot_response |} in
  let memory := set_interactions (interactions memory ++ [interaction]) memory in
  let memory :=
    set_interactions (prune (max_interactions self) (interactions memory)) memory in
  match _extract_key_facts memory user_message with
  | None => None
  | Some memory =>
      let memory := _update_buyer_stage memory user_message in
      Some (_update_engagement_level memory user_message)
  end.

(** ** The CTA gate: [should_attempt_cta] and [record_cta_attempt] *)

Definition should_attempt_cta (memory : Memory) (now : Z) : bool * option string :=
  let buyer_stage := buyer_stage memory in
  let engagement_level := engagement_level memory in
  let last_cta := last_cta_attempt memory in
  let cta_attempts := cta_attempts memory in
  (* Don't attempt CTA too frequently *)
  if match last_cta with
     | Some last_cta_time => now - last_cta_time <? minutes 5
     | None => false
     end
  then (false, None)
  else
    (* Don't attempt if too many recent attempts *)
    let recent_attempts :=
      List.filter (fun attempt => now - a_timestamp attempt <? hours 1) cta_attempts in
    if (2 <=? length recent_attempts)%nat then (false, None)
    (* CTA logic based on stage and engagement *)
    else if Text.mem buyer_stage ["considering"; "ready"] && (3 <=? engagement_level)
    then (true, Some "consult")
    else if String.eqb buyer_stage "interested" && (2 <=? engagement_level)
            && truthy (key_facts memory !! "space_concerns")
    then (true, Some "render")
    else if (4 <=? length (interactions memory))%nat && (3 <=? engagement_level)
    then (true, Some "consult")
    else (false, None).

(** The two calls of [datetime.now()] are the arguments [now_attempt]
    (the attempt's timestamp) and [now_last] ([last_cta_attempt]). *)
Definition record_cta_attempt (memory : Memory) (cta_type response : string)
    (now_attempt now_last : Z) : Memory :=
  let attempt :=
    {| a_timestamp := now_attempt; a_type := cta_type;
       a_response := Text.lower response |} in
  let memory := set_cta (cta_attempts memory ++ [attempt]) (Some now_last) memory in
  (* Update buyer stage based on response *)
  if Text.contains "yes" (Text.lower response)
     || Text.contains "sure" (Text.lower response)
     || Text.contains "okay" (Text.lower response)
  then
    if String.eqb cta_type "consult" then set_buyer_stage "ready" memory
    else if String.eqb cta_type "render" then set_render true (Some "info_needed") memory
    else memory
  else memory.

(** ** The render workflow *)

Definition required_fields : list string := ["name"; "email"; "phone"; "photo"].

Definition status_is (s : string) (st : option string) : bool :=
  match st with
  | Some s' => String.eqb s' s
  | None => false
  end.

Definition get_render_workflow_stage (memory : Memory) : string :=
  if negb (render_requested memory) then "not_requested"
  else
    let contact_info := contact_info memory in
    if status_is "complete" (render_status memory) then "complete"
    else if status_is "in_progress" (render_status memory) then "in_progress"
    else if forallb (fun field => truthy_str (contact_info !! field)) required_fields
    then "complete"
    else if existsb (fun field => truthy_str (contact_info !! field)) required_fields
    then "collecting_info"
    else "info_needed".

Definition update_contact_info (memory : Memory) (field value : string) : Memory :=
  let memory := set_contact_info (<[field := value]> (contact_info memory)) memory in
  (* Check if workflow is complete *)
  if forallb (fun field => truthy_str (contact_info memory !! field)) required_fields
  then set_render (render_requested memory) (Some "complete") memory
  else memory.

(** What Python's [re] module finds in the utterance: the results of
    [re.findall(email_pattern, user_message)] and
    [re.findall(phone_pattern, user_message)], and, for the first of
    [name_patterns] that [re.search] finds in the lowered utterance,
    [match.group(1).title()]. *)
Record ContactScan : Type := {
  scan_emails : list string;
  scan_phones : list string;
  scan_name : option string
}.

(** [process_contact_info]; the local [contact_info] is the dictionary of
    [memory] itself, so every test reads the current one. *)
Definition process_contact_info (user_message : string) (scan : ContactScan)
    (memory : Memory) : Memory :=
  let message_lower := Text.lower user_message in
  (* Email detection *)
  let memory :=
    match scan_emails scan with
    | email :: _ =>
        if negb (truthy_str (contact_info memory !! "email"))
        then update_contact_info memory "email" email
        else memory
    | [] => memory
    end in
  (* Phone detection *)
  let memory :=
    match scan_phones scan with
    | phone :: _ =>
        if negb (truthy_str (contact_info memory !! "phone"))
        then update_contact_info memory "phone" phone
        else memory
    | [] => memory
    end in
  (* Name detection *)
  let memory :=
    if negb (truthy_str (contact_info memory !! "name")) then
      match scan_name scan with
      | Some name => update_contact_info memory "name" name
      | None => memory
      end
    else memory in
  (* Photo detection *)
  if Text.contains "photo" message_lower || Text.contains "picture" message_lower
     || Text.contains "image" message_lower
  then
    if Text.contains "sent" message_lower || Text.contains "attached" message_lower
       || Text.contains "here" message_lower
    then update_contact_info memory "photo" "provided"
    else memory
  else memory.

Definition get_missing_contact_fields (memory : Memory) : list string :=
  List.filter (fun field => negb (truthy_str (contact_info memory !! field)))
    required_fields.

(** [handle_render_workflow], as it acts on [memory]; the text it appends
    to the reply is not part of the record. *)
Definition handle_render_workflow (memory : Memory) (user_message : string)
    (scan : ContactScan) : Memory :=
  let render_stage := get_render_workflow_stage memory in
  if String.eqb render_stage "info_needed" then memory
  else if String.eqb render_stage "collecting_info" then
    let memory := process_contact_info user_message scan memory in
    match get_missing_contact_fields memory with
    | _ :: _ => memory
    | [] => set_render (render_requested memory) (Some "complete") memory
    end
  else memory.

(** ** The memory store: [load_memory], [save_memory],
    [cleanup_expired_memories]

    The table [user_memories] is a map from [user_id] to its row; a row
    has the columns of a record.  [store_ok] tells whether the database
    operations of the call succeed; when they do not, the [except] branch
    runs.  [generated_id] is the value of [_generate_user_id()].  A row
    read back needs no backfilling here: the only columns of the model
    that can be NULL are [render_status] and [last_cta_attempt], whose
    default is [None].  The INSERT of [save_memory] names no
    [created_at]: a first row gets the column default, the database's
    own [CURRENT_TIMESTAMP], passed as [current_timestamp]; [now] is the
    [datetime.now()] written to [last_updated]. *)

Definition default_memory (uid : string) (now : Z) : Memory :=
  {| user_id := uid; created_at := now; last_updated := now;
     interactions := []; key_facts := ∅;
     conversation_summary := ""; preferences := ∅;
     buyer_stage := "browsing"; engagement_level := 1;
     render_requested := false; render_status := None;
     render_details := ∅; contact_info := ∅;
     cta_attempts := []; last_cta_attempt := None |}.

Definition load_memory (self : EnhancedMemoryManager) (db : gmap string Memory)
    (store_ok : bool) (generated_id : string) (now : Z) (uid : option string)
    : Memory :=
  let uid :=
    match uid with
    | Some s => if String.eqb s "" then generated_id else s
    | None => generated_id
    end in
  if store_ok then
    match db !! uid with
    | Some result =>
        (* Check if memory has expired *)
        if days (expiry_days self) <? now - last_updated result
        then default_memory uid now
        else result
    | None => default_memory uid now
    end
  else default_memory uid now.

Definition save_memory (db : gmap string Memory) (store_ok : bool)
    (now current_timestamp : Z) (memory : Memory) : gmap string Memory :=
  if String.eqb (user_id memory) "" then db
  else if store_ok then
    let created :=
      match db !! user_id memory with
      | Some row => created_at row
      | None => current_timestamp
      end in
    <[user_id memory := set_stamps created now memory]> db
  else db.

Definition expired (cutoff_date : Z) (row : string * Memory) : Prop :=
  last_updated (snd row) < cutoff_date.

#[global] Instance expired_dec cutoff_date row : Decision (expired cutoff_date row).
Proof. unfold expired. apply _. Defined.

Definition cleanup_expired_memories (self : EnhancedMemoryManager)
    (db : gmap string Memory) (store_ok : bool) (now : Z)
    : gmap string Memory * Z :=
  if store_ok then
    let cutoff_date := now - days (expiry_days self) in
    (filter (fun row => ¬ expired cutoff_date row) db,
     Z.of_nat (size (filter (expired cutoff_date) db)))
  else (db, 0).

(** ** Runs of operations on one record *)

(** The order browsing < interested < considering < ready. *)
Definition stage_index (stage : string) : option nat :=
  if String.eqb stage "browsing" then Some 0%nat
  else if String.eqb stage "interested" then Some 1%nat
  else if String.eqb stage "considering" then Some 2%nat
  else if String.eqb stage "ready" then Some 3%nat
  else None.

(** The operations that write to a record between its load and its save. *)
Inductive Op : Type :=
| OpStage (user_message : string)
| OpEngagement (user_message : string)
| OpCta (cta_type response : string) (now_attempt now_last : Z)
| OpTurn (user_message bot_response : string) (now : Z)
| OpRender (user_message : string) (scan : ContactScan).

Definition step (self : EnhancedMemoryManager) (memory : Memory) (op : Op)
    : option Memory :=
  match op with
  | OpStage user_message => Some (_update_buyer_stage memory user_message)
  | OpEngagement user_message => Some (_update_engagement_level memory user_message)
  | OpCta cta_type response now_attempt now_last =>
      Some (record_cta_attempt memory cta_type response now_attempt now_last)
  | OpTurn user_message bot_response now =>
      add_interaction self memory user_message bot_response now
  | OpRender user_message scan => Some (handle_render_workflow memory user_message scan)
  end.

(** A run stops at the first operation that raises. *)
Fixpoint run_ops (self : EnhancedMemoryManager) (memory : Memory) (ops : list Op)
    : option Memory :=
  match ops with
  | [] => Some memory
  | op :: rest =>
      match step self memory op with
      | Some memory' => run_ops self memory' rest
      | None => None
      end
  end.


Definition features_of (key_facts : gmap string Fact) : list string :=
  match key_facts !! "features" with
  | Some (FList l) => l
  | _ => []
  end.

(** Some keyword of [feature_map] occurs in the utterance. *)
Definition mentions_feature (user_message : string) : bool :=
  existsb (fun entry => Text.any_in (snd entry) (Text.lower user_message)) feature_map.

(** ** The rules of the CTA gate, as the specification lists them *)

Definition in_cooldown (memory : Memory) (now : Z) : Prop :=
  exists last, last_cta_attempt memory = Some last /\ now - last < minutes 5.

Definition recent_attempts (memory : Memory) (now : Z) : list CtaAttempt :=
  List.filter (fun attempt => now - a_timestamp attempt <? hours 1) (cta_attempts memory).

Definition stage_consult (memory : Memory) : Prop :=
  (buyer_stage memory = "considering" \/ buyer_stage memory = "ready")
  /\ 3 <= engagement_level memory.

Definition stage_render (memory : Memory) : Prop :=
  buyer_stage memory = "interested" /\ 2 <= engagement_level memory
  /\ truthy (key_facts memory !! "space_concerns") = true.

Definition depth_consult (memory : Memory) : Prop :=
  (4 <= length (interactions memory))%nat /\ 3 <= engagement_level memory.

Inductive cta_rule (memory : Memory) (now : Z) : bool * option string -> Prop :=
| rule_cooldown :
    in_cooldown memory now ->
    cta_rule memory now (false, None)
| rule_rate_cap :
    ~ in_cooldown memory now ->
    (2 <= length (recent_attempts memory now))%nat ->
    cta_rule memory now (false, None)
| rule_stage_consult :
    ~ in_cooldown memory now ->
    (length (recent_attempts memory now) < 2)%nat ->
    stage_consult memory ->
    cta_rule memory now (true, Some "consult")
| rule_stage_render :
    ~ in_cooldown memory now ->
    (length (recent_attempts memory now) < 2)%nat ->
    ~ stage_consult memory ->
    stage_render memory ->
    cta_rule memory now (true, Some "render")
| rule_depth_consult :
    ~ in_cooldown memory now ->
    (length (recent_attempts memory now) < 2)%nat ->
    ~ stage_consult memory ->
    ~ stage_render memory ->
    depth_consult memory ->
    cta_rule memory now (true, Some "consult")
| rule_no_attempt :
    ~ in_cooldown memory now ->
    (length (recent_attempts memory now) < 2)%nat ->
    ~ stage_consult memory ->
    ~ stage_render memory ->
    ~ depth_consult memory ->
    cta_rule memory now (false, None).

(** ** Runs of the CTA gate

    An event either asks the gate at [now] and, when the gate grants an
    attempt, records it with [record_cta_attempt] (whose two clock
    readings follow [now]), or is any other operation on the record. *)
Inductive Event : Type :=
| EvGate (now : Z) (response : string) (now_attempt now_last : Z)
| EvOp (op : Op).

(** The instants at which the gate granted an attempt, in order. *)
Fixpoint granted (self : EnhancedMemoryManager) (memory : Memory)
    (events : list Event) : list Z :=
  match events with
  | [] => []
  | EvGate now response now_attempt now_last :: rest =>
      match should_attempt_cta memory now with
      | (true, Some cta_type) =>
          now :: granted self
                   (record_cta_attempt memory cta_type response now_attempt now_last) rest
      | _ => granted self memory rest
      end
  | EvOp op :: rest =>
      match step self memory op with
      | Some memory' => granted self memory' rest
      | None => []
      end
  end.

(** The clock does not run backwards: every reading of an event is at or
    after [t], in the order the code takes them. *)
Fixpoint chronological (t : Z) (events : list Event) : Prop :=
  match events with
  | [] => True
  | EvGate now _ now_attempt now_last :: rest =>
      t <= now /\ now <= now_attempt /\ now_attempt <= now_last
      /\ chronological now_last rest
  | EvOp (OpCta _ _ now_attempt now_last) :: rest =>
      t <= now_attempt /\ now_attempt <= now_last /\ chronological now_last rest
  | EvOp (OpTurn _ _ now) :: rest => t <= now /\ chronological now rest
  | EvOp _ :: rest => chronological t rest
  end.

(** Attempts recorded at or after [a]. *)
Definition recorded_since (a : Z) (memory : Memory) : nat :=
  length (List.filter (fun attempt => a <=? a_timestamp attempt) (cta_attempts memory)).

(** Every grant is followed by grants at least 5 minutes later, and from
    the second grant after it on by grants at least an hour later. *)
Fixpoint spaced (grants : list Z) : Prop :=
  match grants with
  | [] => True
  | g :: rest =>
      Forall (fun g' => minutes 5 <= g' - g) rest
      /\ match rest with
         | [] => True
         | _ :: rest2 => Forall (fun g' => hours 1 <= g' - g) rest2
         end
      /\ spaced rest
  end.

(** ** The engagement score as the specification words it

    Three signals, each capped at 1, in exact arithmetic; the sum is
    truncated, added to the current level and clamped to
    [[current_level, 5]]. *)
Definition exact_score (q t n : Z) : Q :=
  (Qmin (inject_Z q * (1 # 2)) 1
   + Qmin (inject_Z t * (3 # 10)) 1
   + Qmin (inject_Z n / 20) 1)%Q.

Definition spec_score (user_message : string) : Q :=
  exact_score (question_count user_message) (specific_terms user_message)
    (message_length user_message).

Definition spec_level_of (current_level q t n : Z) : Z :=
  Z.min 5 (Z.max current_level (current_level + Qfloor (exact_score q t n))).

Definition spec_level (current_level : Z) (user_message : string) : Z :=
  spec_level_of current_level (question_count user_message)
    (specific_terms user_message) (message_length user_message).

(** The float score and the new level of the code, as functions of the
    three indicators. *)
Definition score_of (q t n : Z) : spec_float :=
  let s := Float64.of_Z 0 in
  let s := Float64.add s
    (Float64.py_min (Float64.mul (Float64.of_Z q) Float64.half) Float64.one) in
  let s := Float64.add s
    (Float64.py_min (Float64.mul (Float64.of_Z t) Float64.three_tenths) Float64.one) in
  let s := Float64.add s
    (Float64.py_min (Float64.div (Float64.of_Z n) (Float64.of_Z 20)) Float64.one) in
  s.

Definition level_of (current_level q t n : Z) : Z :=
  Z.min 5 (Z.max current_level
    (Float64.to_Z (Float64.add (Float64.of_Z current_level) (score_of q t n)))).

(** The integers from 0 to [k]. *)
Definition upto (k : nat) : list Z := List.map Z.of_nat (seq 0 (S k)).

(** The code and the specification give the same level on every current
    level from 1 to 5, at most 2 question marks, at most 5 terms and at
    most 20 words. *)
Definition levels_agree : bool :=
  forallb (fun q =>
    forallb (fun t =>
      forallb (fun n =>
        forallb (fun current_level =>
          level_of current_level q t n =? spec_level_of current_level q t n)
          [1; 2; 3; 4; 5])
        (upto 20))
      (upto 5))
    (upto 2).

(** A quotient [n / 20] of 20 to 63 words is capped at 1. *)
#[global] Instance spec_float_eq_dec : EqDecision spec_float.
Proof. solve_decision. Defined.

Definition small_quotients_capped : bool :=
  forallb (fun n =>
    bool_decide
      (Float64.py_min (Float64.div (Float64.of_Z n) (Float64.of_Z 20)) Float64.one
       = Float64.one))
    (List.map (fun k => 20 + k) (upto 43)).

(** ** Contact fields *)

Definition captured (memory : Memory) (field : string) : bool :=
  truthy_str (contact_info memory !! field).

Definition captured_count (memory : Memory) : nat :=
  length (List.filter (captured memory) required_fields).

(** ** The rules of a scalar fact

    A rule is a test on the utterance and the value it assigns.  The
    rules of a fact are tried in their order; the first whose test the
    utterance passes gives the value, whatever value the fact had; when
    none passes the fact is left as it was. *)
Record FactRule : Type := {
  rule_matches : string -> bool;
  rule_value : string
}.

Fixpoint first_match (rules : list FactRule) (user_message : string)
    : option string :=
  match rules with
  | [] => None
  | rule :: rest =>
      if rule_matches rule user_message then Some (rule_value rule)
      else first_match rest user_message
  end.

Definition after_rules (rules : list FactRule) (user_message : string)
    (old : option Fact) : option Fact :=
  match first_match rules user_message with
  | Some value => Some (FStr value)
  | None => old
  end.

(** A rule that asks for one of some keywords in the lowered utterance. *)
Definition keyword_rule (keywords : list string) (value : string) : FactRule :=
  {| rule_matches := fun user_message =>
       Text.any_in keywords (Text.lower user_message);
     rule_value := value |}.

Definition focus_rules : list FactRule :=
  [ keyword_rule ["relax"; "relaxing"; "peaceful"; "quiet"; "unwind"] "relaxation";
    keyword_rule ["entertain"; "entertaining"; "party"; "friends"; "gather"; "host"]
      "entertaining";
    keyword_rule ["family"; "kids"; "children"; "grandkids"] "family";
    {| rule_matches := fun user_message =>
         Text.contains "both" (Text.lower user_message)
         && Text.any_in ["relax"; "entertain"] (Text.lower user_message);
       rule_value := "both" |} ].

Definition pool_type_rules : list FactRule :=
  [ keyword_rule ["cocktail pool"; "cocktail"] "cocktail";
    {| rule_matches := fun user_message =>
         Text.contains "semi" (Text.lower user_message)
         && Text.contains "ground" (Text.lower user_message);
       rule_value := "semi-inground" |};
    keyword_rule ["custom"] "custom" ].

Definition preferred_size_rules : list FactRule :=
  [ {| rule_matches := Regex.search (Regex.size_pattern "12" "24");
       rule_value := "12x24" |};
    {| rule_matches := Regex.search (Regex.size_pattern "14" "28");
       rule_value := "14x28" |} ].

(** ** What a block of the extractor may do to the dictionary

    [writes k P kf kf']: [kf'] is [kf], or [kf] with the key [k] assigned
    a value satisfying [P]. *)
Definition writes (k : string) (P : Fact -> Prop) (kf kf' : gmap string Fact) : Prop :=
  kf' = kf \/ exists v, P v /\ kf' = <[k := v]> kf.

Definition is_str_in (values : list string) (v : Fact) : Prop :=
  exists s, v = FStr s /\ s ∈ values.

Definition fact_keys : list string :=
  ["focus"; "budget_conscious"; "pool_type"; "preferred_size"; "features";
   "timeline_interest"; "space_concerns"].

(** The [features] entry, when there is one, holds a list, as every
    entry the extractor writes does. *)
Definition features_is_list (key_facts : gmap string Fact) : Prop :=
  key_facts !! "features" = None \/ exists l, key_facts !! "features" = Some (FList l).

(** ** Sample data *)

(** The manager the application creates. *)
Definition app_manager : EnhancedMemoryManager :=
  {| max_interactions := 15; expiry_days := 90 |}.

Definition fresh : Memory := default_memory "u1" 0.

Definition family_buyer : Memory :=
  set_key_facts (<["focus" := FStr "family"]> ∅) fresh.

Definition interested_buyer : Memory := set_buyer_stage "interested" fresh.

Definition render_accepted : Memory := set_render true (Some "info_needed") fresh.

Definition no_matches : ContactScan :=
  {| scan_emails := []; scan_phones := []; scan_name := None |}.


(** A stored row of a buyer last seen at instant 0. *)
Definition stored_row : Memory := set_buyer_stage "ready" fresh.

Definition one_row : gmap string Memory := {[ "u1" := stored_row ]}.

Definition keen_buyer : Memory :=
  set_engagement_level 4 (set_buyer_stage "considering" fresh).

(** The gate asked at minutes 0, 1, 6, 12 and 61, each grant recorded at
    once with the response "pending" the chat handler passes. *)
Definition five_queries : list Event :=
  [EvGate (minutes 0) "pending" (minutes 0) (minutes 0);
   EvGate (minutes 1) "pending" (minutes 1) (minutes 1);
   EvGate (minutes 6) "pending" (minutes 6) (minutes 6);
   EvGate (minutes 12) "pending" (minutes 12) (minutes 12);
   EvGate (minutes 61) "pending" (minutes 61) (minutes 61)].

(** A first question, an accepted consult offer, one more stage update. *)
Definition browsing_to_ready : list Op :=
  [OpTurn "What is the price?" "It starts at $65,000." 1;
   OpCta "consult" "Yes please" 2 3;
   OpStage "see you then"].

Definition after_browsing_to_ready : Memory :=
  Eval vm_compute in
    match run_ops app_manager fresh browsing_to_ready with
    | Some memory => memory
    | None => fresh
    end.

(** ** Writes to the dictionary, as data

    An assignment [key_facts[k] = v] that a block makes, or no
    assignment. *)
Definition apply_write (kf : gmap string Fact) (w : string * option Fact)
    : gmap string Fact :=
  match snd w with
  | Some v => <[fst w := v]> kf
  | None => kf
  end.

Definition apply_writes (kf : gmap string Fact) (ws : list (string * option Fact))
    : gmap string Fact :=
  fold_left apply_write ws kf.

(** An utterance without question mark and without domain term, of fewer
    than 20 words, has a score that truncates to 0. *)
Definition quiet_scores_truncate : bool :=
  forallb (fun n => Qfloor (exact_score 0 0 n) =? 0) (upto 19).

(** ** Further sample data *)

Definition after_first_question : Memory :=
  Eval vm_compute in
    match add_interaction app_manager fresh "What is the price?"
            "It starts at $65,000." 1 with
    | Some memory => memory
    | None => fresh
    end.

Definition bench_for_family : Memory :=
  Eval vm_compute in
    match _extract_key_facts fresh "a 12x24 with a bench for my family" with
    | Some memory => memory
    | None => fresh
    end.

Definition relax_and_entertain : Memory :=
  Eval vm_compute in
    match _extract_key_facts fresh "both relaxing and entertaining" with
    | Some memory => memory
    | None => fresh
    end.

(** ** [_get_intelligent_suggestions]

    [key_facts.get(k) == s] for a string [s]. *)
Definition fact_is (s : string) (v : option Fact) : bool :=
  match v with
  | Some (FStr t) => String.eqb t s
  | _ => false
  end.

(** How an f-string renders an [Optional[str]]. *)
Definition format_optional (v : option string) : string :=
  match v with
  | Some s => s
  | None => "None"
  end.

(** The list [suggestions] at the end of [_get_intelligent_suggestions],
    before its first three are joined.  The method asks the gate twice;
    [now1] and [now2] are the clock readings of the two calls. *)
Definition suggestions_of (memory : Memory) (now1 now2 : Z) : list string :=
  let key_facts := key_facts memory in
  let buyer_stage := buyer_stage memory in
  let engagement_level := engagement_level memory in
  let suggestions := [] in
  (* Stage-based suggestions *)
  let suggestions :=
    if String.eqb buyer_stage "browsing" && (2 <=? engagement_level)
    then suggestions ++ ["ask about their vision for the space"]
    else if String.eqb buyer_stage "interested" then
      let suggestions :=
        if negb (truthy (key_facts !! "preferred_size"))
        then suggestions ++ ["explore size preferences"]
        else suggestions in
      if negb (truthy (key_facts !! "focus"))
      then suggestions ++ ["understand their main use (relaxing vs entertaining)"]
      else suggestions
    else if String.eqb buyer_stage "considering" then
      if fst (should_attempt_cta memory now1) then
        let cta_type := snd (should_attempt_cta memory now2) in
        suggestions ++ [("consider " ++ format_optional cta_type ++ " CTA")%string]
      else suggestions
    else suggestions in
  (* Focus-based suggestions *)
  let suggestions :=
    if fact_is "entertaining" (key_facts !! "focus")
    then suggestions ++ ["discuss layout for gatherings"; "mention lighting importance"]
    else if fact_is "relaxation" (key_facts !! "focus")
    then suggestions ++ ["emphasize clean lines"; "discuss peaceful features"]
    else if fact_is "family" (key_facts !! "focus")
    then suggestions ++ ["highlight safety features"; "discuss kid-friendly elements"]
    else suggestions in
  (* Budget-conscious suggestions *)
  if truthy (key_facts !! "budget_conscious")
  then suggestions ++ ["emphasize value and materials that last"]
  else suggestions.

Definition _get_intelligent_suggestions (memory : Memory) (now1 now2 : Z) : string :=
  let suggestions := suggestions_of memory now1 now2 in
  match suggestions with
  | [] => ""
  | _ => String.concat ". " (firstn 3 suggestions)
  end.

(** ** The two halves of the gate, for the proofs about time

    [gate_blocked] is the part of [should_attempt_cta] that reads the
    clock, [gate_offer] the part that does not. *)
Definition gate_blocked (memory : Memory) (now : Z) : bool :=
  match last_cta_attempt memory with
  | Some last_cta_time => now - last_cta_time <? minutes 5
  | None => false
  end
  || (2 <=? length (recent_attempts memory now))%nat.

Definition gate_offer (memory : Memory) : bool * option string :=
  if Text.mem (buyer_stage memory) ["considering"; "ready"]
     && (3 <=? engagement_level memory)
  then (true, Some "consult")
  else if String.eqb (buyer_stage memory) "interested" && (2 <=? engagement_level memory)
          && truthy (key_facts memory !! "space_concerns")
  then (true, Some "render")
  else if (4 <=? length (interactions memory))%nat && (3 <=? engagement_level memory)
  then (true, Some "consult")
  else (false, None).

(** Two consult offers, at minutes 0 and 10, neither accepted. *)
Definition twice_offered : Memory :=
  record_cta_attempt
    (record_cta_attempt keen_buyer "consult" "pending" (minutes 0) (minutes 0))
    "consult" "pending" (minutes 10) (minutes 10).

(** ** [get_conversation_history] and [build_message_history]

    [l[-limit:]]: the last [limit] elements for a positive [limit], all
    of [l] for [limit = 0], and [l] without its first [-limit] elements
    for a negative one. *)
Definition slice_last {A : Type} (limit : Z) (l : list A) : list A :=
  if 0 <? limit then skipn (length l - Z.to_nat limit) l
  else skipn (Z.to_nat (- limit)) l.

Record Message : Type := {
  role : string;
  content : string
}.

Definition exchange (interaction : Interaction) : list Message :=
  [ {| role := "user"; content := i_user interaction |};
    {| role := "assistant"; content := i_bot interaction |} ].

Definition get_conversation_history (memory : Memory) (limit : Z) : list Message :=
  let interactions := slice_last limit (interactions memory) in
  flat_map exchange interactions.

(** [system_prompt] is the module constant [SYSTEM_PROMPT]. *)
Definition build_message_history (system_prompt : string) (memory : Memory)
    (user_message context_summary : string) (opening_message : option string)
    : list Message :=
  let message_history := [ {| role := "system"; content := system_prompt |} ] in
  (* Add context summary if available *)
  let message_history :=
    if negb (String.eqb context_summary "")
    then message_history ++ [ {| role := "system"; content := context_summary |} ]
    else message_history in
  (* Add opening message for returning users *)
  let message_history :=
    if truthy_str opening_message
    then message_history
           ++ [ {| role := "assistant"; content := default "" opening_message |} ]
    else message_history in
  (* Add recent conversation history (last 10 interactions) *)
  let conversation_history := get_conversation_history memory 10 in
  let message_history := message_history ++ conversation_history in
  (* Add the current user message *)
  message_history ++ [ {| role := "user"; content := user_message |} ].

(** ** [detect_conversation_stall] *)
Definition detect_conversation_stall (memory : Memory) : bool :=
  let interactions := interactions memory in
  if (length interactions <? 3)%nat then false
  else
    (* Look at last few interactions for stall patterns *)
    let recent_interactions := slice_last 3 interactions in
    (* Check for repeated short responses *)
    let short_responses :=
      List.filter (fun i => Text.word_count (i_user i) <=? 3) recent_interactions in
    if (2 <=? length short_responses)%nat then true
    else
      let user_messages := map (fun i => Text.lower (i_user i)) recent_interactions in
      if existsb (fun msg => Text.count_char "?" msg =? 0) user_messages
      then true
      else false.

(** ** The texts of the render workflow

    [random.choice(l)] with the index drawn passed as [pick]. *)
Definition choice (pick : nat) (l : list string) : string :=
  nth (pick mod length l) l "".

Definition contact_collection_phrases : list string :=
  [ "Perfect! To get that render started, I just need your name, email, phone, and a photo of your backyard.";
    "Great! I'll need a few quick things to create your render: name, email, phone number, and a backyard photo.";
    "Awesome! For your personalized render, I'll need: your name, email, phone, and a pic of your space.";
    "Sounds good! To make this render specific to your space, I need your name, email, phone, and a backyard photo.";
    "Perfect! Let me get that render process started — I'll need your contact info and a photo of your yard." ].

Definition field_messages : list (string * string) :=
  [ ("name", "What name should I put this under?");
    ("email", "What's the best email to send the render to?");
    ("phone", "And a phone number in case we need to clarify anything?");
    ("photo", "Perfect! Last thing — just need a photo of your backyard space.") ].

Fixpoint dict_get (d : list (string * string)) (key default : string) : string :=
  match d with
  | [] => default
  | (k, v) :: rest => if String.eqb k key then v else dict_get rest key default
  end.

Definition get_contact_collection_message (pick : nat) (missing_fields : list string)
    : string :=
  if (length missing_fields =? 4)%nat (* All fields missing *)
  then choice pick contact_collection_phrases
  else
    match missing_fields with
    | [field] => dict_get field_messages field "Just need one more thing!"
    | _ => ("Great! I still need: " ++ String.concat ", " missing_fields ++ ".")%string
    end.

Definition generate_render_timeline_message (pick : nat) : string :=
  choice pick
    [ "It usually takes about 2 to 3 business days once we have your info and photo.";
      "Takes a couple business days on our side — we build the render manually and check the layout before we send it over.";
      "We'll have it ready in 2-3 business days. We review it internally to make sure it's a pool we'd actually build.";
      "Should be ready within 2-3 business days — we take time to make sure the layout works for your space." ].

Definition get_soft_contact_approach (pick : nat) : string :=
  choice pick
    [ "The photo helps us design for your space, and the contact info just lets us loop back once the render's ready — we won't spam you.";
      "We keep it simple — just need to know where to send it and how to reach you when it's done.";
      "Contact info is just so we can get it back to you — we're not big on follow-up calls unless you want them.";
      "Just helps us personalize it and get it back to you when it's ready." ].

Definition should_offer_partial_info (memory : Memory) : bool :=
  (2 <=? engagement_level memory) && (size (contact_info memory) =? 0)%nat.

Definition get_partial_info_offer (pick : nat) : string :=
  choice pick
    [ "No worries — if you're more comfortable just starting with name and email, that works too. We can fill in the rest later.";
      "Want to start simple? Just name and email gets us started — we can grab the rest when you're ready.";
      "Tell you what — just give me your name and email for now. We can sort out the details later." ].

(** The random draws of one call of [handle_render_workflow], one for
    each phrase bank it may read. *)
Record RenderPicks : Type := {
  pick_contact : nat;
  pick_timeline : nat;
  pick_partial : nat;
  pick_soft : nat
}.

(** [handle_render_workflow], the reply it returns. *)
Definition handle_render_workflow_reply (memory : Memory) (user_message : string)
    (scan : ContactScan) (bot_response : string) (picks : RenderPicks) : string :=
  let render_stage := get_render_workflow_stage memory in
  if String.eqb render_stage "info_needed" then
    (* User just agreed to render, collect info *)
    let contact_message := get_contact_collection_message (pick_contact picks) [] in
    let bot_response := (bot_response ++ " " ++ contact_message)%string in
    (* Add timeline expectation *)
    let timeline_message := generate_render_timeline_message (pick_timeline picks) in
    (bot_response ++ " " ++ timeline_message)%string
  else if String.eqb render_stage "collecting_info" then
    (* Process any contact info in the message *)
    let memory := process_contact_info user_message scan memory in
    (* Check what's still missing *)
    let missing_fields := get_missing_contact_fields memory in
    match missing_fields with
    | _ :: _ =>
        if (length missing_fields <=? 2)%nat && should_offer_partial_info memory then
          (* Offer partial collection *)
          let partial_offer := get_partial_info_offer (pick_partial picks) in
          (bot_response ++ " " ++ partial_offer)%string
        else
          (* Request missing fields *)
          let missing_message :=
            get_contact_collection_message (pick_contact picks) missing_fields in
          let bot_response := (bot_response ++ " " ++ missing_message)%string in
          (* Add soft reassurance *)
          if (3 <=? length missing_fields)%nat then
            let soft_approach := get_soft_contact_approach (pick_soft picks) in
            (bot_response ++ " " ++ soft_approach)%string
          else bot_response
    | [] =>
        (* All info collected *)
        (bot_response ++ " Perfect! I've got everything I need. We'll get started on your render and have it ready in 2-3 business days.")%string
    end
  else bot_response.

(** ** The endpoints that write to the store

    [not s.strip()]: the utterance is empty or all white space. *)
Definition is_blank (s : string) : bool :=
  forallb Text.is_space (list_ascii_of_string s).

(** What one call of [chat] takes from outside the record: the session,
    the identifiers [_generate_user_id] would return, the utterance and
    what the contact patterns find in it, the clock readings, whether
    the database calls succeed, and the reply.  The reply comes from the
    language model and from random phrase choices: [t_reply_at_cta] is
    [bot_response] as it stands when the gate is asked, [t_reply] as it
    stands when the turn is stored, and [t_reply_ok] tells whether the
    reply is produced at all (the model call and the text helpers raise
    nothing). *)
Record ChatTurn : Type := {
  t_session : option string;
  t_session_id : string;
  t_load_id : string;
  t_user_message : string;
  t_scan : ContactScan;
  t_reply_ok : bool;
  t_reply_at_cta : string;
  t_reply : string;
  t_load_ok : bool;
  t_save_ok : bool;
  t_now_load : Z;
  t_now_gate : Z;
  t_now_attempt : Z;
  t_now_last : Z;
  t_now_add : Z;
  t_now_save : Z;
  t_current_timestamp : Z
}.

(** [get_or_create_user_id] *)
Definition get_or_create_user_id (t : ChatTurn) : string :=
  match t_session t with
  | Some user_id => user_id
  | None => t_session_id t
  end.

(** The steps of [chat] that act on [memory], from the render workflow
    to [add_interaction].  The gate never answers [(True, None)], so the
    attempt recorded has a kind. *)
Definition chat_memory (self : EnhancedMemoryManager) (memory : Memory)
    (t : ChatTurn) : option Memory :=
  let user_message := t_user_message t in
  (* 3. Handle render workflow if active *)
  let memory :=
    if render_requested memory
       || Text.contains "render" (Text.lower user_message)
       || Text.contains "visual" (Text.lower user_message)
    then handle_render_workflow memory user_message (t_scan t)
    else memory in
  (* 4. Check for CTA opportunities *)
  let memory :=
    match should_attempt_cta memory (t_now_gate t) with
    | (true, Some cta_type) =>
        if negb (Text.contains "render" (Text.lower (t_reply_at_cta t)))
           && negb (Text.contains "consult" (Text.lower (t_reply_at_cta t)))
        then record_cta_attempt memory cta_type "pending"
               (t_now_attempt t) (t_now_last t)
        else memory
    | _ => memory
    end in
  (* Add interaction to memory *)
  add_interaction self memory user_message (t_reply t) (t_now_add t).

(** [chat], as it acts on the table: any exception ends the request
    before [save_memory]. *)
Definition chat (self : EnhancedMemoryManager) (db : gmap string Memory)
    (t : ChatTurn) : gmap string Memory :=
  if is_blank (t_user_message t) then db
  else
    let user_id := get_or_create_user_id t in
    let memory :=
      load_memory self db (t_load_ok t) (t_load_id t) (t_now_load t) (Some user_id) in
    if t_reply_ok t then
      match chat_memory self memory t with
      | Some memory =>
          save_memory db (t_save_ok t) (t_now_save t) (t_current_timestamp t) memory
      | None => db
      end
    else db.

(** The requests that change the table: [chat], [simulate_response]
    (with JSON strings for [cta_type] and [response]), [cleanup_memories]
    and [reset_user_memory]. *)
Inductive Request : Type :=
| Chat (t : ChatTurn)
| SimulateResponse (user_id : option string) (load_id : string)
    (cta_type response : string) (load_ok save_ok : bool)
    (now_load now_attempt now_last now_save current_timestamp : Z)
| Cleanup (store_ok : bool) (now : Z)
| Reset (user_id : string) (store_ok : bool).

Definition simulate_response (self : EnhancedMemoryManager)
    (db : gmap string Memory) (user_id : option string) (load_id : string)
    (cta_type response : string) (load_ok save_ok : bool)
    (now_load now_attempt now_last now_save current_timestamp : Z)
    : gmap string Memory :=
  let memory := load_memory self db load_ok load_id now_load user_id in
  let memory := record_cta_attempt memory cta_type response now_attempt now_last in
  save_memory db save_ok now_save current_timestamp memory.

Definition reset_user_memory (db : gmap string Memory) (user_id : string)
    (store_ok : bool) : gmap string Memory :=
  if store_ok then delete user_id db else db.

Definition handle (self : EnhancedMemoryManager) (db : gmap string Memory)
    (request : Request) : gmap string Memory :=
  match request with
  | Chat t => chat self db t
  | SimulateResponse user_id load_id cta_type response load_ok save_ok
      now_load now_attempt now_last now_save current_timestamp =>
      simulate_response self db user_id load_id cta_type response load_ok save_ok
        now_load now_attempt now_last now_save current_timestamp
  | Cleanup store_ok now => fst (cleanup_expired_memories self db store_ok now)
  | Reset user_id store_ok => reset_user_memory db user_id store_ok
  end.

Definition serve (self : EnhancedMemoryManager) (db : gmap string Memory)
    (requests : list Request) : gmap string Memory :=
  fold_left (handle self) requests db.

(** A simulated response that accepts a render offer. *)
Definition accepts_render (request : Request) : bool :=
  match request with
  | SimulateResponse _ _ cta_type response _ _ _ _ _ _ _ =>
      (Text.contains "yes" (Text.lower response)
       || Text.contains "sure" (Text.lower response)
       || Text.contains "okay" (Text.lower response))
      && negb (String.eqb cta_type "consult") && String.eqb cta_type "render"
  | _ => false
  end.

(** A customer who, turn after turn, sends name, e-mail address, phone
    number and a photo. *)
Definition full_contact : ContactScan :=
  {| scan_emails := ["pat@example.com"]; scan_phones := ["405-555-0100"];
     scan_name := Some "Pat" |}.

Definition contact_turn (now : Z) : ChatTurn :=
  {| t_session := Some "u1"; t_session_id := "s1"; t_load_id := "l1";
     t_user_message :=
       "I'm Pat, pat@example.com, 405-555-0100, photo attached for the render";
     t_scan := full_contact; t_reply_ok := true;
     t_reply_at_cta := "Thanks!"; t_reply := "Thanks!";
     t_load_ok := true; t_save_ok := true;
     t_now_load := now; t_now_gate := now; t_now_attempt := now;
     t_now_last := now; t_now_add := now; t_now_save := now;
     t_current_timestamp := now |}.

Definition render_accepted_table : gmap string Memory :=
  {[ "u1" := render_accepted ]}.

(** A record whose e-mail address was captured on an earlier turn. *)
Definition email_known : Memory :=
  set_contact_info (<["email" := "first@example.com"]> ∅) render_accepted.

(** ** Two conditions on the rows of a table

    No row has a render requested. *)
Definition render_off (db : gmap string Memory) : Prop :=
  map_Forall (fun _ row => render_requested row = false) db.

(** A row with no contact field captured and a render status that is
    absent or [info_needed]. *)
Definition awaiting_contact (row : Memory) : Prop :=
  captured_count row = 0%nat
  /\ (render_status row = None \/ render_status row = Some "info_needed").

Definition all_awaiting_contact (db : gmap string Memory) : Prop :=
  map_Forall (fun _ row => awaiting_contact row) db.

(** A customer asking for a render in the chat. *)
Definition render_wish (now : Z) : ChatTurn :=
  {| t_session := None; t_session_id := "s1"; t_load_id := "l1";
     t_user_message := "Could I get a render, a visual of the pool?";
     t_scan := no_matches; t_reply_ok := true;
     t_reply_at_cta := "Happy to help."; t_reply := "Happy to help.";
     t_load_ok := true; t_save_ok := true;
     t_now_load := now; t_now_gate := now; t_now_attempt := now;
     t_now_last := now; t_now_add := now; t_now_save := now;
     t_current_timestamp := now |}.

(** Two stored exchanges, and a record at stage [collecting_info] with
    a high engagement level. *)
Definition two_turns : Memory :=
  set_interactions
    [ {| i_timestamp := 1; i_user := "How deep is a cocktail pool?";
         i_bot := "About four feet." |};
      {| i_timestamp := 2; i_user := "And how long does a build take?";
         i_bot := "Eight to ten weeks." |} ] fresh.

Definition email_known_keen : Memory := set_engagement_level 5 email_known.

Definition picks_a : RenderPicks :=
  {| pick_contact := 0; pick_timeline := 1; pick_partial := 0; pick_soft := 2 |}.

Definition picks_b : RenderPicks :=
  {| pick_contact := 3; pick_timeline := 1; pick_partial := 2; pick_soft := 2 |}.

(** Along [process_contact_info] the status is the one at entry, or
    "complete" with all four fields captured. *)
Definition status_kept_or_complete (memory m : Memory) : Prop :=
  render_status m = render_status memory
  \/ (render_status m = Some "complete" /\ captured_count m = 4%nat).

(** * Properties *)

(** ** The CTA gate *)

Section GateRules.

Variables (memory : Memory) (now : Z).

Lemma in_cooldown_iff :
  match last_cta_attempt memory with
  | Some last_cta_time => now - last_cta_time <? minutes 5
  | None => false
  end = true <-> in_cooldown memory now.
Proof.
  unfold in_cooldown. destruct (last_cta_attempt memory) as [l|].
  - rewrite Z.ltb_lt. split.
    + intros H. exists l. auto.
    + intros (l' & Heq & H). congruence.
  - split; [discriminate | intros (l' & Heq & _); discriminate].
Qed.

Lemma stage_consult_iff :
  Text.mem (buyer_stage memory) ["considering"; "ready"]
    && (3 <=? engagement_level memory) = true
  <-> stage_consult memory.
Proof.
  unfold stage_consult, Text.mem. simpl.
  rewrite andb_true_iff, !orb_true_iff, !String.eqb_eq, Z.leb_le.
  intuition congruence.
Qed.

Lemma stage_render_iff :
  String.eqb (buyer_stage memory) "interested" && (2 <=? engagement_level memory)
    && truthy (key_facts memory !! "space_concerns") = true
  <-> stage_render memory.
Proof.
  unfold stage_render.
  rewrite !andb_true_iff, String.eqb_eq, Z.leb_le. tauto.
Qed.

Lemma depth_consult_iff :
  (4 <=? length (interactions memory))%nat && (3 <=? engagement_level memory) = true
  <-> depth_consult memory.
Proof.
  unfold depth_consult.
  rewrite andb_true_iff, Nat.leb_le, Z.leb_le. tauto.
Qed.

End GateRules.

Lemma iff_false_of_bool (b : bool) (P : Prop) :
  (b = true <-> P) -> b = false -> ~ P.
Proof. intros H Hb HP. apply H in HP. congruence. Qed.

Lemma gate_follows_rules memory now :
  cta_rule memory now (should_attempt_cta memory now).
Proof.
  unfold should_attempt_cta.
  fold (recent_attempts memory now).
  destruct (match last_cta_attempt memory with
            | Some l => now - l <? minutes 5 | None => false end) eqn:Hcool.
  { apply rule_cooldown. now apply in_cooldown_iff. }
  pose proof (iff_false_of_bool _ _ (in_cooldown_iff memory now) Hcool) as Hnc.
  destruct (2 <=? length (recent_attempts memory now))%nat eqn:Hcap.
  { apply rule_rate_cap; [assumption | now apply Nat.leb_le]. }
  apply Nat.leb_gt in Hcap.
  destruct (Text.mem (buyer_stage memory) ["considering"; "ready"]
            && (3 <=? engagement_level memory)) eqn:H3.
  { apply rule_stage_consult; auto. now apply stage_consult_iff. }
  pose proof (iff_false_of_bool _ _ (stage_consult_iff memory) H3) as Hn3.
  destruct (String.eqb (buyer_stage memory) "interested"
            && (2 <=? engagement_level memory)
            && truthy (key_facts memory !! "space_concerns")) eqn:H4.
  { apply rule_stage_render; auto. now apply stage_render_iff. }
  pose proof (iff_false_of_bool _ _ (stage_render_iff memory) H4) as Hn4.
  destruct ((4 <=? length (interactions memory))%nat
            && (3 <=? engagement_level memory)) eqn:H5.
  { apply rule_depth_consult; auto. now apply depth_consult_iff. }
  pose proof (iff_false_of_bool _ _ (depth_consult_iff memory) H5) as Hn5.
  now apply rule_no_attempt.
Qed.

Lemma cta_rule_functional memory now r1 r2 :
  cta_rule memory now r1 -> cta_rule memory now r2 -> r1 = r2.
Proof.
  intros H1 H2.
  destruct H1; destruct H2; try reflexivity; try contradiction; lia.
Qed.

(** C4. [should_attempt_cta] answers by the first rule that applies, in
    the order: cooldown (the last attempt is less than 5 minutes before
    [now]) refuses; rate cap (2 or more attempts less than an hour old)
    refuses; stage considering or ready with engagement 3 or more grants
    consult; stage interested with engagement 2 or more and a true
    [space_concerns] grants render; 4 or more interactions with
    engagement 3 or more grants consult; otherwise no attempt.  Each
    constructor of [cta_rule] carries the failure of the rules before
    it. *)
Theorem should_attempt_cta_first_rule_wins memory now result :
  should_attempt_cta memory now = result <-> cta_rule memory now result.
Proof.
  split.
  - intros <-. apply gate_follows_rules.
  - intros H. eapply cta_rule_functional; [apply gate_follows_rules | exact H].
Qed.

(** The scenario of the specification: a buyer at stage considering with
    engagement 4, whose last attempt is 10 minutes old and who has no
    attempt on record, is offered a consult; once that attempt is
    recorded, the gate asked a minute later refuses. *)
Lemma gate_scenario :
  let buyer := set_cta [] (Some (minutes 0)) keen_buyer in
  should_attempt_cta buyer (minutes 10) = (true, Some "consult")
  /\ should_attempt_cta
       (record_cta_attempt buyer "consult" "pending" (minutes 10) (minutes 10))
       (minutes 11)
     = (false, None).
Proof. split; vm_compute; reflexivity. Qed.

(** ** Which fields an operation leaves alone *)

Ltac split_branches :=
  repeat (simpl;
          match goal with
          | |- context [if ?b then _ else _] => destruct b
          | |- context [match ?x with _ => _ end] => destruct x
          end);
  simpl; try reflexivity.

Lemma update_contact_info_stage memory field value :
  buyer_stage (update_contact_info memory field value) = buyer_stage memory.
Proof. unfold update_contact_info. split_branches. Qed.

Lemma update_contact_info_cta memory field value :
  cta_attempts (update_contact_info memory field value) = cta_attempts memory
  /\ last_cta_attempt (update_contact_info memory field value) = last_cta_attempt memory.
Proof. unfold update_contact_info. split_branches; auto. Qed.

Lemma process_contact_info_stage user_message scan memory :
  buyer_stage (process_contact_info user_message scan memory) = buyer_stage memory.
Proof.
  unfold process_contact_info.
  repeat match goal with
         | |- context [if ?b then _ else _] => destruct b
         | |- context [match ?x with _ => _ end] => destruct x
         end;
    rewrite ?update_contact_info_stage; reflexivity.
Qed.

Lemma process_contact_info_cta user_message scan memory :
  cta_attempts (process_contact_info user_message scan memory) = cta_attempts memory
  /\ last_cta_attempt (process_contact_info user_message scan memory)
     = last_cta_attempt memory.
Proof.
  unfold process_contact_info.
  repeat match goal with
         | |- context [if ?b then _ else _] => destruct b
         | |- context [match ?x with _ => _ end] => destruct x
         end;
    repeat match goal with
           | |- context [update_contact_info ?m ?f ?v] =>
               destruct (update_contact_info_cta m f v) as [-> ->]
           end; auto.
Qed.

Lemma handle_render_workflow_stage memory user_message scan :
  buyer_stage (handle_render_workflow memory user_message scan) = buyer_stage memory.
Proof.
  unfold handle_render_workflow.
  destruct (String.eqb _ "info_needed"); [reflexivity|].
  destruct (String.eqb _ "collecting_info"); [|reflexivity].
  destruct (get_missing_contact_fields _); simpl;
    apply process_contact_info_stage.
Qed.

Lemma handle_render_workflow_cta memory user_message scan :
  cta_attempts (handle_render_workflow memory user_message scan) = cta_attempts memory
  /\ last_cta_attempt (handle_render_workflow memory user_message scan)
     = last_cta_attempt memory.
Proof.
  unfold handle_render_workflow.
  destruct (String.eqb _ "info_needed"); [auto|].
  destruct (String.eqb _ "collecting_info"); [|auto].
  destruct (get_missing_contact_fields _); simpl;
    apply process_contact_info_cta.
Qed.

Lemma update_buyer_stage_cta memory user_message :
  cta_attempts (_update_buyer_stage memory user_message) = cta_attempts memory
  /\ last_cta_attempt (_update_buyer_stage memory user_message) = last_cta_attempt memory.
Proof. unfold _update_buyer_stage. split_branches; auto. Qed.

Lemma update_buyer_stage_key_facts memory um :
  key_facts (_update_buyer_stage memory um) = key_facts memory.
Proof. unfold _update_buyer_stage. split_branches. Qed.

Lemma add_interaction_fields self memory user_message bot_response now memory' :
  add_interaction self memory user_message bot_response now = Some memory' ->
  cta_attempts memory' = cta_attempts memory
  /\ last_cta_attempt memory' = last_cta_attempt memory.
Proof.
  unfold add_interaction, _extract_key_facts. simpl.
  destruct (extract_facts _ _); [|discriminate].
  intros [= <-]. simpl.
  destruct (update_buyer_stage_cta
    (set_key_facts g (set_interactions
       (prune (max_interactions self) (interactions memory ++
          [{| i_timestamp := now; i_user := user_message; i_bot := bot_response |}]))
       (set_interactions (interactions memory ++
          [{| i_timestamp := now; i_user := user_message; i_bot := bot_response |}])
          memory))) user_message) as [H1 H2].
  rewrite H1, H2. auto.
Qed.

(** ** The buyer stage never regresses *)

Lemma update_buyer_stage_moves memory user_message :
  let stage' := buyer_stage (_update_buyer_stage memory user_message) in
  stage' = buyer_stage memory
  \/ (buyer_stage memory = "browsing" /\ stage' = "interested")
  \/ (buyer_stage memory = "interested" /\ stage' = "considering")
  \/ (buyer_stage memory = "considering" /\ stage' = "ready").
Proof.
  unfold _update_buyer_stage.
  destruct (String.eqb (buyer_stage memory) "browsing") eqn:Hb.
  { apply String.eqb_eq in Hb. split_branches; auto. }
  destruct (String.eqb (buyer_stage memory) "interested") eqn:Hi.
  { apply String.eqb_eq in Hi. split_branches; auto. }
  destruct (String.eqb (buyer_stage memory) "considering") eqn:Hc.
  { apply String.eqb_eq in Hc. split_branches; auto 6. }
  simpl. auto.
Qed.

Lemma record_cta_attempt_stage memory cta_type response now_attempt now_last :
  let stage' :=
    buyer_stage (record_cta_attempt memory cta_type response now_attempt now_last) in
  stage' = buyer_stage memory \/ stage' = "ready".
Proof. unfold record_cta_attempt. split_branches; auto. Qed.

Lemma add_interaction_stage self memory user_message bot_response now memory' :
  add_interaction self memory user_message bot_response now = Some memory' ->
  exists mid, buyer_stage mid = buyer_stage memory
    /\ buyer_stage memory' = buyer_stage (_update_buyer_stage mid user_message).
Proof.
  unfold add_interaction, _extract_key_facts. simpl.
  destruct (extract_facts _ _) as [kf|]; [|discriminate].
  intros [= <-]. eexists. split; [|reflexivity]. reflexivity.
Qed.

Lemma stage_index_ready_max stage i :
  stage_index stage = Some i -> (i <= 3)%nat.
Proof.
  unfold stage_index.
  repeat match goal with
         | |- context [if ?b then _ else _] => destruct b
         end; intros [= <-]; lia.
Qed.

Lemma stage_moves_forward stage stage' i :
  stage_index stage = Some i ->
  stage' = stage
  \/ (stage = "browsing" /\ stage' = "interested")
  \/ (stage = "interested" /\ stage' = "considering")
  \/ (stage = "considering" /\ stage' = "ready")
  \/ stage' = "ready" ->
  exists j, stage_index stage' = Some j /\ (i <= j)%nat.
Proof.
  intros Hi [->|[[-> ->]|[[-> ->]|[[-> ->]| ->]]]].
  - eauto.
  - injection Hi as <-. exists 1%nat. split; [reflexivity | lia].
  - injection Hi as <-. exists 2%nat. split; [reflexivity | lia].
  - injection Hi as <-. exists 3%nat. split; [reflexivity | lia].
  - exists 3%nat. split; [reflexivity | eapply stage_index_ready_max; eauto].
Qed.

Lemma step_stage self memory op memory' i :
  stage_index (buyer_stage memory) = Some i ->
  step self memory op = Some memory' ->
  exists j, stage_index (buyer_stage memory') = Some j /\ (i <= j)%nat.
Proof.
  intros Hi Hstep. apply (stage_moves_forward (buyer_stage memory)); [assumption|].
  destruct op; simpl in Hstep.
  - injection Hstep as <-.
    destruct (update_buyer_stage_moves memory user_message) as [H|[H|[H|H]]]; auto 6.
  - injection Hstep as <-. left. reflexivity.
  - injection Hstep as <-.
    destruct (record_cta_attempt_stage memory cta_type response now_attempt now_last);
      auto 6.
  - apply add_interaction_stage in Hstep as (mid & Hmid & ->).
    rewrite <- Hmid.
    destruct (update_buyer_stage_moves mid user_message) as [H|[H|[H|H]]]; auto 6.
  - injection Hstep as <-. left. apply handle_render_workflow_stage.
Qed.

(** C2. Along any run of stage updates, engagement updates, CTA attempt
    recordings, whole turns and render workflow steps, the buyer stage of
    a record never moves to an earlier position in the order
    browsing < interested < considering < ready. *)
Theorem buyer_stage_never_regresses self memory ops memory' i :
  stage_index (buyer_stage memory) = Some i ->
  run_ops self memory ops = Some memory' ->
  exists j, stage_index (buyer_stage memory') = Some j /\ (i <= j)%nat.
Proof.
  revert memory i. induction ops as [|op ops IH]; intros memory i Hi Hrun.
  - injection Hrun as <-. exists i. split; [assumption | lia].
  - simpl in Hrun. destruct (step self memory op) as [mid|] eqn:Hstep; [|discriminate].
    destruct (step_stage _ _ _ _ _ Hi Hstep) as (k & Hk & Hik).
    destruct (IH _ _ Hk Hrun) as (j & Hj & Hkj).
    exists j. split; [assumption | lia].
Qed.

Lemma buyer_stage_never_regresses_witness :
  stage_index (buyer_stage fresh) = Some 0%nat
  /\ run_ops app_manager fresh browsing_to_ready = Some after_browsing_to_ready
  /\ exists j, stage_index (buyer_stage after_browsing_to_ready) = Some j /\ (0 <= j)%nat.
Proof.
  assert (H1 : stage_index (buyer_stage fresh) = Some 0%nat) by reflexivity.
  assert (H2 : run_ops app_manager fresh browsing_to_ready = Some after_browsing_to_ready)
    by (vm_compute; reflexivity).
  split; [exact H1|]. split; [exact H2|].
  exact (buyer_stage_never_regresses app_manager fresh browsing_to_ready
           after_browsing_to_ready 0%nat H1 H2).
Defined.

(** ** The fact extractor *)

Section Writes.

Context {k : string} {P : Fact -> Prop} {kf kf' : gmap string Fact}.
Hypothesis Hw : writes k P kf kf'.

Lemma writes_other k' : k' <> k -> kf' !! k' = kf !! k'.
Proof.
  intros Hne. destruct Hw as [->|(v & _ & ->)]; [reflexivity|].
  now rewrite lookup_insert_ne.
Qed.

Lemma writes_own : kf' !! k = kf !! k \/ exists v, P v /\ kf' !! k = Some v.
Proof.
  destruct Hw as [->|(v & Hv & ->)]; [now left|].
  right. exists v. split; [assumption|]. apply lookup_insert_eq.
Qed.

Lemma writes_keeps k' : is_Some (kf !! k') -> is_Some (kf' !! k').
Proof.
  intros Hs. destruct (decide (k' = k)) as [->|Hne].
  - destruct writes_own as [->|(v & _ & ->)]; eauto.
  - now rewrite writes_other.
Qed.

End Writes.

Lemma focus_block_writes ml kf :
  writes "focus" (is_str_in ["relaxation"; "entertaining"; "family"; "both"])
    kf (focus_block ml kf).
Proof.
  unfold focus_block, writes, is_str_in.
  repeat match goal with
         | |- context [if ?b then _ else _] => destruct b
         end;
    solve [ now left
          | right; eexists; split; [eexists; split; [reflexivity|]|reflexivity];
            set_solver ].
Qed.

Lemma budget_block_writes um ml kf :
  writes "budget_conscious" (eq (FBool true)) kf (budget_block um ml kf).
Proof.
  unfold budget_block, writes. cbv zeta.
  destruct (_ || _); [right; eauto | now left].
Qed.

Lemma pool_type_block_writes ml kf :
  writes "pool_type" (is_str_in ["cocktail"; "semi-inground"; "custom"])
    kf (pool_type_block ml kf).
Proof.
  unfold pool_type_block, writes, is_str_in.
  repeat match goal with
         | |- context [if ?b then _ else _] => destruct b
         end;
    solve [ now left
          | right; eexists; split; [eexists; split; [reflexivity|]|reflexivity];
            set_solver ].
Qed.

Lemma size_block_writes um kf :
  writes "preferred_size" (is_str_in ["12x24"; "14x28"]) kf (size_block um kf).
Proof.
  unfold size_block, writes, is_str_in.
  repeat match goal with
         | |- context [if ?b then _ else _] => destruct b
         end;
    solve [ now left
          | right; eexists; split; [eexists; split; [reflexivity|]|reflexivity];
            set_solver ].
Qed.

Lemma timeline_block_writes ml kf :
  writes "timeline_interest" (eq (FBool true)) kf (timeline_block ml kf).
Proof.
  unfold timeline_block, writes. cbv zeta.
  destruct (Text.any_in _ ml); [right; eauto | now left].
Qed.

Lemma space_block_writes ml kf :
  writes "space_concerns" (eq (FBool true)) kf (space_block ml kf).
Proof.
  unfold space_block, writes. cbv zeta.
  destruct (Text.any_in _ ml); [right; eauto | now left].
Qed.

Lemma mem_true_iff x (l : list string) : Text.mem x l = true <-> x ∈ l.
Proof.
  unfold Text.mem. rewrite existsb_exists. split.
  - intros (y & Hy & Heq). apply String.eqb_eq in Heq. subst.
    now apply list_elem_of_In.
  - intros Hin. exists x. split; [now apply list_elem_of_In | apply String.eqb_refl].
Qed.

(** On a list the loop only appends, never a name already present, and
    only names of the table it runs over. *)
Lemma feature_loop_list ml entries : forall l,
  exists l', feature_loop ml (FList l) entries = Some (FList (l ++ l'))
    /\ (NoDup l -> NoDup (l ++ l'))
    /\ (forall x, x ∈ l' -> x ∈ map fst entries).
Proof.
  induction entries as [|entry rest IH]; intros l.
  - exists []. simpl. rewrite app_nil_r. split; [reflexivity|].
    split; [auto | intros x Hx; inversion Hx].
  - simpl. unfold feature_step.
    destruct (Text.any_in (snd entry) ml).
    + destruct (Text.mem (fst entry) l) eqn:Hmem.
      * destruct (IH l) as (l' & Hl & Hnd & Hin).
        exists l'. split; [assumption|]. split; [assumption|].
        intros x Hx. right. auto.
      * destruct (IH (l ++ [fst entry])) as (l' & Hl & Hnd & Hin).
        exists (fst entry :: l').
        rewrite <- app_assoc in Hl, Hnd. simpl in Hl, Hnd.
        split; [assumption|]. split.
        -- intros Hl0. apply Hnd.
           assert (Hnot : fst entry ∉ l).
           { intros Hc. apply mem_true_iff in Hc. congruence. }
           replace (l ++ fst entry :: l') with ((l ++ [fst entry]) ++ l') in Hnd
             by (now rewrite <- app_assoc).
           apply NoDup_app. split; [assumption|]. split.
           ++ intros x Hx Hx'. apply list_elem_of_singleton in Hx'. subst. auto.
           ++ apply NoDup_singleton.
        -- intros x Hx. apply elem_of_cons in Hx as [->|Hx]; [now left | right; auto].
    + destruct (IH l) as (l' & Hl & Hnd & Hin).
      exists l'. split; [assumption|]. split; [assumption|].
      intros x Hx. right. auto.
Qed.

(** A successful run of the extractor is a chain of such writes around
    the features loop. *)
Lemma extract_facts_chain (kf : gmap string Fact) um kf' :
  extract_facts kf um = Some kf' ->
  exists (kf1 kf2 kf3 kf4 : gmap string Fact) (features' : Fact)
         (kf6 : gmap string Fact),
    writes "focus" (is_str_in ["relaxation"; "entertaining"; "family"; "both"]) kf kf1
    /\ writes "budget_conscious" (eq (FBool true)) kf1 kf2
    /\ writes "pool_type" (is_str_in ["cocktail"; "semi-inground"; "custom"]) kf2 kf3
    /\ writes "preferred_size" (is_str_in ["12x24"; "14x28"]) kf3 kf4
    /\ feature_loop (Text.lower um)
         (match kf !! "features" with Some v => v | None => FList [] end) feature_map
       = Some features'
    /\ writes "timeline_interest" (eq (FBool true)) (<["features" := features']> kf4) kf6
    /\ writes "space_concerns" (eq (FBool true)) kf6 kf'.
Proof.
  unfold extract_facts, features_block. cbv zeta.
  set (ml := Text.lower um).
  pose proof (focus_block_writes ml kf) as W1.
  set (kf1 := focus_block ml kf) in *.
  pose proof (budget_block_writes um ml kf1) as W2.
  set (kf2 := budget_block um ml kf1) in *.
  pose proof (pool_type_block_writes ml kf2) as W3.
  set (kf3 := pool_type_block ml kf2) in *.
  pose proof (size_block_writes um kf3) as W4.
  set (kf4 := size_block um kf3) in *.
  assert (Hfeat : kf4 !! "features" = kf !! "features").
  { rewrite (writes_other W4), (writes_other W3), (writes_other W2), (writes_other W1);
      done. }
  rewrite Hfeat.
  destruct (feature_loop ml _ feature_map) as [features'|] eqn:Hloop; [|discriminate].
  intros [= <-].
  pose proof (timeline_block_writes ml (<["features" := features']> kf4)) as W6.
  set (kf6 := timeline_block ml _) in *.
  pose proof (space_block_writes ml kf6) as W7.
  exists kf1, kf2, kf3, kf4, features', kf6. auto 10.
Qed.

Ltac extract_chain H :=
  apply extract_facts_chain in H
    as (kf1 & kf2 & kf3 & kf4 & features' & kf6 & W1 & W2 & W3 & W4 & Hloop & W6 & W7).

Lemma extract_facts_other (kf : gmap string Fact) um kf' k :
  extract_facts kf um = Some kf' -> k ∉ fact_keys -> kf' !! k = kf !! k.
Proof.
  intros H Hk. extract_chain H. unfold fact_keys in Hk.
  rewrite (writes_other W7), (writes_other W6) by set_solver.
  rewrite lookup_insert_ne by set_solver.
  rewrite (writes_other W4), (writes_other W3), (writes_other W2), (writes_other W1);
    set_solver.
Qed.

Lemma extract_facts_keeps (kf : gmap string Fact) um kf' k :
  extract_facts kf um = Some kf' -> is_Some (kf !! k) -> is_Some (kf' !! k).
Proof.
  intros H Hs. extract_chain H.
  apply (writes_keeps W7), (writes_keeps W6).
  destruct (decide (k = "features")) as [->|Hne].
  - rewrite lookup_insert_eq. eauto.
  - rewrite lookup_insert_ne by done.
    apply (writes_keeps W4), (writes_keeps W3), (writes_keeps W2), (writes_keeps W1), Hs.
Qed.

Lemma extract_facts_features (kf : gmap string Fact) um kf' :
  extract_facts kf um = Some kf' ->
  exists features',
    feature_loop (Text.lower um)
      (match kf !! "features" with Some v => v | None => FList [] end) feature_map
    = Some features'
    /\ kf' !! "features" = Some features'.
Proof.
  intros H. extract_chain H. exists features'. split; [assumption|].
  rewrite (writes_other W7), (writes_other W6) by done.
  apply lookup_insert_eq.
Qed.

Lemma extract_facts_focus (kf : gmap string Fact) um kf' :
  extract_facts kf um = Some kf' ->
  kf' !! "focus" = kf !! "focus"
  \/ exists v, is_str_in ["relaxation"; "entertaining"; "family"; "both"] v
              /\ kf' !! "focus" = Some v.
Proof.
  intros H. extract_chain H.
  rewrite (writes_other W7), (writes_other W6) by done.
  rewrite lookup_insert_ne by done.
  rewrite (writes_other W4), (writes_other W3), (writes_other W2) by done.
  apply (writes_own W1).
Qed.

Lemma extract_facts_pool_type (kf : gmap string Fact) um kf' :
  extract_facts kf um = Some kf' ->
  kf' !! "pool_type" = kf !! "pool_type"
  \/ exists v, is_str_in ["cocktail"; "semi-inground"; "custom"] v
              /\ kf' !! "pool_type" = Some v.
Proof.
  intros H. extract_chain H.
  rewrite (writes_other W7), (writes_other W6) by done.
  rewrite lookup_insert_ne by done.
  rewrite (writes_other W4) by done.
  assert (Hk : kf2 !! "pool_type" = kf !! "pool_type").
  { rewrite (writes_other W2), (writes_other W1); done. }
  rewrite <- Hk. apply (writes_own W3).
Qed.

Lemma extract_facts_preferred_size (kf : gmap string Fact) um kf' :
  extract_facts kf um = Some kf' ->
  kf' !! "preferred_size" = kf !! "preferred_size"
  \/ exists v, is_str_in ["12x24"; "14x28"] v /\ kf' !! "preferred_size" = Some v.
Proof.
  intros H. extract_chain H.
  rewrite (writes_other W7), (writes_other W6) by done.
  rewrite lookup_insert_ne by done.
  assert (Hk : kf3 !! "preferred_size" = kf !! "preferred_size").
  { rewrite (writes_other W3), (writes_other W2), (writes_other W1); done. }
  rewrite <- Hk. apply (writes_own W4).
Qed.

Lemma extract_facts_flag (kf : gmap string Fact) um kf' k :
  extract_facts kf um = Some kf' ->
  k ∈ ["budget_conscious"; "timeline_interest"; "space_concerns"] ->
  kf' !! k = kf !! k \/ kf' !! k = Some (FBool true).
Proof.
  intros H Hk. extract_chain H.
  apply elem_of_cons in Hk as [->|Hk];
    [|apply elem_of_cons in Hk as [->|Hk];
      [|apply list_elem_of_singleton in Hk as ->]].
  - rewrite (writes_other W7), (writes_other W6) by done.
    rewrite lookup_insert_ne by done.
    rewrite (writes_other W4), (writes_other W3) by done.
    assert (Hk' : kf1 !! "budget_conscious" = kf !! "budget_conscious")
      by (rewrite (writes_other W1); done).
    rewrite <- Hk'.
    destruct (writes_own W2) as [->|(v & <- & ->)]; auto.
  - rewrite (writes_other W7) by done.
    assert (Hk' : (<["features" := features']> kf4 : gmap string Fact)
                    !! "timeline_interest" = kf !! "timeline_interest").
    { rewrite lookup_insert_ne by done.
      rewrite (writes_other W4), (writes_other W3), (writes_other W2), (writes_other W1);
        done. }
    rewrite <- Hk'.
    destruct (writes_own W6) as [->|(v & <- & ->)]; auto.
  - assert (Hk' : kf6 !! "space_concerns" = kf !! "space_concerns").
    { rewrite (writes_other W6) by done.
      rewrite lookup_insert_ne by done.
      rewrite (writes_other W4), (writes_other W3), (writes_other W2), (writes_other W1);
        done. }
    rewrite <- Hk'.
    destruct (writes_own W7) as [->|(v & <- & ->)]; auto.
Qed.

Lemma extract_key_facts_dict memory um memory' :
  _extract_key_facts memory um = Some memory' ->
  extract_facts (key_facts memory) um = Some (key_facts memory').
Proof.
  unfold _extract_key_facts.
  destruct (extract_facts _ _); [|discriminate]. now intros [= <-].
Qed.

Lemma feature_loop_total ml (kf : gmap string Fact) :
  features_is_list kf ->
  exists l', feature_loop ml
      (match kf !! "features" with Some v => v | None => FList [] end) feature_map
    = Some (FList (features_of kf ++ l'))
    /\ (NoDup (features_of kf) -> NoDup (features_of kf ++ l'))
    /\ (forall x, x ∈ l' -> x ∈ map fst feature_map).
Proof.
  unfold features_of. intros [Hn|(l & Hl)].
  - rewrite Hn. apply (feature_loop_list ml feature_map []).
  - rewrite Hl. apply feature_loop_list.
Qed.

(** On a record whose [features] entry is a list the extractor returns. *)
Lemma extract_facts_total (kf : gmap string Fact) um :
  features_is_list kf -> exists kf', extract_facts kf um = Some kf'.
Proof.
  intros Hl. unfold extract_facts, features_block. cbv zeta.
  set (ml := Text.lower um).
  set (kf4 := size_block um _).
  assert (Hfeat : kf4 !! "features" = kf !! "features").
  { unfold kf4.
    rewrite (writes_other (size_block_writes _ _)),
      (writes_other (pool_type_block_writes _ _)),
      (writes_other (budget_block_writes _ _ _)),
      (writes_other (focus_block_writes _ _)); done. }
  rewrite Hfeat.
  destruct (feature_loop_total ml kf Hl) as (l' & -> & _). eauto.
Qed.

Lemma extract_key_facts_total memory um :
  features_is_list (key_facts memory) ->
  exists memory', _extract_key_facts memory um = Some memory'.
Proof.
  intros Hl. unfold _extract_key_facts.
  destruct (extract_facts_total _ um Hl) as (kf' & ->). eauto.
Qed.

Lemma focus_block_rules um (kf : gmap string Fact) :
  focus_block (Text.lower um) kf !! "focus"
  = after_rules focus_rules um (kf !! "focus").
Proof.
  unfold focus_block, after_rules, focus_rules, keyword_rule.
  cbn [first_match rule_matches rule_value].
  repeat match goal with
         | |- context [if ?b then _ else _] => destruct b
         end;
    rewrite ?lookup_insert_eq; reflexivity.
Qed.

Lemma pool_type_block_rules um (kf : gmap string Fact) :
  pool_type_block (Text.lower um) kf !! "pool_type"
  = after_rules pool_type_rules um (kf !! "pool_type").
Proof.
  unfold pool_type_block, after_rules, pool_type_rules, keyword_rule, Text.any_in.
  cbn [first_match rule_matches rule_value existsb].
  rewrite !orb_false_r.
  repeat match goal with
         | |- context [if ?b then _ else _] => destruct b
         end;
    rewrite ?lookup_insert_eq; reflexivity.
Qed.

Lemma size_block_rules um (kf : gmap string Fact) :
  size_block um kf !! "preferred_size"
  = after_rules preferred_size_rules um (kf !! "preferred_size").
Proof.
  unfold size_block, after_rules, preferred_size_rules.
  cbn [first_match rule_matches rule_value].
  repeat match goal with
         | |- context [if ?b then _ else _] => destruct b
         end;
    rewrite ?lookup_insert_eq; reflexivity.
Qed.

Lemma extract_facts_rules (kf : gmap string Fact) um kf' :
  extract_facts kf um = Some kf' ->
  kf' !! "focus" = after_rules focus_rules um (kf !! "focus")
  /\ kf' !! "pool_type" = after_rules pool_type_rules um (kf !! "pool_type")
  /\ kf' !! "preferred_size"
     = after_rules preferred_size_rules um (kf !! "preferred_size").
Proof.
  unfold extract_facts, features_block. cbv zeta.
  destruct (feature_loop _ _ feature_map) as [features'|]; [|discriminate].
  intros Heq.
  assert (Hkf : kf' = space_block (Text.lower um)
    (timeline_block (Text.lower um) (<["features" := features']>
      (size_block um (pool_type_block (Text.lower um)
        (budget_block um (Text.lower um) (focus_block (Text.lower um) kf)))))))
    by congruence.
  rewrite Hkf. split; [|split].
  - rewrite (writes_other (space_block_writes _ _)),
      (writes_other (timeline_block_writes _ _)) by done.
    rewrite lookup_insert_ne by done.
    rewrite (writes_other (size_block_writes _ _)),
      (writes_other (pool_type_block_writes _ _)),
      (writes_other (budget_block_writes _ _ _)) by done.
    apply focus_block_rules.
  - rewrite (writes_other (space_block_writes _ _)),
      (writes_other (timeline_block_writes _ _)) by done.
    rewrite lookup_insert_ne by done.
    rewrite (writes_other (size_block_writes _ _)) by done.
    rewrite pool_type_block_rules.
    rewrite (writes_other (budget_block_writes _ _ _)),
      (writes_other (focus_block_writes _ _)) by done.
    reflexivity.
  - rewrite (writes_other (space_block_writes _ _)),
      (writes_other (timeline_block_writes _ _)) by done.
    rewrite lookup_insert_ne by done.
    rewrite size_block_rules.
    rewrite (writes_other (pool_type_block_writes _ _)),
      (writes_other (budget_block_writes _ _ _)),
      (writes_other (focus_block_writes _ _)) by done.
    reflexivity.
Qed.

(** C1, as the code has it.  A call of the fact extractor on a record
    whose [features] entry is a list returns, and: no key of [key_facts]
    is removed; a boolean fact that is true stays true; [focus],
    [pool_type] and [preferred_size] each end with the value of the
    first of their rules that the new utterance matches, whatever value
    they had, and keep their value when the utterance matches none of
    their rules; [features] only has names appended; no other key is
    touched. *)
Theorem extract_key_facts_overwrites_scalars memory um :
  features_is_list (key_facts memory) ->
  exists memory',
    _extract_key_facts memory um = Some memory'
    /\ (forall k, is_Some (key_facts memory !! k) -> is_Some (key_facts memory' !! k))
    /\ (forall k, k ∈ ["budget_conscious"; "timeline_interest"; "space_concerns"] ->
          key_facts memory !! k = Some (FBool true) ->
          key_facts memory' !! k = Some (FBool true))
    /\ key_facts memory' !! "focus"
       = after_rules focus_rules um (key_facts memory !! "focus")
    /\ key_facts memory' !! "pool_type"
       = after_rules pool_type_rules um (key_facts memory !! "pool_type")
    /\ key_facts memory' !! "preferred_size"
       = after_rules preferred_size_rules um (key_facts memory !! "preferred_size")
    /\ (key_facts memory' !! "focus" = key_facts memory !! "focus"
        \/ exists v, is_str_in ["relaxation"; "entertaining"; "family"; "both"] v
                     /\ key_facts memory' !! "focus" = Some v)
    /\ (key_facts memory' !! "pool_type" = key_facts memory !! "pool_type"
        \/ exists v, is_str_in ["cocktail"; "semi-inground"; "custom"] v
                     /\ key_facts memory' !! "pool_type" = Some v)
    /\ (key_facts memory' !! "preferred_size" = key_facts memory !! "preferred_size"
        \/ exists v, is_str_in ["12x24"; "14x28"] v
                     /\ key_facts memory' !! "preferred_size" = Some v)
    /\ (exists l', features_of (key_facts memory')
                   = features_of (key_facts memory) ++ l')
    /\ (forall k, k ∉ fact_keys -> key_facts memory' !! k = key_facts memory !! k).
Proof.
  intros Hl.
  destruct (extract_key_facts_total memory um Hl) as (memory' & Hex).
  exists memory'. split; [assumption|].
  apply extract_key_facts_dict in Hex.
  destruct (extract_facts_rules _ _ _ Hex) as (Hfocus & Hpool & Hsize).
  split; [|split; [|split; [exact Hfocus|split; [exact Hpool|split; [exact Hsize|]]]]].
  - intros k. now apply extract_facts_keeps with (um := um).
  - intros k Hk Htrue.
    destruct (extract_facts_flag _ _ _ k Hex Hk) as [->| ->]; auto.
  - split; [|split; [|split; [|split]]].
    + now apply extract_facts_focus with (um := um).
    + now apply extract_facts_pool_type with (um := um).
    + now apply extract_facts_preferred_size with (um := um).
    + destruct (extract_facts_features _ _ _ Hex) as (features' & Hloop & Hf).
      destruct (feature_loop_total (Text.lower um) _ Hl) as (l' & Hl' & _).
      exists l'. unfold features_of at 1. rewrite Hf.
      rewrite Hl' in Hloop. now injection Hloop as <-.
    + intros k Hk. now apply extract_facts_other with (um := um).
Qed.

(** A focus on record is overwritten by the rule the utterance matches,
    and kept by an utterance that matches no rule of the fact. *)
Lemma extract_key_facts_overwrites_scalars_witness :
  features_is_list (key_facts family_buyer)
  /\ (exists memory',
        _extract_key_facts family_buyer "I want to relax" = Some memory'
        /\ key_facts memory' !! "focus" = Some (FStr "relaxation"))
  /\ (exists memory',
        _extract_key_facts family_buyer "hello there" = Some memory'
        /\ key_facts memory' !! "focus" = Some (FStr "family")).
Proof.
  assert (H : features_is_list (key_facts family_buyer)) by (left; reflexivity).
  split; [exact H|]. split.
  - destruct (extract_key_facts_overwrites_scalars family_buyer "I want to relax" H)
      as (memory' & Hex & _ & _ & Hfocus & _).
    exists memory'. split; [exact Hex|]. rewrite Hfocus. reflexivity.
  - destruct (extract_key_facts_overwrites_scalars family_buyer "hello there" H)
      as (memory' & Hex & _ & _ & Hfocus & _).
    exists memory'. split; [exact Hex|]. rewrite Hfocus. reflexivity.
Defined.

(** C1 as stated fails: a focus already set to "family" is changed by a
    later utterance that matches the relaxation rule. *)
Lemma focus_already_set_is_changed :
  key_facts family_buyer !! "focus" = Some (FStr "family")
  /\ option_map (fun memory' => key_facts memory' !! "focus")
       (_extract_key_facts family_buyer "I want to relax")
     = Some (Some (FStr "relaxation")).
Proof. split; vm_compute; reflexivity. Qed.





(** ** Runs on typed records return *)

Lemma extract_key_facts_keeps_list memory um memory' :
  features_is_list (key_facts memory) ->
  _extract_key_facts memory um = Some memory' ->
  features_is_list (key_facts memory').
Proof.
  intros Hl Hex. apply extract_key_facts_dict in Hex.
  destruct (extract_facts_features _ _ _ Hex) as (features' & Hloop & Hf).
  destruct (feature_loop_total (Text.lower um) _ Hl) as (l' & Hl' & _).
  rewrite Hl' in Hloop. injection Hloop as <-.
  right. eauto.
Qed.

Lemma update_contact_info_key_facts memory field value :
  key_facts (update_contact_info memory field value) = key_facts memory.
Proof. unfold update_contact_info. split_branches. Qed.

Lemma process_contact_info_key_facts user_message scan memory :
  key_facts (process_contact_info user_message scan memory) = key_facts memory.
Proof.
  unfold process_contact_info.
  repeat match goal with
         | |- context [if ?b then _ else _] => destruct b
         | |- context [match ?x with _ => _ end] => destruct x
         end;
    rewrite ?update_contact_info_key_facts; reflexivity.
Qed.

Lemma handle_render_workflow_key_facts memory user_message scan :
  key_facts (handle_render_workflow memory user_message scan) = key_facts memory.
Proof.
  unfold handle_render_workflow.
  destruct (String.eqb _ "info_needed"); [reflexivity|].
  destruct (String.eqb _ "collecting_info"); [|reflexivity].
  destruct (get_missing_contact_fields _); simpl;
    apply process_contact_info_key_facts.
Qed.

Lemma record_cta_attempt_key_facts memory cta_type response now_attempt now_last :
  key_facts (record_cta_attempt memory cta_type response now_attempt now_last)
  = key_facts memory.
Proof. unfold record_cta_attempt. split_branches. Qed.

Lemma step_total self memory op :
  features_is_list (key_facts memory) ->
  exists memory', step self memory op = Some memory'
                  /\ features_is_list (key_facts memory').
Proof.
  intros Hl. destruct op; simpl.
  - eexists. split; [reflexivity|]. now rewrite update_buyer_stage_key_facts.
  - eexists. split; [reflexivity|]. exact Hl.
  - eexists. split; [reflexivity|]. now rewrite record_cta_attempt_key_facts.
  - unfold add_interaction.
    match goal with
    | |- context [_extract_key_facts ?m user_message] =>
        destruct (extract_key_facts_total m user_message Hl) as (mid & Hex);
        pose proof (extract_key_facts_keeps_list m user_message mid Hl Hex) as Hmid
    end.
    rewrite Hex. eexists. split; [reflexivity|].
    simpl. now rewrite update_buyer_stage_key_facts.
  - eexists. split; [reflexivity|]. now rewrite handle_render_workflow_key_facts.
Qed.

(** No operation raises on a record whose [features] entry is a list. *)
Lemma run_ops_total self ops : forall memory,
  features_is_list (key_facts memory) ->
  exists memory', run_ops self memory ops = Some memory'.
Proof.
  induction ops as [|op ops IH]; intros memory Hl; simpl; [eauto|].
  destruct (step_total self memory op Hl) as (mid & -> & Hmid).
  now apply IH.
Qed.

(** ** The features entry counts as a key fact *)

Lemma update_buyer_stage_interested memory um :
  buyer_stage memory = "interested" ->
  Text.any_in ["timeline"; "schedule"; "when can"; "how soon"] (Text.lower um) = false ->
  (buyer_stage (_update_buyer_stage memory um) = "considering"
   <-> (3 <= size (key_facts memory))%nat).
Proof.
  intros Hs Hu. unfold _update_buyer_stage. rewrite Hs, Hu.
  destruct (3 <=? size (key_facts memory))%nat eqn:Hsz; simpl.
  - apply Nat.leb_le in Hsz. split; [intros _; exact Hsz | reflexivity].
  - apply Nat.leb_gt in Hsz. rewrite Hs. split; [discriminate | lia].
Qed.

Lemma size_counts_entry (kf : gmap string Fact) k :
  is_Some (kf !! k) -> size kf = S (size (delete k kf)).
Proof.
  intros [v Hv].
  rewrite <- (insert_delete_id kf k v Hv) at 1.
  apply map_size_insert_None, lookup_delete_eq.
Qed.

(** C10. Every turn leaves a "features" entry in [key_facts], the empty
    list when there was none and the utterance names no feature; the
    size of [key_facts] counts it, so for a buyer at stage interested
    whose utterance has no urgency phrase the stage moves to considering
    exactly when two facts besides "features" are present. *)
Theorem features_entry_counts_as_fact self memory um bot now :
  features_is_list (key_facts memory) ->
  exists extracted memory',
    _extract_key_facts memory um = Some extracted
    /\ add_interaction self memory um bot now = Some memory'
    /\ key_facts memory' = key_facts extracted
    /\ is_Some (key_facts extracted !! "features")
    /\ (key_facts memory !! "features" = None -> mentions_feature um = false ->
        key_facts extracted !! "features" = Some (FList []))
    /\ size (key_facts extracted) = S (size (delete "features" (key_facts extracted)))
    /\ (buyer_stage memory = "interested" ->
        Text.any_in ["timeline"; "schedule"; "when can"; "how soon"] (Text.lower um)
          = false ->
        (buyer_stage memory' = "considering"
         <-> (2 <= size (delete "features" (key_facts extracted)))%nat)).
Proof.
  intros Hl.
  destruct (extract_key_facts_total memory um Hl) as (extracted & Hex).
  pose proof (extract_key_facts_dict _ _ _ Hex) as Hd.
  destruct (extract_facts_features _ _ _ Hd) as (features' & Hloop & Hf).
  assert (Hsome : is_Some (key_facts extracted !! "features")) by eauto.
  pose proof (size_counts_entry _ _ Hsome) as Hsize.
  unfold add_interaction, _extract_key_facts in *. simpl.
  destruct (extract_facts (key_facts memory) um) as [kf|]; [|discriminate].
  injection Hex as <-. simpl in *.
  eexists _, _. split; [reflexivity|]. split; [reflexivity|]. simpl.
  rewrite update_buyer_stage_key_facts. simpl.
  split; [reflexivity|]. split; [assumption|]. split; [|split; [assumption|]].
  - intros Hnone Hno. rewrite Hf. f_equal.
    rewrite Hnone in Hloop. revert Hloop Hno. clear.
    unfold mentions_feature, feature_map. simpl. unfold feature_step. simpl.
    intros Hloop Hno.
    repeat match type of Hno with
           | (?a || ?b) = false => apply orb_false_iff in Hno as [? Hno]
           end.
    repeat match goal with
           | H : ?b = false |- _ => rewrite H in Hloop; clear H
           end.
    now injection Hloop as <-.
  - intros Hs Hu.
    rewrite update_buyer_stage_interested by (simpl; assumption).
    simpl. rewrite Hsize. lia.
Qed.

Lemma features_entry_counts_as_fact_witness :
  features_is_list (key_facts interested_buyer)
  /\ exists memory',
       add_interaction app_manager interested_buyer
         "I love cocktail pools for my family" "Good choice." 0 = Some memory'
       /\ buyer_stage memory' = "considering".
Proof.
  assert (H : features_is_list (key_facts interested_buyer)) by (left; reflexivity).
  split; [exact H|].
  destruct (features_entry_counts_as_fact app_manager interested_buyer
              "I love cocktail pools for my family" "Good choice." 0 H)
    as (extracted & memory' & Hex & Hadd & _ & _ & _ & _ & Hstage).
  exists memory'. split; [exact Hadd|].
  apply Hstage; [reflexivity | vm_compute; reflexivity |].
  assert (Hsz : option_map (fun e => size (delete "features" (key_facts e)))
                  (_extract_key_facts interested_buyer
                     "I love cocktail pools for my family") = Some 2%nat)
    by (vm_compute; reflexivity).
  rewrite Hex in Hsz. simpl in Hsz. injection Hsz as ->. lia.
Defined.

(** ** The render workflow stage *)

Lemma captured_cases memory :
  let c := captured memory in
  forallb c required_fields = (c "name" && c "email" && c "phone" && c "photo")
  /\ existsb c required_fields = (c "name" || c "email" || c "phone" || c "photo")
  /\ captured_count memory =
     (Nat.b2n (c "name") + Nat.b2n (c "email") + Nat.b2n (c "phone")
      + Nat.b2n (c "photo"))%nat.
Proof.
  unfold captured_count, required_fields. simpl.
  destruct (captured memory "name"), (captured memory "email"),
    (captured memory "phone"), (captured memory "photo"); simpl; auto.
Qed.

Lemma nothing_captured memory :
  captured_count memory = 0%nat ->
  captured memory "name" = false /\ captured memory "email" = false
  /\ captured memory "phone" = false /\ captured memory "photo" = false.
Proof.
  destruct (captured_cases memory) as (_ & _ & ->).
  destruct (captured memory "name"), (captured memory "email"),
    (captured memory "phone"), (captured memory "photo"); simpl;
    intros H; first [discriminate H | auto].
Qed.

(** Capturing a first contact field moves a record at [info_needed] to
    [collecting_info]. *)
Lemma first_field_starts_collecting memory field value :
  render_requested memory = true ->
  render_status memory = Some "info_needed" ->
  captured_count memory = 0%nat ->
  In field required_fields -> value <> "" ->
  get_render_workflow_stage (update_contact_info memory field value)
  = "collecting_info".
Proof.
  intros Hreq Hst H0 Hin Hval.
  destruct (nothing_captured memory H0) as (Hn & He & Hp & Hf).
  unfold captured in *.
  assert (Hv : negb (String.eqb value "") = true).
  { apply negb_true_iff, String.eqb_neq, Hval. }
  unfold update_contact_info, get_render_workflow_stage, required_fields.
  simpl in Hin. destruct Hin as [<-|[<-|[<-|[<-|[]]]]]; simpl;
    rewrite ?lookup_insert_eq, ?lookup_insert_ne by done; simpl;
    rewrite ?Hn, ?He, ?Hp, ?Hf, ?Hv; simpl;
    rewrite ?Hreq, ?Hst; simpl;
    rewrite ?lookup_insert_eq, ?lookup_insert_ne by done; simpl;
    rewrite ?Hn, ?He, ?Hp, ?Hf, ?Hv; reflexivity.
Qed.

(** C3, as the code has it.  For a record with [render_requested] true
    and status [info_needed], the workflow stage is read off
    [contact_info] alone: [info_needed] while no contact field is
    captured, [collecting_info] once at least one but not all four are,
    [complete] when all four are.  So the step from [info_needed] to
    [collecting_info] is taken when a first field is captured, and two
    records that agree on [render_requested], [render_status] and
    [contact_info] are at the same stage, whatever turns they have
    seen. *)
Theorem render_stage_follows_contact_fields memory :
  render_requested memory = true ->
  render_status memory = Some "info_needed" ->
  (get_render_workflow_stage memory = "info_needed" <-> captured_count memory = 0%nat)
  /\ (get_render_workflow_stage memory = "collecting_info"
      <-> (0 < captured_count memory < 4)%nat)
  /\ (get_render_workflow_stage memory = "complete" <-> captured_count memory = 4%nat)
  /\ (forall field value,
        captured_count memory = 0%nat ->
        In field required_fields -> value <> "" ->
        get_render_workflow_stage (update_contact_info memory field value)
        = "collecting_info")
  /\ (forall other,
        render_requested other = render_requested memory ->
        render_status other = render_status memory ->
        contact_info other = contact_info memory ->
        get_render_workflow_stage other = get_render_workflow_stage memory).
Proof.
  intros Hreq Hst.
  assert (Hproj : forall other,
            render_requested other = render_requested memory ->
            render_status other = render_status memory ->
            contact_info other = contact_info memory ->
            get_render_workflow_stage other = get_render_workflow_stage memory).
  { intros other H1 H2 H3. unfold get_render_workflow_stage.
    now rewrite H1, H2, H3. }
  assert (Hfirst : forall field value,
            captured_count memory = 0%nat ->
            In field required_fields -> value <> "" ->
            get_render_workflow_stage (update_contact_info memory field value)
            = "collecting_info").
  { intros field value. now apply first_field_starts_collecting. }
  split; [|split; [|split; [|split; [exact Hfirst | exact Hproj]]]];
    clear Hproj Hfirst.
  all: destruct (captured_cases memory) as (Hall & Hany & Hcount);
    unfold get_render_workflow_stage;
    fold (captured memory); rewrite Hreq, Hst, Hall, Hany, Hcount; simpl.
  all: destruct (captured memory "name"), (captured memory "email"),
         (captured memory "phone"), (captured memory "photo"); simpl;
       split; intros H; first [ reflexivity | discriminate | lia ].
Qed.

Lemma render_stage_follows_contact_fields_witness :
  render_requested render_accepted = true
  /\ render_status render_accepted = Some "info_needed"
  /\ (get_render_workflow_stage render_accepted = "info_needed"
      <-> captured_count render_accepted = 0%nat).
Proof.
  assert (H1 : render_requested render_accepted = true) by reflexivity.
  assert (H2 : render_status render_accepted = Some "info_needed") by reflexivity.
  split; [exact H1|]. split; [exact H2|].
  exact (proj1 (render_stage_follows_contact_fields render_accepted H1 H2)).
Defined.

(** C3 as stated fails: after the render CTA was accepted, a turn and
    the next turn, neither of which captures a contact field, both leave
    the stage at [info_needed]. *)
Lemma waiting_turns_stay_info_needed :
  get_render_workflow_stage render_accepted = "info_needed"
  /\ option_map get_render_workflow_stage
       (run_ops app_manager render_accepted
          [OpRender "sounds good" no_matches;
           OpTurn "sounds good" "Great, send it over." 1])
     = Some "info_needed"
  /\ option_map get_render_workflow_stage
       (run_ops app_manager render_accepted
          [OpRender "sounds good" no_matches;
           OpTurn "sounds good" "Great, send it over." 1;
           OpRender "give me a moment" no_matches;
           OpTurn "give me a moment" "Sure." 2])
     = Some "info_needed".
Proof. repeat split; vm_compute; reflexivity. Qed.

(** ** The memory store *)

(** C7, as the code has it.  A load whose store operation fails is not
    reported: [load_memory] returns the very record it returns for an id
    the store does not hold, so the caller cannot tell the two apart; a
    save or a sweep whose store operation fails leaves the table as it
    was and reports nothing either. *)
Theorem store_failure_is_swallowed self db generated_id now current_timestamp uid
    memory :
  load_memory self db false generated_id now uid
    = load_memory self ∅ true generated_id now uid
  /\ save_memory db false now current_timestamp memory = db
  /\ cleanup_expired_memories self db false now = (db, 0).
Proof.
  unfold load_memory, save_memory, cleanup_expired_memories.
  rewrite lookup_empty. split; [reflexivity|]. split; [|reflexivity].
  now destruct (String.eqb (user_id memory) "").
Qed.

(** C7 as stated fails: with a row stored for "u1" at stage ready, a load
    that fails returns the defaults of a new id, exactly what a load that
    succeeds returns for an id without a row. *)
Lemma failed_load_looks_like_new_user :
  load_memory app_manager one_row true "gen" 5 (Some "u1") = stored_row
  /\ load_memory app_manager one_row false "gen" 5 (Some "u1") = default_memory "u1" 5
  /\ load_memory app_manager ∅ true "gen" 5 (Some "u1") = default_memory "u1" 5.
Proof. repeat split; vm_compute; reflexivity. Qed.

(** What the swallowed failure leads to: a turn that starts with a load
    that fails and ends with a save that succeeds replaces the stored
    row, here of a buyer at stage ready, by one built from the defaults. *)
Lemma failed_load_then_save_replaces_row :
  let loaded := load_memory app_manager one_row false "gen" 5 (Some "u1") in
  option_map (fun memory => buyer_stage <$> save_memory one_row true 6 6 memory !! "u1")
    (add_interaction app_manager loaded "hello" "Hi there." 5)
  = Some (Some "browsing").
Proof. vm_compute. reflexivity. Qed.

Lemma sweep_lookup self (db : gmap string Memory) later k r :
  fst (cleanup_expired_memories self db true later) !! k = Some r
  <-> db !! k = Some r /\ ~ last_updated r < later - days (expiry_days self).
Proof.
  unfold cleanup_expired_memories. simpl.
  rewrite map_lookup_filter_Some. unfold expired. simpl. tauto.
Qed.

Lemma sweep_count self (db : gmap string Memory) later :
  Z.of_nat (size db)
  = Z.of_nat (size (fst (cleanup_expired_memories self db true later)))
    + snd (cleanup_expired_memories self db true later).
Proof.
  unfold cleanup_expired_memories. simpl.
  set (cutoff := later - days (expiry_days self)).
  rewrite <- (map_filter_union_complement (expired cutoff) db) at 1.
  rewrite map_size_disj_union by apply map_disjoint_filter_complement.
  lia.
Qed.

(** C8. A row whose [last_updated] is more than the expiry window before
    the load is loaded as the defaults of a new id (stage browsing,
    engagement 1, no interactions, facts or contact fields, no render
    requested), the same record the load gives once the row is gone; and
    a sweep that reaches the store keeps exactly the rows whose
    [last_updated] does not precede its instant minus the window,
    returns the number of rows it deleted, and, run at or after the
    load, deletes that row. *)
Theorem expired_record_loads_fresh_and_is_swept self db generated_id now uid row :
  uid <> "" ->
  db !! uid = Some row ->
  days (expiry_days self) < now - last_updated row ->
  let loaded := load_memory self db true generated_id now (Some uid) in
  loaded = default_memory uid now
  /\ loaded = load_memory self (delete uid db) true generated_id now (Some uid)
  /\ (buyer_stage loaded = "browsing" /\ engagement_level loaded = 1
      /\ interactions loaded = [] /\ key_facts loaded = ∅
      /\ contact_info loaded = ∅ /\ render_requested loaded = false)
  /\ forall later,
       let swept := cleanup_expired_memories self db true later in
       (forall k r,
          fst swept !! k = Some r
          <-> db !! k = Some r /\ ~ last_updated r < later - days (expiry_days self))
       /\ Z.of_nat (size db) = Z.of_nat (size (fst swept)) + snd swept
       /\ (now <= later -> fst swept !! uid = None).
Proof.
  intros Hid Hrow Hold loaded.
  assert (Hload : loaded = default_memory uid now).
  { unfold loaded, load_memory.
    apply String.eqb_neq in Hid. rewrite Hid, Hrow.
    apply Z.ltb_lt in Hold. now rewrite Hold. }
  split; [exact Hload|]. split; [|split].
  - rewrite Hload. unfold load_memory.
    apply String.eqb_neq in Hid. now rewrite Hid, lookup_delete_eq.
  - rewrite Hload. simpl. auto 10.
  - intros later swept. split; [|split].
    + intros k r. apply sweep_lookup.
    + apply sweep_count.
    + intros Hlater.
      destruct (fst swept !! uid) as [r|] eqn:Hr; [|reflexivity].
      apply sweep_lookup in Hr as [Hr Hkeep].
      rewrite Hrow in Hr. injection Hr as <-. lia.
Qed.

Lemma expired_record_loads_fresh_and_is_swept_witness :
  "u1" <> ""
  /\ one_row !! "u1" = Some stored_row
  /\ days (expiry_days app_manager) < days 91 - last_updated stored_row
  /\ load_memory app_manager one_row true "gen" (days 91) (Some "u1")
     = default_memory "u1" (days 91).
Proof.
  assert (H1 : "u1" <> "") by discriminate.
  assert (H2 : one_row !! "u1" = Some stored_row) by reflexivity.
  assert (H3 : days (expiry_days app_manager) < days 91 - last_updated stored_row)
    by (vm_compute; reflexivity).
  split; [exact H1|]. split; [exact H2|]. split; [exact H3|].
  exact (proj1 (expired_record_loads_fresh_and_is_swept
                  app_manager one_row "gen" (days 91) "u1" stored_row H1 H2 H3)).
Defined.

(** ** Rate limits of the CTA gate *)

Lemma record_cta_attempt_cta memory cta_type response now_attempt now_last :
  cta_attempts (record_cta_attempt memory cta_type response now_attempt now_last)
  = cta_attempts memory
    ++ [{| a_timestamp := now_attempt; a_type := cta_type;
           a_response := Text.lower response |}]
  /\ last_cta_attempt (record_cta_attempt memory cta_type response now_attempt now_last)
     = Some now_last.
Proof. unfold record_cta_attempt. split_branches; auto. Qed.

(** What an operation does to the CTA fields: nothing, or what
    [record_cta_attempt] does. *)
Lemma step_cta self memory op memory' :
  step self memory op = Some memory' ->
  (cta_attempts memory' = cta_attempts memory
   /\ last_cta_attempt memory' = last_cta_attempt memory
   /\ forall ct r t1 t2, op <> OpCta ct r t1 t2)
  \/ exists ct r t1 t2,
       op = OpCta ct r t1 t2
       /\ cta_attempts memory'
          = cta_attempts memory
            ++ [{| a_timestamp := t1; a_type := ct; a_response := Text.lower r |}]
       /\ last_cta_attempt memory' = Some t2.
Proof.
  destruct op; simpl; intros Hstep.
  - injection Hstep as <-. left.
    destruct (update_buyer_stage_cta memory user_message). auto.
  - injection Hstep as <-. left. simpl. auto.
  - injection Hstep as <-. right.
    destruct (record_cta_attempt_cta memory cta_type response now_attempt now_last).
    eauto 10.
  - left. destruct (add_interaction_fields _ _ _ _ _ _ Hstep). auto.
  - injection Hstep as <-. left.
    destruct (handle_render_workflow_cta memory user_message scan). auto.
Qed.

Lemma filter_length_mono {A} (p q : A -> bool) (l : list A) :
  (forall x, p x = true -> q x = true) ->
  (length (List.filter p l) <= length (List.filter q l))%nat.
Proof.
  intros Hpq. induction l as [|x l IH]; simpl; [lia|].
  destruct (p x) eqn:Hp.
  - rewrite (Hpq x Hp). simpl. lia.
  - destruct (q x); simpl; lia.
Qed.

Lemma recorded_since_app a memory memory' extra :
  cta_attempts memory' = cta_attempts memory ++ extra ->
  (recorded_since a memory <= recorded_since a memory')%nat.
Proof.
  unfold recorded_since. intros ->.
  rewrite List.filter_app, length_app. lia.
Qed.

Lemma recorded_since_new a memory memory' t ct r :
  cta_attempts memory'
  = cta_attempts memory ++ [{| a_timestamp := t; a_type := ct; a_response := r |}] ->
  a <= t ->
  recorded_since a memory' = S (recorded_since a memory).
Proof.
  unfold recorded_since. intros -> Hat.
  rewrite List.filter_app, length_app. simpl.
  apply Z.leb_le in Hat. rewrite Hat. simpl. lia.
Qed.

Lemma step_recorded_since self memory op memory' a :
  step self memory op = Some memory' ->
  (recorded_since a memory <= recorded_since a memory')%nat.
Proof.
  intros Hstep.
  destruct (step_cta _ _ _ _ Hstep) as [(Hc & _)|(ct & r & t1 & t2 & _ & Hc & _)].
  - unfold recorded_since. rewrite Hc. lia.
  - eapply recorded_since_app, Hc.
Qed.

Lemma gate_cooldown memory now last kind :
  last_cta_attempt memory = Some last ->
  should_attempt_cta memory now = (true, kind) ->
  minutes 5 <= now - last.
Proof.
  unfold should_attempt_cta. intros ->.
  destruct (now - last <? minutes 5) eqn:Hc; [discriminate|].
  intros _. now apply Z.ltb_ge in Hc.
Qed.

Lemma gate_rate_cap memory now a kind :
  (2 <= recorded_since a memory)%nat ->
  should_attempt_cta memory now = (true, kind) ->
  hours 1 <= now - a.
Proof.
  intros Hrec Hgate.
  destruct (Z_lt_le_dec (now - a) (hours 1)) as [Hlt|Hle]; [exfalso | assumption].
  assert (Hrecent : (2 <= length (List.filter
            (fun attempt => (now - a_timestamp attempt <? hours 1)%Z)
            (cta_attempts memory)))%nat).
  { etransitivity; [exact Hrec|]. apply filter_length_mono.
    intros x Hx. apply Z.leb_le in Hx. apply Z.ltb_lt. lia. }
  apply Nat.leb_le in Hrecent.
  unfold should_attempt_cta in Hgate. rewrite Hrecent in Hgate.
  destruct (match last_cta_attempt memory with
            | Some l => now - l <? minutes 5 | None => false end); discriminate.
Qed.

Lemma chronological_weaken events : forall t t',
  t <= t' -> chronological t' events -> chronological t events.
Proof.
  induction events as [|ev rest IH]; intros t t' Hle; simpl; [auto|].
  destruct ev as [now r t1 t2|op].
  - intros (H1 & H2). split; [lia | assumption].
  - destruct op.
    + apply IH, Hle.
    + apply IH, Hle.
    + intros (H1 & H2). split; [lia | assumption].
    + intros (H1 & H2). split; [lia | assumption].
    + apply IH, Hle.
Qed.

(** After an operation the rest of the run is still chronological from
    [t], and a recording happens at or after [t]. *)
Lemma chronological_op t op rest :
  chronological t (EvOp op :: rest) ->
  chronological t rest
  /\ forall ct r t1 t2, op = OpCta ct r t1 t2 -> t <= t1 /\ t1 <= t2.
Proof.
  destruct op; simpl.
  - intros H. split; [assumption | discriminate].
  - intros H. split; [assumption | discriminate].
  - intros (H1 & H2 & H3). split.
    + apply (chronological_weaken rest t now_last); [lia | assumption].
    + intros ct r t1 t2 [= _ _ <- <-]. lia.
  - intros (H1 & H2). split.
    + apply (chronological_weaken rest t now); [lia | assumption].
    + discriminate.
  - intros H. split; [assumption | discriminate].
Qed.

(** Once two attempts are recorded at or after [a], every later grant is
    an hour or more after [a]. *)
Lemma granted_after_two self a events : forall memory t,
  chronological t events -> a <= t ->
  (2 <= recorded_since a memory)%nat ->
  Forall (fun g => hours 1 <= g - a) (granted self memory events).
Proof.
  induction events as [|ev rest IH]; intros memory t Hch Hat Hrec; simpl; [constructor|].
  destruct ev as [now r t1 t2|op].
  - simpl in Hch. destruct Hch as (H1 & H2 & H3 & Hch).
    destruct (should_attempt_cta memory now) as [[|] [kind|]] eqn:Hgate;
      try (eapply IH with (t := t2); eauto; lia).
    constructor.
    + eapply gate_rate_cap; eauto.
    + eapply IH with (t := t2); [eassumption | lia |].
      etransitivity; [exact Hrec|].
      eapply recorded_since_app,
        (proj1 (record_cta_attempt_cta memory kind r t1 t2)).
  - apply chronological_op in Hch as (Hch & _).
    destruct (step self memory op) as [memory'|] eqn:Hstep; [|constructor].
    eapply IH; [eassumption | assumption |].
    etransitivity; [exact Hrec|]. eapply step_recorded_since, Hstep.
Qed.

(** Once one attempt is recorded at or after [a], every grant but the
    next one is an hour or more after [a]. *)
Lemma granted_after_one self a events : forall memory t,
  chronological t events -> a <= t ->
  (1 <= recorded_since a memory)%nat ->
  match granted self memory events with
  | [] => True
  | _ :: later => Forall (fun g => hours 1 <= g - a) later
  end.
Proof.
  induction events as [|ev rest IH]; intros memory t Hch Hat Hrec; simpl; [exact I|].
  destruct ev as [now r t1 t2|op].
  - simpl in Hch. destruct Hch as (H1 & H2 & H3 & Hch).
    destruct (should_attempt_cta memory now) as [[|] [kind|]] eqn:Hgate;
      try (eapply IH with (t := t2); eauto; lia).
    destruct (record_cta_attempt_cta memory kind r t1 t2) as [Happ _].
    eapply granted_after_two with (t := t2); [eassumption | lia |].
    rewrite (recorded_since_new a memory _ t1 _ _ Happ); lia.
  - apply chronological_op in Hch as (Hch & _).
    destruct (step self memory op) as [memory'|] eqn:Hstep; [|exact I].
    eapply IH; [eassumption | assumption |].
    etransitivity; [exact Hrec|]. eapply step_recorded_since, Hstep.
Qed.

(** While the last attempt is at or after [a], every grant is 5 minutes
    or more after [a]. *)
Lemma granted_after_last self a events : forall memory t last,
  chronological t events -> a <= t ->
  last_cta_attempt memory = Some last -> a <= last ->
  Forall (fun g => minutes 5 <= g - a) (granted self memory events).
Proof.
  induction events as [|ev rest IH]; intros memory t last Hch Hat Hlast Hal; simpl;
    [constructor|].
  destruct ev as [now r t1 t2|op].
  - simpl in Hch. destruct Hch as (H1 & H2 & H3 & Hch).
    destruct (should_attempt_cta memory now) as [[|] [kind|]] eqn:Hgate;
      try (eapply IH with (t := t2); eauto; lia).
    pose proof (gate_cooldown _ _ _ _ Hlast Hgate) as Hcool.
    constructor; [lia|].
    destruct (record_cta_attempt_cta memory kind r t1 t2) as [_ Hnew].
    eapply IH with (t := t2); [eassumption | lia | exact Hnew | lia].
  - apply chronological_op in Hch as (Hch & Htimes).
    destruct (step self memory op) as [memory'|] eqn:Hstep; [|constructor].
    destruct (step_cta _ _ _ _ Hstep)
      as [(_ & Hsame & _)|(ct & r & t1 & t2 & Hop & _ & Hnew)].
    + eapply IH; [eassumption | assumption | | exact Hal]. congruence.
    + destruct (Htimes _ _ _ _ Hop).
      eapply IH; [eassumption | assumption | exact Hnew | lia].
Qed.

Lemma granted_spaced self events : forall memory t,
  chronological t events -> spaced (granted self memory events).
Proof.
  induction events as [|ev rest IH]; intros memory t Hch; simpl; [exact I|].
  destruct ev as [now r t1 t2|op].
  - simpl in Hch. destruct Hch as (H1 & H2 & H3 & Hch).
    destruct (should_attempt_cta memory now) as [[|] [kind|]] eqn:Hgate;
      try (eapply IH; eassumption).
    destruct (record_cta_attempt_cta memory kind r t1 t2) as [Happ Hnew].
    simpl. split; [|split].
    + eapply granted_after_last with (t := t2); [eassumption | lia | exact Hnew | lia].
    + eapply granted_after_one with (t := t2); [eassumption | lia |].
      rewrite (recorded_since_new now memory _ t1 _ _ Happ); lia.
    + eapply IH; eassumption.
  - apply chronological_op in Hch as (Hch & _).
    destruct (step self memory op) as [memory'|] eqn:Hstep; [|exact I].
    eapply IH; eassumption.
Qed.

Lemma spaced_five_minutes grants : spaced grants ->
  forall i j gi gj, (i < j)%nat ->
    grants !! i = Some gi -> grants !! j = Some gj -> minutes 5 <= gj - gi.
Proof.
  induction grants as [|g rest IH]; intros Hsp i j gi gj Hij Hi Hj; [discriminate|].
  destruct Hsp as (H5 & _ & Hrest).
  destruct i as [|i]; destruct j as [|j]; try lia; simpl in Hi, Hj.
  - injection Hi as <-.
    rewrite Forall_forall in H5. apply H5.
    eapply list_elem_of_lookup_2, Hj.
  - eapply IH; [exact Hrest | | exact Hi | exact Hj]. lia.
Qed.

Lemma spaced_one_hour grants : spaced grants ->
  forall i k gi gk, (i + 2 <= k)%nat ->
    grants !! i = Some gi -> grants !! k = Some gk -> hours 1 <= gk - gi.
Proof.
  induction grants as [|g rest IH]; intros Hsp i k gi gk Hik Hi Hk; [discriminate|].
  destruct Hsp as (_ & H60 & Hrest).
  destruct i as [|i]; simpl in Hi.
  - injection Hi as <-.
    destruct k as [|[|k]]; try lia. simpl in Hk.
    destruct rest as [|g1 rest2]; [discriminate|]. simpl in Hk.
    rewrite Forall_forall in H60. apply H60.
    eapply list_elem_of_lookup_2, Hk.
  - destruct k as [|k]; [lia|]. simpl in Hk.
    eapply IH; [exact Hrest | | exact Hi | exact Hk]. lia.
Qed.

(** C6. In a run in which the clock does not go backwards and every
    attempt the gate grants is recorded with [record_cta_attempt], any
    two instants at which the gate granted an attempt are 5 minutes or
    more apart, and a granted instant and the second one after it are an
    hour or more apart: no three grants fall within an hour. *)
Theorem cta_gate_rate_limits self memory events t :
  chronological t events ->
  let grants := granted self memory events in
  (forall i j gi gj, (i < j)%nat ->
     grants !! i = Some gi -> grants !! j = Some gj -> minutes 5 <= gj - gi)
  /\ (forall i k gi gk, (i + 2 <= k)%nat ->
       grants !! i = Some gi -> grants !! k = Some gk -> hours 1 <= gk - gi).
Proof.
  intros Hch grants.
  pose proof (granted_spaced self events memory t Hch) as Hsp.
  split; [now apply spaced_five_minutes | now apply spaced_one_hour].
Qed.

Lemma cta_gate_rate_limits_witness :
  chronological 0 five_queries
  /\ granted app_manager keen_buyer five_queries = [minutes 0; minutes 6; minutes 61]
  /\ (forall i j gi gj, (i < j)%nat ->
       granted app_manager keen_buyer five_queries !! i = Some gi ->
       granted app_manager keen_buyer five_queries !! j = Some gj ->
       minutes 5 <= gj - gi).
Proof.
  assert (H : chronological 0 five_queries) by (vm_compute; intuition discriminate).
  split; [exact H|]. split; [vm_compute; reflexivity|].
  exact (proj1 (cta_gate_rate_limits app_manager keen_buyer five_queries 0 H)).
Defined.

(** ** Binary64 rounding: magnitudes

    The facts about [SpecFloat] that the engagement score needs: rounding
    a positive mantissa in the normal range does not lower its binary
    order of magnitude, so a product or a quotient that is 2 or more is
    above 1 after rounding. *)

Lemma digits2_size p : digits2_pos p = Pos.size p.
Proof. induction p; simpl; congruence. Qed.

Lemma digits2_log2 p : Zpos (digits2_pos p) = Z.log2 (Zpos p) + 1.
Proof. rewrite digits2_size. destruct p; simpl; lia. Qed.

Lemma shr_1_m mrs : 0 <= shr_m mrs -> shr_m (shr_1 mrs) = Z.div2 (shr_m mrs).
Proof.
  destruct mrs as [m r s]. simpl. intros Hm.
  destruct m as [|[p|p|]|p]; simpl; try reflexivity; lia.
Qed.

Lemma iter_shr_m p : forall mrs, 0 <= shr_m mrs ->
  shr_m (SpecFloat.iter_pos shr_1 p mrs) = Z.shiftr (shr_m mrs) (Zpos p).
Proof.
  induction p as [p IH|p IH|]; intros mrs Hm; simpl SpecFloat.iter_pos.
  - assert (H1 : 0 <= shr_m (shr_1 mrs)).
    { rewrite shr_1_m by assumption. now apply Z.div2_nonneg. }
    assert (H2 : 0 <= shr_m (SpecFloat.iter_pos shr_1 p (shr_1 mrs))).
    { rewrite IH by assumption. now apply Z.shiftr_nonneg. }
    rewrite IH, IH, shr_1_m by assumption.
    rewrite Z.div2_spec, !Z.shiftr_shiftr by lia. f_equal. lia.
  - assert (H2 : 0 <= shr_m (SpecFloat.iter_pos shr_1 p mrs)).
    { rewrite IH by assumption. now apply Z.shiftr_nonneg. }
    rewrite IH, IH by assumption.
    rewrite !Z.shiftr_shiftr by lia. f_equal. lia.
  - rewrite shr_1_m by assumption. apply Z.div2_spec.
Qed.

Lemma shr_record_of_loc_m m l : shr_m (shr_record_of_loc m l) = m.
Proof. destruct l as [|[| |]]; reflexivity. Qed.

(** Shifting to the canonical exponent keeps the mantissa positive and
    the order of magnitude [Z.log2 m + e]. *)
Lemma shr_fexp_spec m e l mrs e' :
  shr_fexp 53 1024 m e l = (mrs, e') ->
  0 < m -> -1021 <= Z.log2 m + e ->
  0 < shr_m mrs
  /\ Z.log2 (shr_m mrs) + e' = Z.log2 m + e
  /\ Z.log2 m + e - 52 <= e'.
Proof.
  unfold shr_fexp, shr, fexp, emin. intros Hshr Hm Hrange.
  destruct m as [|p|p]; try lia.
  cbn [Zdigits2] in Hshr. rewrite digits2_log2 in Hshr.
  set (L := Z.log2 (Zpos p)) in *.
  assert (HL : 0 <= L) by apply Z.log2_nonneg.
  replace (Z.max (L + 1 + e - 53) (3 - 1024 - 53) - e) with (L - 52) in Hshr by lia.
  destruct (L - 52) as [|n|n] eqn:Hn.
  - injection Hshr as <- <-. rewrite shr_record_of_loc_m. fold L. lia.
  - injection Hshr as <- <-.
    rewrite iter_shr_m by (rewrite shr_record_of_loc_m; lia).
    rewrite shr_record_of_loc_m.
    assert (Hlog : Z.log2 (Z.shiftr (Zpos p) (Zpos n)) = 52).
    { rewrite Z.log2_shiftr by lia. fold L. lia. }
    rewrite Hlog. split; [|lia].
    rewrite Z.shiftr_div_pow2 by lia.
    apply Z.div_str_pos. split; [apply Z.pow_pos_nonneg; lia|].
    transitivity (2 ^ L).
    + apply Z.pow_le_mono_r; lia.
    + apply Z.log2_spec. lia.
  - injection Hshr as <- <-. rewrite shr_record_of_loc_m. fold L. lia.
Qed.

Lemma round_nearest_even_bounds m l :
  m <= round_nearest_even m l <= m + 1.
Proof.
  unfold round_nearest_even. destruct l as [|[| |]]; try lia.
  destruct (Z.even m); lia.
Qed.

Lemma round_aux_lb s mx ex lx :
  0 < mx -> -1021 <= Z.log2 mx + ex ->
  match binary_round_aux 53 1024 s mx ex lx with
  | S754_infinity s' => s' = s
  | S754_finite s' m e =>
      s' = s /\ Z.log2 mx + ex - 52 <= e /\ Z.log2 mx + ex <= Z.log2 (Zpos m) + e
  | _ => False
  end.
Proof.
  intros Hm Hrange. unfold binary_round_aux.
  destruct (shr_fexp 53 1024 mx ex lx) as [mrs1 e1] eqn:H1.
  destruct (shr_fexp_spec _ _ _ _ _ H1 Hm Hrange) as (Hm1 & Hl1 & He1).
  pose proof (round_nearest_even_bounds (shr_m mrs1) (loc_of_shr_record mrs1)) as Hr.
  set (m2 := round_nearest_even (shr_m mrs1) (loc_of_shr_record mrs1)) in *.
  assert (Hlog2 : Z.log2 (shr_m mrs1) <= Z.log2 m2) by (apply Z.log2_le_mono; lia).
  destruct (shr_fexp 53 1024 m2 e1 loc_Exact) as [mrs2 e2] eqn:H2.
  destruct (shr_fexp_spec _ _ _ _ _ H2) as (Hm3 & Hl3 & He3); [lia | lia |].
  destruct (shr_m mrs2) as [|m3|m3]; try lia.
  destruct (e2 <=? 1024 - 53); [|reflexivity].
  split; [reflexivity|]. lia.
Qed.

Lemma pos_iter_xO p k : Zpos (Pos.iter xO p k) = Zpos p * 2 ^ Zpos k.
Proof.
  revert p. induction k using Pos.peano_ind; intros p.
  - simpl. lia.
  - rewrite Pos.iter_succ, Pos2Z.inj_succ, Z.pow_succ_r by lia.
    rewrite Pos2Z.inj_xO, IHk. lia.
Qed.

(** [float(n)] of a positive [int] is not below the power of 2 under
    [n]. *)
Lemma of_Z_lb p :
  match Float64.of_Z (Zpos p) with
  | S754_infinity s' => s' = false
  | S754_finite s' m e => s' = false /\ Z.log2 (Zpos p) <= Z.log2 (Zpos m) + e
  | _ => False
  end.
Proof.
  unfold Float64.of_Z, Float64.prec, Float64.emax.
  unfold binary_normalize, binary_round, shl_align, fexp, emin.
  rewrite digits2_log2.
  pose proof (Z.log2_nonneg (Zpos p)) as HL.
  set (L := Z.log2 (Zpos p)) in *.
  replace (Z.max (L + 1 + 0 - 53) (3 - 1024 - 53) - 0) with (L - 52) by lia.
  destruct (L - 52) as [|d|d] eqn:Hd.
  - assert (H := round_aux_lb false (Zpos p) 0 loc_Exact ltac:(lia) ltac:(fold L; lia)).
    fold L in H.
    destruct (binary_round_aux 53 1024 false (Zpos p) 0 loc_Exact); try tauto.
    split; [tauto | lia].
  - assert (H := round_aux_lb false (Zpos p) 0 loc_Exact ltac:(lia) ltac:(fold L; lia)).
    fold L in H.
    destruct (binary_round_aux 53 1024 false (Zpos p) 0 loc_Exact); try tauto.
    split; [tauto | lia].
  - replace (Z.max (L + 1 + 0 - 53) (3 - 1024 - 53)) with (L - 52) by lia.
    assert (Hlog : Z.log2 (Zpos (Pos.iter xO p d)) = Zpos d + L).
    { rewrite pos_iter_xO. apply Z.log2_mul_pow2; lia. }
    assert (H := round_aux_lb false (Zpos (Pos.iter xO p d)) (L - 52) loc_Exact
                   ltac:(lia) ltac:(rewrite Hlog; lia)).
    rewrite Hlog in H.
    destruct (binary_round_aux 53 1024 false (Zpos (Pos.iter xO p d)) (L - 52) loc_Exact);
      try tauto.
    split; [tauto | lia].
Qed.

Lemma one_lt_of_exponent r :
  match r with
  | S754_infinity s => s = false
  | S754_finite s m e => s = false /\ -52 < e
  | _ => False
  end ->
  SFltb Float64.one r = true.
Proof.
  change Float64.one with (S754_finite false 4503599627370496 (-52)).
  destruct r as [| s | | s m e]; try tauto.
  - intros ->. reflexivity.
  - intros [-> He]. unfold SFltb, SFcompare. simpl.
    destruct e as [|e|e]; try reflexivity; try lia.
    assert (Hc : (52 ?= e)%positive = Gt) by (apply Pos.compare_gt_iff; lia).
    simpl. rewrite Hc. reflexivity.
Qed.

Lemma log2_ge_of_le a k : 0 <= k -> 2 ^ k <= a -> k <= Z.log2 a.
Proof.
  intros Hk Ha. rewrite <- (Z.log2_pow2 k Hk). now apply Z.log2_le_mono.
Qed.

(** [q * 0.5 > 1] from [q = 4] on. *)
Lemma mul_half_gt_one p :
  4 <= Zpos p ->
  SFltb Float64.one (Float64.mul (Float64.of_Z (Zpos p)) Float64.half) = true.
Proof.
  intros Hp. apply one_lt_of_exponent.
  assert (HL : 2 <= Z.log2 (Zpos p)) by (apply log2_ge_of_le; lia).
  pose proof (of_Z_lb p) as Hof.
  unfold Float64.mul, Float64.prec, Float64.emax.
  destruct (Float64.of_Z (Zpos p)) as [| s | | s m e]; try tauto.
  - subst s. reflexivity.
  - destruct Hof as [-> Hme]. unfold Float64.half, SFmul. cbn [xorb].
    assert (Hlog : Z.log2 (Zpos (m * 4503599627370496)) = 52 + Z.log2 (Zpos m)).
    { rewrite Pos2Z.inj_mul. change (Zpos 4503599627370496) with (2 ^ 52).
      apply Z.log2_mul_pow2; lia. }
    assert (H := round_aux_lb false (Zpos (m * 4503599627370496)) (e + -53) loc_Exact
                   ltac:(lia) ltac:(rewrite Hlog; lia)).
    rewrite Hlog in H.
    destruct (binary_round_aux 53 1024 false _ (e + -53) loc_Exact); try tauto.
    split; [tauto | lia].
Qed.

(** [n / 20 > 1] from [n = 64] on. *)
Lemma div_20_gt_one p :
  64 <= Zpos p ->
  SFltb Float64.one (Float64.div (Float64.of_Z (Zpos p)) (Float64.of_Z 20)) = true.
Proof.
  intros Hp. apply one_lt_of_exponent.
  assert (HL : 6 <= Z.log2 (Zpos p)) by (apply log2_ge_of_le; lia).
  pose proof (of_Z_lb p) as Hof.
  change (Float64.of_Z 20) with (S754_finite false 5629499534213120 (-48)).
  unfold Float64.div, Float64.prec, Float64.emax.
  destruct (Float64.of_Z (Zpos p)) as [| s | | s m e]; try tauto.
  - subst s. reflexivity.
  - destruct Hof as [-> Hme]. unfold SFdiv, SFdiv_core_binary, fexp, emin.
    cbn [xorb Zdigits2]. rewrite digits2_log2.
    change (Zpos (digits2_pos 5629499534213120)) with 53.
    pose proof (Z.log2_nonneg (Zpos m)) as Hm0.
    set (lm := Z.log2 (Zpos m)) in *.
    replace (Z.min (Z.max (lm + 1 + e - (53 + -48) - 53) (3 - 1024 - 53)) (e - -48))
      with (Z.min (lm + e - 57) (e + 48)) by lia.
    set (e' := Z.min (lm + e - 57) (e + 48)).
    set (s := e - -48 - e').
    assert (Hs : 105 - lm <= s) by (unfold s, e'; lia).
    set (m' := match s with
               | 0 => Zpos m
               | Zpos _ => Z.shiftl (Zpos m) s
               | Zneg _ => 0
               end).
    assert (Hm' : m' = Zpos m * 2 ^ s).
    { unfold m'. destruct s as [|sp|sp] eqn:Hsp; try lia.
      rewrite Z.shiftl_mul_pow2; lia. }
    destruct (Z.div_eucl m' 5629499534213120) as [q r] eqn:Hdiv.
    assert (Hq : q = m' / 5629499534213120) by (unfold Z.div; now rewrite Hdiv).
    assert (Hlow : 2 ^ (lm + s - 53) <= q).
    { rewrite Hq. apply Z.div_le_lower_bound; [lia|].
      transitivity (2 ^ 53 * 2 ^ (lm + s - 53)).
      - apply Z.mul_le_mono_nonneg_r; [apply Z.pow_nonneg; lia | lia].
      - rewrite <- Z.pow_add_r by lia.
        replace (53 + (lm + s - 53)) with (lm + s) by lia.
        rewrite Hm', Z.pow_add_r by lia.
        apply Z.mul_le_mono_nonneg_r; [apply Z.pow_nonneg; lia|].
        apply Z.log2_spec. lia. }
    assert (Hqpos : 0 < q).
    { eapply Z.lt_le_trans; [|exact Hlow]. apply Z.pow_pos_nonneg; lia. }
    assert (Hlogq : lm + s - 53 <= Z.log2 q) by (apply log2_ge_of_le; lia).
    assert (Hsum : lm + e - 5 <= Z.log2 q + e') by (unfold s in *; lia).
    assert (H := round_aux_lb false q e' (new_location 5629499534213120 r)
                   Hqpos ltac:(lia)).
    destruct (binary_round_aux 53 1024 false q e' _); try tauto.
    split; [tauto | lia].
Qed.

(** ** The engagement level *)

Lemma count_char_nonneg c s : 0 <= Text.count_char c s.
Proof. induction s as [|d t IH]; simpl; [lia|]. destruct (Ascii.eqb c d); lia. Qed.

Lemma count_words_nonneg s : forall in_word, 0 <= Text.count_words in_word s.
Proof.
  induction s as [|c t IH]; intros in_word; simpl; [lia|].
  destruct (Text.is_space c); [apply IH|].
  specialize (IH true). destruct in_word; lia.
Qed.

Lemma specific_terms_range um : 0 <= specific_terms um <= 5.
Proof.
  unfold specific_terms.
  match goal with
  | |- context [List.filter ?f ?l] =>
      pose proof (List.filter_length_le f l) as H; simpl length in H at 2
  end.
  lia.
Qed.

Lemma upto_spec k x : 0 <= x <= Z.of_nat k -> In x (upto k).
Proof.
  intros Hx. unfold upto. apply in_map_iff. exists (Z.to_nat x).
  split; [lia|]. apply in_seq. lia.
Qed.

Lemma question_signal_capped q :
  2 <= q ->
  Float64.py_min (Float64.mul (Float64.of_Z q) Float64.half) Float64.one = Float64.one.
Proof.
  intros Hq.
  destruct (Z.eq_dec q 2) as [->|H2]; [vm_compute; reflexivity|].
  destruct (Z.eq_dec q 3) as [->|H3]; [vm_compute; reflexivity|].
  destruct q as [|p|p]; try lia.
  unfold Float64.py_min. rewrite mul_half_gt_one by lia. reflexivity.
Qed.

Lemma small_quotients_are_capped : small_quotients_capped = true.
Proof. vm_compute. reflexivity. Qed.

Lemma word_signal_capped n :
  20 <= n ->
  Float64.py_min (Float64.div (Float64.of_Z n) (Float64.of_Z 20)) Float64.one
  = Float64.one.
Proof.
  intros Hn. destruct (Z_lt_le_dec n 64) as [Hsmall|Hbig].
  - pose proof small_quotients_are_capped as Hall.
    unfold small_quotients_capped in Hall. rewrite forallb_forall in Hall.
    eapply bool_decide_eq_true_1, Hall.
    apply in_map_iff. exists (n - 20). split; [lia | apply upto_spec; lia].
  - destruct n as [|p|p]; try lia.
    unfold Float64.py_min. rewrite div_20_gt_one by lia. reflexivity.
Qed.

(** The float score depends on the indicators only through their caps. *)
Lemma score_of_capped q t n :
  0 <= q -> 0 <= n -> score_of q t n = score_of (Z.min q 2) t (Z.min n 20).
Proof.
  intros Hq Hn. unfold score_of.
  assert (Hqs : Float64.py_min (Float64.mul (Float64.of_Z q) Float64.half) Float64.one
                = Float64.py_min (Float64.mul (Float64.of_Z (Z.min q 2)) Float64.half)
                    Float64.one).
  { destruct (Z_lt_le_dec q 2).
    - now rewrite Z.min_l by lia.
    - rewrite Z.min_r by lia. rewrite !question_signal_capped by lia. reflexivity. }
  assert (Hns : Float64.py_min (Float64.div (Float64.of_Z n) (Float64.of_Z 20))
                  Float64.one
                = Float64.py_min (Float64.div (Float64.of_Z (Z.min n 20))
                    (Float64.of_Z 20)) Float64.one).
  { destruct (Z_lt_le_dec n 20).
    - now rewrite Z.min_l by lia.
    - rewrite Z.min_r by lia. rewrite !word_signal_capped by lia. reflexivity. }
  cbv zeta. now rewrite Hqs, Hns.
Qed.

Lemma exact_question_capped q :
  0 <= q -> (Qmin (inject_Z q * (1 # 2)) 1 == Qmin (inject_Z (Z.min q 2) * (1 # 2)) 1)%Q.
Proof.
  intros Hq. destruct (Z_lt_le_dec q 2).
  - rewrite Z.min_l by lia. reflexivity.
  - rewrite Z.min_r by lia. rewrite !Q.min_r; [reflexivity | |].
    + unfold Qle. simpl. lia.
    + unfold Qle. simpl. lia.
Qed.

Lemma exact_words_capped n :
  0 <= n -> (Qmin (inject_Z n / 20) 1 == Qmin (inject_Z (Z.min n 20) / 20) 1)%Q.
Proof.
  intros Hn. destruct (Z_lt_le_dec n 20).
  - rewrite Z.min_l by lia. reflexivity.
  - rewrite Z.min_r by lia. rewrite !Q.min_r; [reflexivity | |].
    + unfold Qle, Qdiv, Qmult, Qinv. simpl. lia.
    + unfold Qle, Qdiv, Qmult, Qinv. simpl. lia.
Qed.

Lemma exact_score_capped q t n :
  0 <= q -> 0 <= n -> (exact_score q t n == exact_score (Z.min q 2) t (Z.min n 20))%Q.
Proof.
  intros Hq Hn. unfold exact_score.
  rewrite (exact_question_capped q Hq), (exact_words_capped n Hn). reflexivity.
Qed.

Lemma capped_signal_range x : (0 <= x)%Q -> (0 <= Qmin x 1 <= 1)%Q.
Proof.
  intros Hx. split; [|apply Q.le_min_r].
  apply Q.min_glb; [assumption | discriminate].
Qed.

Lemma exact_score_range q t n :
  0 <= q -> 0 <= t -> 0 <= n -> (0 <= exact_score q t n <= 3)%Q.
Proof.
  intros Hq Ht Hn. unfold exact_score.
  assert (H1 : (0 <= inject_Z q * (1 # 2))%Q) by (unfold Qle; simpl; lia).
  assert (H2 : (0 <= inject_Z t * (3 # 10))%Q) by (unfold Qle; simpl; lia).
  assert (H3 : (0 <= inject_Z n / 20)%Q)
    by (unfold Qle, Qdiv, Qmult, Qinv; simpl; lia).
  apply capped_signal_range in H1, H2, H3.
  destruct H1 as [H1a H1b], H2 as [H2a H2b], H3 as [H3a H3b].
  split.
  - change 0%Q with (0 + 0 + 0)%Q. repeat apply Qplus_le_compat; assumption.
  - change 3%Q with (1 + 1 + 1)%Q. repeat apply Qplus_le_compat; assumption.
Qed.

Lemma levels_do_agree : levels_agree = true.
Proof. vm_compute. reflexivity. Qed.

Lemma level_of_spec current_level q t n :
  1 <= current_level <= 5 -> 0 <= q -> 0 <= t <= 5 -> 0 <= n ->
  level_of current_level q t n = spec_level_of current_level q t n.
Proof.
  intros Hc Hq Ht Hn.
  unfold level_of, spec_level_of.
  rewrite (score_of_capped q t n Hq Hn).
  rewrite (Qfloor_comp _ _ (exact_score_capped q t n Hq Hn)).
  fold (level_of current_level (Z.min q 2) t (Z.min n 20)).
  fold (spec_level_of current_level (Z.min q 2) t (Z.min n 20)).
  pose proof levels_do_agree as Hall. unfold levels_agree in Hall.
  rewrite forallb_forall in Hall.
  specialize (Hall (Z.min q 2) ltac:(apply upto_spec; lia)).
  rewrite forallb_forall in Hall.
  specialize (Hall t ltac:(apply upto_spec; lia)).
  rewrite forallb_forall in Hall.
  specialize (Hall (Z.min n 20) ltac:(apply upto_spec; lia)).
  rewrite forallb_forall in Hall.
  apply Z.eqb_eq, Hall. simpl. lia.
Qed.

(** C5. For a record whose engagement level is within 1 to 5,
    [_update_engagement_level] computes what the specification says: the
    three signals (question marks at 0.5 each, the terms size, cost,
    feature, timeline, process at 0.3 each, the word count over 20), each
    capped at 1, add up to a score within 0 and 3; the new level is the
    current level plus the truncated score, clamped to
    [[current_level, 5]].  The binary64 computation of the code gives
    that level on every utterance.  So the level never decreases and
    stays within 1 and 5. *)
Theorem engagement_level_follows_score memory um :
  1 <= engagement_level memory <= 5 ->
  let current_level := engagement_level memory in
  let new_level := engagement_level (_update_engagement_level memory um) in
  (0 <= spec_score um <= 3)%Q
  /\ new_level
     = Z.min 5 (Z.max current_level (current_level + Qfloor (spec_score um)))
  /\ current_level <= new_level <= 5
  /\ 1 <= new_level.
Proof.
  intros Hc current_level new_level.
  pose proof (count_char_nonneg "?" um) as Hq.
  pose proof (specific_terms_range um) as Ht.
  pose proof (count_words_nonneg um false) as Hn.
  assert (Hnew : new_level = spec_level current_level um).
  { unfold new_level, _update_engagement_level. simpl.
    apply (level_of_spec (engagement_level memory) (question_count um)
             (specific_terms um) (message_length um)); auto. }
  split; [|split].
  - apply exact_score_range; [exact Hq | lia | exact Hn].
  - exact Hnew.
  - rewrite Hnew. unfold spec_level, spec_level_of. fold current_level in Hc. lia.
Qed.

Lemma engagement_level_follows_score_witness :
  1 <= engagement_level fresh <= 5
  /\ engagement_level
       (_update_engagement_level fresh "What does a 12x24 cost? And the timeline?")
     = Z.min 5 (Z.max 1
         (1 + Qfloor (spec_score "What does a 12x24 cost? And the timeline?")))
  /\ engagement_level
       (_update_engagement_level fresh "What does a 12x24 cost? And the timeline?")
     = 3.
Proof.
  assert (H : 1 <= engagement_level fresh <= 5) by (simpl; lia).
  split; [exact H|]. split.
  - exact (proj1 (proj2 (engagement_level_follows_score fresh
                   "What does a 12x24 cost? And the timeline?" H))).
  - vm_compute. reflexivity.
Defined.

(** In binary64 the order of the two steps matters: for one word holding
    three terms and one more word the float score is just below 1 and
    truncates to 0, while the code, which truncates after adding the
    level, moves from 1 to 2, as the exact score 0.9 + 0.1 = 1 says. *)
Lemma level_is_added_before_truncation :
  Float64.to_Z (engagement_score "sizecostfeature ok") = 0
  /\ Qfloor (spec_score "sizecostfeature ok") = 1
  /\ engagement_level (_update_engagement_level fresh "sizecostfeature ok") = 2.
Proof. repeat split; vm_compute; reflexivity. Qed.

(** * Further properties of the code *)

(** ** The memory store: upsert and sweep *)

(** X1. A record saved under a non-empty id and loaded again within the
    expiry window comes back as it was saved, with [last_updated] set to
    the [datetime.now()] of the save and [created_at] that of the row it
    replaced; for a first row [created_at] is the database's own
    [CURRENT_TIMESTAMP], a reading of another clock. *)
Theorem save_then_load self db generated_id now_save current_timestamp now_load
    memory :
  user_id memory <> "" ->
  now_load - now_save <= days (expiry_days self) ->
  load_memory self (save_memory db true now_save current_timestamp memory) true
    generated_id now_load (Some (user_id memory))
  = set_stamps
      (match db !! user_id memory with
       | Some row => created_at row
       | None => current_timestamp
       end)
      now_save memory.
Proof.
  intros Hid Hfresh. unfold load_memory, save_memory.
  apply String.eqb_neq in Hid. rewrite Hid, lookup_insert_eq. simpl.
  apply Z.ltb_ge in Hfresh. now rewrite Hfresh.
Qed.

Lemma save_then_load_witness :
  user_id stored_row <> ""
  /\ days 1 - 0 <= days (expiry_days app_manager)
  /\ load_memory app_manager (save_memory ∅ true 0 3 stored_row) true "gen" (days 1)
       (Some (user_id stored_row))
     = set_stamps 3 0 stored_row.
Proof.
  assert (H1 : user_id stored_row <> "") by discriminate.
  assert (H2 : days 1 - 0 <= days (expiry_days app_manager))
    by (vm_compute; discriminate).
  split; [exact H1|]. split; [exact H2|].
  exact (save_then_load app_manager ∅ "gen" 0 3 (days 1) stored_row H1 H2).
Defined.

(** X2. A save touches the row of the saved record only: every other id
    keeps its row, so a load of another id gives what it gave before. *)
Theorem save_leaves_other_users self db ok now current_timestamp memory generated_id
    now_load other :
  other <> "" -> other <> user_id memory ->
  save_memory db ok now current_timestamp memory !! other = db !! other
  /\ load_memory self (save_memory db ok now current_timestamp memory) true
       generated_id now_load (Some other)
     = load_memory self db true generated_id now_load (Some other).
Proof.
  intros Hne Hother.
  assert (Hlook : save_memory db ok now current_timestamp memory !! other
                  = db !! other).
  { unfold save_memory.
    destruct (String.eqb (user_id memory) ""); [reflexivity|].
    destruct ok; [|reflexivity]. now rewrite lookup_insert_ne. }
  split; [exact Hlook|].
  unfold load_memory. apply String.eqb_neq in Hne. now rewrite Hne, Hlook.
Qed.

Lemma save_leaves_other_users_witness :
  "u1" <> "" /\ "u1" <> user_id (default_memory "u2" 7)
  /\ save_memory one_row true 7 7 (default_memory "u2" 7) !! "u1" = one_row !! "u1".
Proof.
  assert (H1 : "u1" <> "") by discriminate.
  assert (H2 : "u1" <> user_id (default_memory "u2" 7)) by discriminate.
  split; [exact H1|]. split; [exact H2|].
  exact (proj1 (save_leaves_other_users app_manager one_row true 7 7
                  (default_memory "u2" 7) "gen" 8 "u1" H1 H2)).
Defined.

Lemma sweep_twice self (db : gmap string Memory) later :
  cleanup_expired_memories self
    (fst (cleanup_expired_memories self db true later)) true later
  = (fst (cleanup_expired_memories self db true later), 0).
Proof.
  unfold cleanup_expired_memories. simpl.
  set (cutoff := later - days (expiry_days self)).
  set (kept := filter (fun row => ¬ expired cutoff row) db).
  assert (Hkept : filter (fun row => ¬ expired cutoff row) kept = kept).
  { apply map_eq. intros k. apply option_eq. intros r.
    unfold kept. rewrite !map_lookup_filter_Some. tauto. }
  assert (Hnone : filter (expired cutoff) kept = ∅).
  { apply map_eq. intros k. rewrite lookup_empty. apply option_eq. intros r.
    unfold kept. rewrite !map_lookup_filter_Some.
    split; [tauto | discriminate]. }
  now rewrite Hkept, Hnone, map_size_empty.
Qed.

(** X3. The sweep is idempotent and invisible to loads: a second sweep at
    the same instant deletes nothing and returns 0, and any load at or
    after the sweep returns the record it would have returned without
    the sweep. *)
Theorem sweep_is_idempotent_and_invisible self db later generated_id now uid :
  later <= now ->
  let swept := fst (cleanup_expired_memories self db true later) in
  cleanup_expired_memories self swept true later = (swept, 0)
  /\ load_memory self swept true generated_id now uid
     = load_memory self db true generated_id now uid.
Proof.
  intros Hlater swept. split; [apply sweep_twice|].
  unfold load_memory.
  set (id := match uid with
             | Some s => if String.eqb s "" then generated_id else s
             | None => generated_id
             end).
  destruct (db !! id) as [row|] eqn:Hrow.
  - destruct (Z_lt_le_dec (last_updated row) (later - days (expiry_days self)))
      as [Hexp|Hkeep].
    + assert (Hgone : swept !! id = None).
      { destruct (swept !! id) as [r|] eqn:Hr; [|reflexivity].
        apply sweep_lookup in Hr as [Hr Hk]. rewrite Hrow in Hr.
        injection Hr as <-. lia. }
      rewrite Hgone.
      assert (Hold : (days (expiry_days self) <? now - last_updated row) = true)
        by (apply Z.ltb_lt; lia).
      now rewrite Hold.
    + assert (Hstay : swept !! id = Some row).
      { apply sweep_lookup. split; [assumption | lia]. }
      now rewrite Hstay.
  - assert (Hgone : swept !! id = None).
    { destruct (swept !! id) as [r|] eqn:Hr; [|reflexivity].
      apply sweep_lookup in Hr as [Hr _]. congruence. }
    now rewrite Hgone.
Qed.

Lemma sweep_is_idempotent_and_invisible_witness :
  days 91 <= days 92
  /\ load_memory app_manager
       (fst (cleanup_expired_memories app_manager one_row true (days 91)))
       true "gen" (days 92) (Some "u1")
     = load_memory app_manager one_row true "gen" (days 92) (Some "u1").
Proof.
  assert (H : days 91 <= days 92) by (vm_compute; discriminate).
  split; [exact H|].
  exact (proj2 (sweep_is_idempotent_and_invisible app_manager one_row (days 91)
                  "gen" (days 92) (Some "u1") H)).
Defined.

(** ** The interaction log *)

Lemma prune_suffix n (l : list Interaction) :
  exists dropped, dropped ++ prune n l = l.
Proof.
  unfold prune. destruct (n <? length l)%nat; [|now exists []].
  destruct n; [now exists []|].
  exists (firstn (length l - S n) l). apply firstn_skipn.
Qed.

Lemma prune_length n (l : list Interaction) :
  (1 <= n)%nat -> (length (prune n l) <= n)%nat.
Proof.
  intros Hn. unfold prune.
  destruct (n <? length l)%nat eqn:Hlen.
  - apply Nat.ltb_lt in Hlen. destruct n; [lia|].
    rewrite length_skipn. lia.
  - apply Nat.ltb_ge in Hlen. lia.
Qed.

Lemma add_interaction_interactions self memory um bot now memory' :
  add_interaction self memory um bot now = Some memory' ->
  interactions memory'
  = prune (max_interactions self)
      (interactions memory ++ [{| i_timestamp := now; i_user := um; i_bot := bot |}]).
Proof.
  unfold add_interaction, _extract_key_facts. simpl.
  destruct (extract_facts _ _); [|discriminate].
  intros [= <-]. simpl. unfold _update_buyer_stage. split_branches.
Qed.

(** X4. After a turn the log holds the new interaction last, is a suffix
    of the old log followed by it (the oldest entries are the ones
    dropped), and for a cap of 1 or more is no longer than the cap,
    whatever its length was before.  With a cap of 0 nothing is dropped:
    the slice [l[-0:]] is the whole list. *)
Theorem add_interaction_keeps_most_recent self memory um bot now memory' :
  add_interaction self memory um bot now = Some memory' ->
  let entry := {| i_timestamp := now; i_user := um; i_bot := bot |} in
  (exists dropped, dropped ++ interactions memory' = interactions memory ++ [entry])
  /\ last (interactions memory') = Some entry
  /\ ((1 <= max_interactions self)%nat ->
      (length (interactions memory') <= max_interactions self)%nat)
  /\ (max_interactions self = 0%nat ->
      interactions memory' = interactions memory ++ [entry]).
Proof.
  intros Hadd entry.
  rewrite (add_interaction_interactions _ _ _ _ _ _ Hadd). fold entry.
  split; [apply prune_suffix|]. split; [|split].
  - unfold prune.
    destruct (max_interactions self <? length (interactions memory ++ [entry]))%nat
      eqn:Hlen; [|apply last_snoc].
    destruct (max_interactions self) as [|n] eqn:Hmax; [apply last_snoc|].
    apply Nat.ltb_lt in Hlen. rewrite length_app in Hlen. simpl in Hlen.
    rewrite skipn_app.
    replace (length (interactions memory ++ [entry]) - S n
             - length (interactions memory))%nat with 0%nat
      by (rewrite length_app; simpl; lia).
    simpl. apply last_snoc.
  - apply prune_length.
  - intros H0. unfold prune. rewrite H0.
    now destruct (0 <? length (interactions memory ++ [entry]))%nat.
Qed.

Lemma add_interaction_keeps_most_recent_witness :
  add_interaction app_manager fresh "What is the price?" "It starts at $65,000." 1
  = Some after_first_question
  /\ (length (interactions after_first_question) <= 15)%nat.
Proof.
  assert (H : add_interaction app_manager fresh "What is the price?"
                "It starts at $65,000." 1
              = Some after_first_question) by (vm_compute; reflexivity).
  split; [exact H|].
  apply (add_interaction_keeps_most_recent _ _ _ _ _ _ H).
  simpl. lia.
Defined.

(** ** The fact extractor: idempotence and what it never writes *)

Ltac uniform_block :=
  repeat match goal with
         | |- context [if ?b then _ else _] => destruct b
         end;
  solve [ exists None; intros; reflexivity
        | eexists (Some _); intros; reflexivity ].

Lemma focus_block_uniform ml :
  exists w, forall kf, focus_block ml kf = apply_write kf ("focus", w).
Proof. unfold focus_block, apply_write. uniform_block. Qed.

Lemma budget_block_uniform um ml :
  exists w, forall kf, budget_block um ml kf = apply_write kf ("budget_conscious", w).
Proof. unfold budget_block, apply_write. cbv zeta. uniform_block. Qed.

Lemma pool_type_block_uniform ml :
  exists w, forall kf, pool_type_block ml kf = apply_write kf ("pool_type", w).
Proof. unfold pool_type_block, apply_write. uniform_block. Qed.

Lemma size_block_uniform um :
  exists w, forall kf, size_block um kf = apply_write kf ("preferred_size", w).
Proof. unfold size_block, apply_write. uniform_block. Qed.

Lemma timeline_block_uniform ml :
  exists w, forall kf, timeline_block ml kf = apply_write kf ("timeline_interest", w).
Proof. unfold timeline_block, apply_write. cbv zeta. uniform_block. Qed.

Lemma space_block_uniform ml :
  exists w, forall kf, space_block ml kf = apply_write kf ("space_concerns", w).
Proof. unfold space_block, apply_write. cbv zeta. uniform_block. Qed.

Lemma apply_writes_other (ws : list (string * option Fact)) : forall kf k,
  k ∉ map fst ws -> apply_writes kf ws !! k = kf !! k.
Proof.
  unfold apply_writes.
  induction ws as [|[k' w] ws IH]; intros kf k Hk; simpl; [reflexivity|].
  simpl in Hk. apply not_elem_of_cons in Hk as [Hne Hk].
  rewrite IH by assumption. unfold apply_write. simpl.
  destruct w; [now rewrite lookup_insert_ne | reflexivity].
Qed.

Lemma apply_writes_written (ws : list (string * option Fact)) : forall kf k v,
  NoDup (map fst ws) -> (k, Some v) ∈ ws -> apply_writes kf ws !! k = Some v.
Proof.
  unfold apply_writes.
  induction ws as [|[k' w] ws IH]; intros kf k v Hnd Hin; simpl.
  - inversion Hin.
  - simpl in Hnd. apply NoDup_cons in Hnd as [Hfresh Hnd].
    apply elem_of_cons in Hin as [[= <- <-]|Hin].
    + fold (apply_writes (apply_write kf (k, Some v)) ws).
      rewrite apply_writes_other by assumption.
      unfold apply_write. simpl. apply lookup_insert_eq.
    + now apply IH.
Qed.

Lemma apply_writes_stable (ws : list (string * option Fact)) : forall kf,
  (forall k v, (k, Some v) ∈ ws -> kf !! k = Some v) ->
  apply_writes kf ws = kf.
Proof.
  unfold apply_writes.
  induction ws as [|[k w] ws IH]; intros kf Hall; simpl; [reflexivity|].
  assert (Hstep : apply_write kf (k, w) = kf).
  { unfold apply_write. simpl. destruct w as [v|]; [|reflexivity].
    apply insert_id, Hall. left. }
  rewrite Hstep. apply IH. intros k' v' Hin. apply Hall. now right.
Qed.

(** Writes under distinct keys, applied twice, give what they give
    applied once. *)
Lemma apply_writes_idempotent (ws : list (string * option Fact)) kf :
  NoDup (map fst ws) ->
  apply_writes (apply_writes kf ws) ws = apply_writes kf ws.
Proof.
  intros Hnd. apply apply_writes_stable.
  intros k v Hin. now apply apply_writes_written.
Qed.

(** The extractor as a list of writes that depends on the record only
    through its features entry. *)
Lemma extract_facts_as_writes um :
  exists w1 w2 w3 w4 w6 w7, forall kf : gmap string Fact,
    extract_facts kf um
    = match feature_loop (Text.lower um)
              (match kf !! "features" with Some v => v | None => FList [] end)
              feature_map with
      | Some features' =>
          Some (apply_writes kf
                  [("focus", w1); ("budget_conscious", w2); ("pool_type", w3);
                   ("preferred_size", w4); ("features", Some features');
                   ("timeline_interest", w6); ("space_concerns", w7)])
      | None => None
      end.
Proof.
  destruct (focus_block_uniform (Text.lower um)) as [w1 H1].
  destruct (budget_block_uniform um (Text.lower um)) as [w2 H2].
  destruct (pool_type_block_uniform (Text.lower um)) as [w3 H3].
  destruct (size_block_uniform um) as [w4 H4].
  destruct (timeline_block_uniform (Text.lower um)) as [w6 H6].
  destruct (space_block_uniform (Text.lower um)) as [w7 H7].
  exists w1, w2, w3, w4, w6, w7. intros kf.
  unfold extract_facts, features_block. cbv zeta.
  rewrite H1, H2, H3, H4.
  assert (Hfeat : apply_write (apply_write (apply_write (apply_write kf ("focus", w1))
                     ("budget_conscious", w2)) ("pool_type", w3))
                     ("preferred_size", w4) !! "features" = kf !! "features").
  { change (apply_writes kf [("focus", w1); ("budget_conscious", w2);
                             ("pool_type", w3); ("preferred_size", w4)]
              !! "features" = kf !! "features").
    apply apply_writes_other. simpl. compute_done. }
  rewrite Hfeat.
  destruct (feature_loop _ _ feature_map) as [features'|]; [|reflexivity].
  rewrite H6, H7. reflexivity.
Qed.

(** After the loop every feature whose keyword occurs is in the list. *)
Lemma feature_loop_covers ml entries : forall l l2,
  feature_loop ml (FList l) entries = Some (FList l2) ->
  (forall x, x ∈ l -> x ∈ l2)
  /\ (forall entry, entry ∈ entries -> Text.any_in (snd entry) ml = true ->
        fst entry ∈ l2).
Proof.
  induction entries as [|entry rest IH]; intros l l2; simpl.
  - intros [= <-]. split; [auto|]. intros e He. inversion He.
  - unfold feature_step.
    destruct (Text.any_in (snd entry) ml) eqn:Hany.
    + destruct (Text.mem (fst entry) l) eqn:Hmem; intros Hloop;
        destruct (IH _ _ Hloop) as [Hsub Hcov].
      * split; [assumption|]. intros e He Hm.
        apply elem_of_cons in He as [->|He]; [|now apply Hcov].
        apply Hsub. now apply mem_true_iff.
      * split.
        -- intros x Hx. apply Hsub. apply elem_of_app. now left.
        -- intros e He Hm.
           apply elem_of_cons in He as [->|He]; [|now apply Hcov].
           apply Hsub. apply elem_of_app. right. now left.
    + intros Hloop. destruct (IH _ _ Hloop) as [Hsub Hcov].
      split; [assumption|]. intros e He Hm.
      apply elem_of_cons in He as [->|He]; [congruence | now apply Hcov].
Qed.

Lemma feature_loop_stable ml entries l :
  (forall entry, entry ∈ entries -> Text.any_in (snd entry) ml = true ->
     fst entry ∈ l) ->
  feature_loop ml (FList l) entries = Some (FList l).
Proof.
  induction entries as [|entry rest IH]; intros Hcov; simpl; [reflexivity|].
  unfold feature_step.
  destruct (Text.any_in (snd entry) ml) eqn:Hany.
  - assert (Hmem : Text.mem (fst entry) l = true).
    { apply mem_true_iff, Hcov; [left | assumption]. }
    rewrite Hmem. apply IH. intros e He. apply Hcov. now right.
  - apply IH. intros e He. apply Hcov. now right.
Qed.

(** On an entry that is not a list a loop that returns changed nothing. *)
Lemma feature_loop_not_list ml entries features features' :
  (forall l, features <> FList l) ->
  feature_loop ml features entries = Some features' -> features' = features.
Proof.
  intros Hnl. induction entries as [|entry rest IH]; simpl.
  - now intros [= <-].
  - unfold feature_step.
    destruct (Text.any_in (snd entry) ml).
    + destruct features as [s|b|l].
      * destruct (Text.contains (fst entry) s); [exact IH | discriminate].
      * discriminate.
      * now destruct (Hnl l).
    + exact IH.
Qed.

Lemma feature_loop_idempotent ml features features' :
  feature_loop ml features feature_map = Some features' ->
  feature_loop ml features' feature_map = Some features'.
Proof.
  intros Hloop. destruct features as [s|b|l].
  - assert (Hnl : forall l, FStr s <> FList l) by discriminate.
    pose proof (feature_loop_not_list _ _ _ _ Hnl Hloop) as ->. exact Hloop.
  - assert (Hnl : forall l, FBool b <> FList l) by discriminate.
    pose proof (feature_loop_not_list _ _ _ _ Hnl Hloop) as ->. exact Hloop.
  - destruct (feature_loop_list ml feature_map l) as (l' & Hl' & _).
    rewrite Hl' in Hloop. injection Hloop as <-.
    apply feature_loop_stable. eapply feature_loop_covers, Hl'.
Qed.

(** X5. The extractor is idempotent: run again on its own result with the
    same utterance, it returns that result unchanged. *)
Theorem extract_facts_idempotent (kf : gmap string Fact) um kf' :
  extract_facts kf um = Some kf' -> extract_facts kf' um = Some kf'.
Proof.
  destruct (extract_facts_as_writes um) as (w1 & w2 & w3 & w4 & w6 & w7 & Hex).
  rewrite !Hex.
  destruct (feature_loop _ _ feature_map) as [features'|] eqn:Hloop; [|discriminate].
  set (ws := [("focus", w1); ("budget_conscious", w2); ("pool_type", w3);
              ("preferred_size", w4); ("features", Some features');
              ("timeline_interest", w6); ("space_concerns", w7)]).
  intros Heq. assert (Hkf : kf' = apply_writes kf ws) by congruence.
  subst kf'. clear Heq.
  assert (Hnd : NoDup (map fst ws)) by (simpl; compute_done).
  assert (Hf : apply_writes kf ws !! "features" = Some features').
  { apply apply_writes_written; [exact Hnd|]. unfold ws.
    do 4 apply list_elem_of_further. apply list_elem_of_here. }
  rewrite Hf, (feature_loop_idempotent _ _ _ Hloop).
  fold ws. now rewrite apply_writes_idempotent.
Qed.

Lemma extract_facts_idempotent_witness :
  extract_facts ∅ "a 12x24 with a bench for my family"
  = Some (key_facts bench_for_family)
  /\ extract_facts (key_facts bench_for_family) "a 12x24 with a bench for my family"
     = Some (key_facts bench_for_family).
Proof.
  assert (H : extract_facts ∅ "a 12x24 with a bench for my family"
              = Some (key_facts bench_for_family)) by (vm_compute; reflexivity).
  split; [exact H|]. exact (extract_facts_idempotent _ _ _ H).
Defined.

Lemma focus_block_never_both ml kf :
  writes "focus" (is_str_in ["relaxation"; "entertaining"; "family"])
    kf (focus_block ml kf).
Proof.
  unfold focus_block, writes, is_str_in, Text.any_in. simpl.
  destruct (Text.contains "relax" ml), (Text.contains "entertain" ml); simpl;
    rewrite ?andb_false_r;
    repeat match goal with
           | |- context [if ?b then _ else _] => destruct b
           end;
    solve [ now left
          | right; eexists; split; [eexists; split; [reflexivity|]|reflexivity];
            compute_done ].
Qed.

Lemma extract_facts_focus_lookup (kf : gmap string Fact) um kf' :
  extract_facts kf um = Some kf' ->
  kf' !! "focus" = focus_block (Text.lower um) kf !! "focus".
Proof.
  unfold extract_facts, features_block. cbv zeta.
  destruct (feature_loop _ _ feature_map) as [features'|]; [|discriminate].
  intros Heq. assert (Hkf : kf' = space_block (Text.lower um)
    (timeline_block (Text.lower um) (<["features" := features']>
      (size_block um (pool_type_block (Text.lower um)
        (budget_block um (Text.lower um) (focus_block (Text.lower um) kf)))))))
    by congruence.
  rewrite Hkf.
  rewrite (writes_other (space_block_writes _ _)),
    (writes_other (timeline_block_writes _ _)) by done.
  rewrite lookup_insert_ne by done.
  rewrite (writes_other (size_block_writes _ _)),
    (writes_other (pool_type_block_writes _ _)),
    (writes_other (budget_block_writes _ _ _)) by done.
  reflexivity.
Qed.

(** X6. The extractor never writes the focus "both": its branch asks for
    "relax" or "entertain" in the utterance, and either word is caught
    by an earlier branch.  After a call the focus is the one before or
    one of relaxation, entertaining, family. *)
Theorem focus_is_never_set_to_both memory um memory' :
  _extract_key_facts memory um = Some memory' ->
  key_facts memory' !! "focus" = key_facts memory !! "focus"
  \/ exists s, s ∈ ["relaxation"; "entertaining"; "family"]
               /\ key_facts memory' !! "focus" = Some (FStr s).
Proof.
  intros Hex. apply extract_key_facts_dict in Hex.
  rewrite (extract_facts_focus_lookup _ _ _ Hex).
  destruct (writes_own (focus_block_never_both (Text.lower um) (key_facts memory)))
    as [->|(v & (s & -> & Hs) & ->)]; eauto.
Qed.

Lemma focus_is_never_set_to_both_witness :
  _extract_key_facts fresh "both relaxing and entertaining"
  = Some relax_and_entertain
  /\ (key_facts relax_and_entertain !! "focus" = key_facts fresh !! "focus"
      \/ exists s, s ∈ ["relaxation"; "entertaining"; "family"]
                   /\ key_facts relax_and_entertain !! "focus" = Some (FStr s)).
Proof.
  assert (H : _extract_key_facts fresh "both relaxing and entertaining"
              = Some relax_and_entertain) by (vm_compute; reflexivity).
  split; [exact H|].
  exact (focus_is_never_set_to_both fresh "both relaxing and entertaining"
           relax_and_entertain H).
Defined.

Lemma prefix_app_l a : forall b s,
  String.prefix (a ++ b)%string s = true -> String.prefix a s = true.
Proof.
  induction a as [|c a IH]; intros b s H; [now destruct s|].
  change (String.prefix (String c (a +:+ b)) s = true) in H.
  destruct s as [|d s]; [discriminate H|]. simpl in *.
  destruct (Ascii.ascii_dec c d); [eapply IH, H | discriminate H].
Qed.

Lemma contains_app_l a b : forall s,
  Text.contains (a ++ b)%string s = true -> Text.contains a s = true.
Proof.
  induction s as [|d s IH].
  - change (String.prefix (a +:+ b) "" || false = true ->
            String.prefix a "" || false = true).
    rewrite !orb_false_r. apply prefix_app_l.
  - change (String.prefix (a +:+ b) (String d s) || Text.contains (a +:+ b) s = true ->
            String.prefix a (String d s) || Text.contains a s = true).
    rewrite !orb_true_iff.
    intros [H|H]; [left; eapply prefix_app_l, H | right; auto].
Qed.

(** X7. After a call of the extractor every feature of the table one of
    whose keywords occurs in the utterance is in the features list.  The
    keyword "led" of the lighting feature occurs inside "ledge": an
    utterance that mentions a ledge records lighting as well as the
    tanning ledge. *)
Theorem matched_features_are_recorded memory um :
  features_is_list (key_facts memory) ->
  exists memory',
    _extract_key_facts memory um = Some memory'
    /\ (forall entry, entry ∈ feature_map ->
          Text.any_in (snd entry) (Text.lower um) = true ->
          fst entry ∈ features_of (key_facts memory'))
    /\ (Text.contains "ledge" (Text.lower um) = true ->
        "tanning ledge" ∈ features_of (key_facts memory')
        /\ "lighting" ∈ features_of (key_facts memory')).
Proof.
  intros Hl.
  destruct (extract_key_facts_total memory um Hl) as (memory' & Hex).
  exists memory'. split; [exact Hex|].
  apply extract_key_facts_dict in Hex.
  destruct (extract_facts_features _ _ _ Hex) as (features' & Hloop & Hf).
  destruct (feature_loop_total (Text.lower um) _ Hl) as (l' & Hl' & _).
  rewrite Hl' in Hloop. injection Hloop as <-.
  assert (Hfo : features_of (key_facts memory')
                = features_of (key_facts memory) ++ l').
  { unfold features_of at 1. now rewrite Hf. }
  assert (Hcov : forall entry, entry ∈ feature_map ->
            Text.any_in (snd entry) (Text.lower um) = true ->
            fst entry ∈ features_of (key_facts memory')).
  { rewrite Hfo.
    unfold features_of in Hl' |- *.
    destruct Hl as [Hn|(l & Hsome)].
    - rewrite Hn in *. eapply feature_loop_covers, Hl'.
    - rewrite Hsome in *. eapply feature_loop_covers, Hl'. }
  split; [exact Hcov|].
  intros Hledge.
  assert (Hled : Text.contains "led" (Text.lower um) = true).
  { apply (contains_app_l "led" "ge"), Hledge. }
  split.
  - apply (Hcov ("tanning ledge",
                 ["tanning ledge"; "tanning shelf"; "sun shelf"; "ledge"])).
    + apply list_elem_of_here.
    + unfold Text.any_in. simpl. rewrite Hledge. now rewrite !orb_true_r.
  - apply (Hcov ("lighting", ["lighting"; "lights"; "underwater lights"; "led"])).
    + do 2 apply list_elem_of_further. apply list_elem_of_here.
    + unfold Text.any_in. simpl. rewrite Hled. now rewrite !orb_true_r.
Qed.

Lemma matched_features_are_recorded_witness :
  features_is_list (key_facts fresh)
  /\ exists memory',
       _extract_key_facts fresh "We want a sun ledge" = Some memory'
       /\ "lighting" ∈ features_of (key_facts memory').
Proof.
  assert (H : features_is_list (key_facts fresh)) by (left; reflexivity).
  split; [exact H|].
  destruct (matched_features_are_recorded fresh "We want a sun ledge" H)
    as (memory' & Hex & _ & Hledge).
  exists memory'. split; [exact Hex|].
  apply Hledge. vm_compute. reflexivity.
Defined.

(** ** The engagement level: steps and range *)

Lemma quiet_scores_do_truncate : quiet_scores_truncate = true.
Proof. vm_compute. reflexivity. Qed.

(** X8. For a level within 1 to 5 one utterance raises the level by at
    most 3, and an utterance with no question mark, none of the five
    terms and fewer than 20 words leaves it as it is. *)
Theorem engagement_step_is_bounded memory um :
  1 <= engagement_level memory <= 5 ->
  let new_level := engagement_level (_update_engagement_level memory um) in
  new_level <= engagement_level memory + 3
  /\ (question_count um = 0 -> specific_terms um = 0 -> message_length um < 20 ->
      new_level = engagement_level memory).
Proof.
  intros Hc new_level.
  pose proof (count_char_nonneg "?" um) as Hq.
  pose proof (specific_terms_range um) as Ht.
  pose proof (count_words_nonneg um false) as Hn.
  assert (Hnew : new_level
                 = spec_level_of (engagement_level memory) (question_count um)
                     (specific_terms um) (message_length um)).
  { unfold new_level, _update_engagement_level. simpl.
    apply (level_of_spec (engagement_level memory) (question_count um)
             (specific_terms um) (message_length um)); auto. }
  rewrite Hnew. unfold spec_level_of. split.
  - assert (Hfloor : Qfloor (exact_score (question_count um) (specific_terms um)
                               (message_length um)) <= 3).
    { change 3 with (Qfloor 3). apply Qfloor_resp_le.
      apply exact_score_range; [exact Hq | lia | exact Hn]. }
    lia.
  - intros Hq0 Ht0 Hn20. rewrite Hq0, Ht0.
    pose proof quiet_scores_do_truncate as Hall.
    unfold quiet_scores_truncate in Hall. rewrite forallb_forall in Hall.
    specialize (Hall (message_length um) ltac:(apply upto_spec;
      unfold message_length, Text.word_count in *; lia)).
    apply Z.eqb_eq in Hall. rewrite Hall. lia.
Qed.

Lemma engagement_step_is_bounded_witness :
  1 <= engagement_level fresh <= 5
  /\ engagement_level (_update_engagement_level fresh "ok thanks")
     = engagement_level fresh.
Proof.
  assert (H : 1 <= engagement_level fresh <= 5) by (simpl; lia).
  split; [exact H|].
  apply (engagement_step_is_bounded fresh "ok thanks" H); vm_compute; reflexivity.
Defined.

(** X9. Whatever the stored level, the new level is at most 5 and not
    below the smaller of the stored level and 5: a level stored above 5
    is lowered to 5, a level at or below 5 is never lowered. *)
Theorem engagement_level_is_clamped memory um :
  let new_level := engagement_level (_update_engagement_level memory um) in
  Z.min (engagement_level memory) 5 <= new_level <= 5
  /\ (new_level < engagement_level memory <-> 5 < engagement_level memory).
Proof. unfold _update_engagement_level. simpl. lia. Qed.

(** ** The CTA gate and the clock *)

Lemma gate_split memory now :
  should_attempt_cta memory now
  = if gate_blocked memory now then (false, None) else gate_offer memory.
Proof.
  unfold should_attempt_cta, gate_blocked, gate_offer, recent_attempts.
  destruct (match last_cta_attempt memory with
            | Some l => now - l <? minutes 5 | None => false end); reflexivity.
Qed.

Lemma gate_blocked_antitone memory now1 now2 :
  now1 <= now2 ->
  gate_blocked memory now1 = false -> gate_blocked memory now2 = false.
Proof.
  unfold gate_blocked. intros Hle H.
  apply orb_false_iff in H as [Hcool Hcap]. apply orb_false_iff. split.
  - destruct (last_cta_attempt memory) as [l|]; [|reflexivity].
    apply Z.ltb_ge in Hcool. apply Z.ltb_ge. lia.
  - apply Nat.leb_gt in Hcap. apply Nat.leb_gt.
    eapply Nat.le_lt_trans; [|exact Hcap].
    unfold recent_attempts. apply filter_length_mono.
    intros x Hx. apply Z.ltb_lt in Hx. apply Z.ltb_lt. lia.
Qed.

Lemma gate_offer_cases memory :
  gate_offer memory = (false, None)
  \/ (gate_offer memory = (true, Some "consult") /\ 3 <= engagement_level memory)
  \/ (gate_offer memory = (true, Some "render")
      /\ buyer_stage memory = "interested" /\ 2 <= engagement_level memory
      /\ truthy (key_facts memory !! "space_concerns") = true).
Proof.
  unfold gate_offer.
  destruct (Text.mem _ _ && (3 <=? _)) eqn:H1.
  { right. left. split; [reflexivity|].
    apply andb_true_iff in H1 as [_ H1]. now apply Z.leb_le. }
  destruct (String.eqb _ _ && (2 <=? _) && truthy _) eqn:H2.
  { right. right. split; [reflexivity|].
    apply andb_true_iff in H2 as [H2 Hs]. apply andb_true_iff in H2 as [Hst He].
    apply String.eqb_eq in Hst. apply Z.leb_le in He. auto. }
  destruct ((4 <=? _)%nat && (3 <=? _)) eqn:H3.
  { right. left. split; [reflexivity|].
    apply andb_true_iff in H3 as [_ H3]. now apply Z.leb_le. }
  now left.
Qed.

Lemma gate_granted_unblocked memory now kind :
  should_attempt_cta memory now = (true, kind) ->
  gate_blocked memory now = false /\ gate_offer memory = (true, kind).
Proof.
  rewrite gate_split. destruct (gate_blocked memory now); [discriminate|auto].
Qed.

Lemma gate_grant_lasts_aux memory now1 now2 kind :
  should_attempt_cta memory now1 = (true, kind) ->
  now1 <= now2 ->
  should_attempt_cta memory now2 = (true, kind).
Proof.
  intros Hg Hle. apply gate_granted_unblocked in Hg as [Hb Ho].
  rewrite gate_split, (gate_blocked_antitone memory now1 now2 Hle Hb). exact Ho.
Qed.

Lemma gate_stage_kind memory now kind :
  should_attempt_cta memory now = (true, kind) ->
  (kind = Some "consult" /\ 3 <= engagement_level memory)
  \/ (kind = Some "render" /\ buyer_stage memory = "interested"
      /\ 2 <= engagement_level memory
      /\ truthy (key_facts memory !! "space_concerns") = true).
Proof.
  intros Hg. apply gate_granted_unblocked in Hg as [_ Ho].
  destruct (gate_offer_cases memory) as [H|[[H He]|[H Hr]]];
    rewrite H in Ho; [discriminate| |].
  - left. split; [congruence | exact He].
  - right. split; [congruence | exact Hr].
Qed.

(** X10. A grant of the gate lasts: when the gate grants an attempt at
    some instant, then for the same record, left as it is, it grants the
    same kind of attempt at every later instant: the passing of time
    alone never closes the gate. *)
Theorem gate_grant_lasts memory now1 now2 kind :
  should_attempt_cta memory now1 = (true, kind) ->
  now1 <= now2 ->
  should_attempt_cta memory now2 = (true, kind).
Proof. exact (gate_grant_lasts_aux memory now1 now2 kind). Qed.

Lemma gate_grant_lasts_witness :
  should_attempt_cta keen_buyer 0 = (true, Some "consult")
  /\ 0 <= hours 2
  /\ should_attempt_cta keen_buyer (hours 2) = (true, Some "consult").
Proof.
  assert (H1 : should_attempt_cta keen_buyer 0 = (true, Some "consult"))
    by (vm_compute; reflexivity).
  assert (H2 : 0 <= hours 2) by (vm_compute; discriminate).
  split; [exact H1|]. split; [exact H2|].
  exact (gate_grant_lasts keen_buyer 0 (hours 2) (Some "consult") H1 H2).
Defined.

(** X11. Old attempts are forgotten: once the last attempt is five
    minutes old and every recorded attempt an hour old, the gate answers
    as it would for the same record with no attempt recorded. *)
Theorem gate_forgets_old_attempts memory now :
  (forall last, last_cta_attempt memory = Some last -> last + minutes 5 <= now) ->
  Forall (fun attempt => a_timestamp attempt + hours 1 <= now) (cta_attempts memory) ->
  should_attempt_cta memory now = should_attempt_cta (set_cta [] None memory) now.
Proof.
  intros Hlast Hall.
  assert (Hb : gate_blocked memory now = false).
  { unfold gate_blocked. apply orb_false_iff. split.
    - destruct (last_cta_attempt memory) as [l|] eqn:Hl; [|reflexivity].
      apply Z.ltb_ge. specialize (Hlast l eq_refl). lia.
    - unfold recent_attempts.
      assert (Hnil : List.filter (fun attempt => now - a_timestamp attempt <? hours 1)
                       (cta_attempts memory) = []).
      { induction Hall as [|x l Hx _ IH]; [reflexivity|]. simpl.
        assert (Hf : (now - a_timestamp x <? hours 1) = false)
          by (apply Z.ltb_ge; lia).
        now rewrite Hf. }
      now rewrite Hnil. }
  rewrite !gate_split, Hb. reflexivity.
Qed.

Lemma gate_forgets_old_attempts_witness :
  (forall last, last_cta_attempt twice_offered = Some last ->
                last + minutes 5 <= hours 2)
  /\ Forall (fun attempt => a_timestamp attempt + hours 1 <= hours 2)
       (cta_attempts twice_offered)
  /\ should_attempt_cta twice_offered (minutes 30) = (false, None)
  /\ should_attempt_cta twice_offered (hours 2) = (true, Some "consult").
Proof.
  assert (H1 : forall last, last_cta_attempt twice_offered = Some last ->
                            last + minutes 5 <= hours 2).
  { intros last [= <-]. vm_compute. discriminate. }
  assert (H2 : Forall (fun attempt => a_timestamp attempt + hours 1 <= hours 2)
                 (cta_attempts twice_offered)).
  { repeat constructor; vm_compute; discriminate. }
  split; [exact H1|]. split; [exact H2|]. split; [vm_compute; reflexivity|].
  rewrite (gate_forgets_old_attempts twice_offered (hours 2) H1 H2).
  vm_compute. reflexivity.
Defined.

(** X12. What a grant tells about the record: the kind is consult or
    render, never missing; the engagement level is at least 2, and at
    least 3 for a consult; a render is offered only to an interested
    buyer with a space concern on record. *)
Theorem gate_grant_shape memory now kind :
  should_attempt_cta memory now = (true, kind) ->
  (kind = Some "consult" /\ 3 <= engagement_level memory)
  \/ (kind = Some "render" /\ buyer_stage memory = "interested"
      /\ 2 <= engagement_level memory
      /\ truthy (key_facts memory !! "space_concerns") = true).
Proof. exact (gate_stage_kind memory now kind). Qed.

Lemma gate_grant_shape_witness :
  should_attempt_cta keen_buyer 0 = (true, Some "consult")
  /\ 3 <= engagement_level keen_buyer.
Proof.
  assert (H : should_attempt_cta keen_buyer 0 = (true, Some "consult"))
    by (vm_compute; reflexivity).
  split; [exact H|].
  destruct (gate_grant_shape keen_buyer 0 (Some "consult") H) as [[_ He]|[Hk _]].
  - exact He.
  - discriminate Hk.
Defined.

(** ** [_get_intelligent_suggestions] *)

(** X13. The suggestion method asks the gate twice, reading the clock
    each time.  With a clock that does not go backwards the second
    answer is that of the first: a suggestion that starts with
    "consider " is "consider consult CTA", it is there exactly for a
    buyer at stage considering to whom the gate grants an attempt, and
    neither "consider None CTA" nor a render is ever suggested. *)
Theorem suggested_cta_is_consult memory now1 now2 :
  now1 <= now2 ->
  (forall s, In s (suggestions_of memory now1 now2) ->
             String.prefix "consider " s = true -> s = "consider consult CTA")
  /\ (In "consider consult CTA" (suggestions_of memory now1 now2)
      <-> buyer_stage memory = "considering"
          /\ fst (should_attempt_cta memory now1) = true).
Proof.
  intros Hle.
  assert (Hsecond : buyer_stage memory = "considering" ->
            fst (should_attempt_cta memory now1) = true ->
            snd (should_attempt_cta memory now2) = Some "consult").
  { intros Hst Hf.
    destruct (should_attempt_cta memory now1) as [b kind] eqn:Hg. simpl in Hf. subst b.
    rewrite (gate_grant_lasts_aux memory now1 now2 kind Hg Hle). simpl.
    destruct (gate_stage_kind memory now1 kind Hg) as [[-> _]|(_ & Hi & _)];
      [reflexivity|]. rewrite Hst in Hi. discriminate Hi. }
  unfold suggestions_of. cbv zeta.
  destruct (String.eqb (buyer_stage memory) "considering") eqn:Hc.
  - apply String.eqb_eq in Hc. rewrite Hc. simpl.
    destruct (fst (should_attempt_cta memory now1)) eqn:Hf.
    + rewrite (Hsecond Hc eq_refl). simpl. split.
      * intros s Hin Hp.
        repeat match type of Hin with
               | context [if ?b then _ else _] => destruct b
               end;
          simpl in Hin;
          repeat match type of Hin with
                 | _ \/ _ => destruct Hin as [<-|Hin]
                 | False => destruct Hin
                 end; first [reflexivity | discriminate Hp].
      * split; [auto|]. intros _.
        repeat match goal with
               | |- context [if ?b then _ else _] => destruct b
               end; simpl; auto.
    + simpl. split.
      * intros s Hin Hp.
        repeat match type of Hin with
               | context [if ?b then _ else _] => destruct b
               end;
          simpl in Hin;
          repeat match type of Hin with
                 | _ \/ _ => destruct Hin as [<-|Hin]
                 | False => destruct Hin
                 end; first [reflexivity | discriminate Hp].
      * split; [|intros [_ Hn]; discriminate Hn]. intros Hin.
        repeat match type of Hin with
               | context [if ?b then _ else _] => destruct b
               end;
          simpl in Hin;
          repeat match type of Hin with
                 | _ \/ _ => destruct Hin as [Heq|Hin]; [discriminate Heq|]
                 | False => destruct Hin
                 end.
  - assert (Hne : buyer_stage memory <> "considering")
      by (now apply String.eqb_neq).
    split.
    + intros s Hin Hp.
      repeat match type of Hin with
             | context [if ?b then _ else _] => destruct b
             end;
        simpl in Hin;
        repeat match type of Hin with
               | _ \/ _ => destruct Hin as [<-|Hin]
               | False => destruct Hin
               end; first [reflexivity | discriminate Hp].
    + split; [|intros [Hst _]; contradiction]. intros Hin.
      repeat match type of Hin with
             | context [if ?b then _ else _] => destruct b
             end;
        simpl in Hin;
        repeat match type of Hin with
               | _ \/ _ => destruct Hin as [Heq|Hin]; [discriminate Heq|]
               | False => destruct Hin
               end.
Qed.

Lemma suggested_cta_is_consult_witness :
  0 <= 1
  /\ In "consider consult CTA" (suggestions_of keen_buyer 0 1).
Proof.
  assert (H : 0 <= 1) by lia.
  split; [exact H|].
  apply (proj2 (suggested_cta_is_consult keen_buyer 0 1 H)).
  split; vm_compute; reflexivity.
Defined.

(** ** Contact fields and the requests that reach the store *)

Lemma update_contact_info_other memory field value other :
  other <> field ->
  contact_info (update_contact_info memory field value) !! other
  = contact_info memory !! other.
Proof.
  intros Hne. unfold update_contact_info.
  destruct (forallb _ _); simpl; now rewrite lookup_insert_ne.
Qed.

Lemma update_contact_info_own memory field value :
  contact_info (update_contact_info memory field value) !! field = Some value.
Proof.
  unfold update_contact_info.
  destruct (forallb _ _); simpl; now rewrite lookup_insert_eq.
Qed.

Lemma update_contact_info_requested memory field value :
  render_requested (update_contact_info memory field value) = render_requested memory.
Proof. unfold update_contact_info. now destruct (forallb _ _). Qed.

Ltac contact_steps :=
  repeat match goal with
         | |- context [if ?b then _ else _] => destruct b eqn:?
         | |- context [match ?x with _ => _ end] => destruct x eqn:?
         end.

Lemma contact_fields_hold user_message scan memory :
  let memory' := process_contact_info user_message scan memory in
  (forall field, In field ["name"; "email"; "phone"] ->
     truthy_str (contact_info memory !! field) = true ->
     contact_info memory' !! field = contact_info memory !! field)
  /\ (contact_info memory' !! "photo" = contact_info memory !! "photo"
      \/ contact_info memory' !! "photo" = Some "provided")
  /\ (forall key, ~ In key required_fields ->
        contact_info memory' !! key = contact_info memory !! key).
Proof.
  cbv zeta. split; [|split].
  - intros field Hin Ht. simpl in Hin.
    unfold process_contact_info. cbv zeta.
    destruct Hin as [<-|[<-|[<-|[]]]]; contact_steps;
      rewrite ?update_contact_info_other by discriminate;
      rewrite ?update_contact_info_other in * by discriminate;
      try reflexivity; try congruence;
      rewrite Ht in *; simpl in *; discriminate.
  - unfold process_contact_info. cbv zeta.
    contact_steps;
      rewrite ?update_contact_info_own; auto;
      rewrite ?update_contact_info_other by discriminate; auto.
  - intros key Hk. unfold required_fields in Hk. simpl in Hk.
    assert (Hn : key <> "name") by (intros ->; apply Hk; auto).
    assert (He : key <> "email") by (intros ->; apply Hk; auto).
    assert (Hp : key <> "phone") by (intros ->; apply Hk; auto).
    assert (Hf : key <> "photo") by (intros ->; apply Hk; auto).
    unfold process_contact_info. cbv zeta.
    contact_steps; rewrite ?update_contact_info_other by assumption; reflexivity.
Qed.

(** X14. A name, an e-mail address or a phone number on record is never
    replaced by [process_contact_info], whatever the utterance holds;
    the photo entry after a call is the one before or "provided"; and
    the call writes no key outside the four contact fields. *)
Theorem contact_fields_are_write_once user_message scan memory :
  let memory' := process_contact_info user_message scan memory in
  (forall field, In field ["name"; "email"; "phone"] ->
     truthy_str (contact_info memory !! field) = true ->
     contact_info memory' !! field = contact_info memory !! field)
  /\ (contact_info memory' !! "photo" = contact_info memory !! "photo"
      \/ contact_info memory' !! "photo" = Some "provided")
  /\ (forall key, ~ In key required_fields ->
        contact_info memory' !! key = contact_info memory !! key).
Proof. exact (contact_fields_hold user_message scan memory). Qed.

Lemma contact_fields_are_write_once_witness :
  In "email" ["name"; "email"; "phone"]
  /\ truthy_str (contact_info email_known !! "email") = true
  /\ contact_info (process_contact_info "use pat@example.com" full_contact email_known)
       !! "email" = Some "first@example.com".
Proof.
  assert (H1 : In "email" ["name"; "email"; "phone"]) by (simpl; auto).
  assert (H2 : truthy_str (contact_info email_known !! "email") = true)
    by (vm_compute; reflexivity).
  split; [exact H1|]. split; [exact H2|].
  rewrite (proj1 (contact_fields_are_write_once "use pat@example.com" full_contact
                    email_known) "email" H1 H2).
  vm_compute. reflexivity.
Defined.

Lemma stage_collecting_captured memory :
  get_render_workflow_stage memory = "collecting_info" ->
  render_requested memory = true /\ (0 < captured_count memory)%nat.
Proof.
  unfold get_render_workflow_stage.
  destruct (render_requested memory); cbn [negb]; [|discriminate].
  destruct (status_is "complete" _); [discriminate|].
  destruct (status_is "in_progress" _); [discriminate|].
  destruct (forallb _ _); [discriminate|].
  destruct (existsb _ required_fields) eqn:Hex; [|discriminate].
  intros _. split; [reflexivity|].
  destruct (captured_cases memory) as (_ & Hany & Hcount).
  unfold captured in Hany at 1. rewrite Hex in Hany. rewrite Hcount.
  destruct (captured memory "name"), (captured memory "email"),
    (captured memory "phone"), (captured memory "photo"); simpl in *;
    first [lia | discriminate].
Qed.

Lemma handle_render_workflow_idle memory user_message scan :
  render_requested memory = false \/ captured_count memory = 0%nat ->
  handle_render_workflow memory user_message scan = memory.
Proof.
  intros H. unfold handle_render_workflow.
  destruct (String.eqb _ "info_needed"); [reflexivity|].
  destruct (String.eqb _ "collecting_info") eqn:Hc; [|reflexivity].
  apply String.eqb_eq, stage_collecting_captured in Hc as [Hr Hn].
  destruct H as [H|H]; [congruence | lia].
Qed.

Lemma pending_is_no_acceptance :
  Text.contains "yes" (Text.lower "pending")
  || Text.contains "sure" (Text.lower "pending")
  || Text.contains "okay" (Text.lower "pending") = false.
Proof. reflexivity. Qed.

Lemma record_cta_attempt_contact memory cta_type response now_attempt now_last :
  contact_info (record_cta_attempt memory cta_type response now_attempt now_last)
  = contact_info memory.
Proof. unfold record_cta_attempt. split_branches. Qed.

Lemma record_cta_attempt_requested memory cta_type response now_attempt now_last :
  let memory' := record_cta_attempt memory cta_type response now_attempt now_last in
  render_requested memory' = render_requested memory
  \/ ((Text.contains "yes" (Text.lower response)
       || Text.contains "sure" (Text.lower response)
       || Text.contains "okay" (Text.lower response))
      && negb (String.eqb cta_type "consult") && String.eqb cta_type "render" = true).
Proof.
  unfold record_cta_attempt.
  destruct (_ || _ || _); simpl; [|now left].
  destruct (String.eqb cta_type "consult"); simpl; [now left|].
  destruct (String.eqb cta_type "render"); simpl; [now right | now left].
Qed.

Lemma update_buyer_stage_render memory user_message :
  let memory' := _update_buyer_stage memory user_message in
  render_requested memory' = render_requested memory
  /\ contact_info memory' = contact_info memory.
Proof. unfold _update_buyer_stage. split_branches; auto. Qed.

Lemma add_interaction_render self memory user_message bot_response now memory' :
  add_interaction self memory user_message bot_response now = Some memory' ->
  render_requested memory' = render_requested memory
  /\ contact_info memory' = contact_info memory.
Proof.
  unfold add_interaction, _extract_key_facts. simpl.
  destruct (extract_facts _ _) as [kf|]; [|discriminate].
  intros [= <-]. simpl.
  match goal with
  | |- context [_update_buyer_stage ?m user_message] =>
      destruct (update_buyer_stage_render m user_message) as [H1 H2]
  end.
  simpl in H1, H2. auto.
Qed.

Section RowInvariant.

Variable P : Memory -> Prop.
Hypothesis P_default : forall uid now, P (default_memory uid now).
Hypothesis P_stamps : forall created updated memory,
  P memory -> P (set_stamps created updated memory).

Lemma load_memory_keeps self db store_ok generated_id now uid :
  map_Forall (fun _ row => P row) db ->
  P (load_memory self db store_ok generated_id now uid).
Proof.
  intros Hdb. unfold load_memory.
  destruct store_ok; [|apply P_default].
  match goal with
  | |- context [db !! ?u] => destruct (db !! u) as [row|] eqn:Hrow
  end; [|apply P_default].
  destruct (_ <? _); [apply P_default|].
  eapply (Hdb _ row), Hrow.
Qed.

Lemma save_memory_keeps db store_ok now current_timestamp memory :
  map_Forall (fun _ row => P row) db -> P memory ->
  map_Forall (fun _ row => P row)
    (save_memory db store_ok now current_timestamp memory).
Proof.
  intros Hdb Hm. unfold save_memory.
  destruct (String.eqb _ ""); [exact Hdb|].
  destruct store_ok; [|exact Hdb].
  apply map_Forall_insert_2; [|exact Hdb]. apply P_stamps, Hm.
Qed.

Lemma cleanup_keeps self db store_ok now :
  map_Forall (fun _ row => P row) db ->
  map_Forall (fun _ row => P row) (fst (cleanup_expired_memories self db store_ok now)).
Proof.
  intros Hdb. unfold cleanup_expired_memories.
  destruct store_ok; [|exact Hdb]. simpl.
  intros uid row Hrow. apply map_lookup_filter_Some in Hrow as [Hrow _].
  eapply Hdb, Hrow.
Qed.

Lemma reset_keeps db user_id store_ok :
  map_Forall (fun _ row => P row) db ->
  map_Forall (fun _ row => P row) (reset_user_memory db user_id store_ok).
Proof.
  intros Hdb. unfold reset_user_memory.
  destruct store_ok; [|exact Hdb]. now apply map_Forall_delete.
Qed.

Lemma chat_keeps self db t :
  (forall memory memory', P memory -> chat_memory self memory t = Some memory' ->
                          P memory') ->
  map_Forall (fun _ row => P row) db ->
  map_Forall (fun _ row => P row) (chat self db t).
Proof.
  intros Hchat Hdb. unfold chat.
  destruct (is_blank _); [exact Hdb|]. cbv zeta.
  destruct (t_reply_ok t); [|exact Hdb].
  destruct (chat_memory self _ t) as [memory'|] eqn:Hm; [|exact Hdb].
  apply save_memory_keeps; [exact Hdb|].
  eapply Hchat; [|exact Hm]. now apply load_memory_keeps.
Qed.

End RowInvariant.

Lemma captured_count_contact memory memory' :
  contact_info memory' = contact_info memory ->
  captured_count memory' = captured_count memory.
Proof. unfold captured_count, captured. now intros ->. Qed.

Lemma record_cta_attempt_status memory cta_type response now_attempt now_last :
  let memory' := record_cta_attempt memory cta_type response now_attempt now_last in
  render_status memory' = render_status memory
  \/ render_status memory' = Some "info_needed".
Proof. unfold record_cta_attempt. split_branches; auto. Qed.

Lemma add_interaction_status self memory user_message bot_response now memory' :
  add_interaction self memory user_message bot_response now = Some memory' ->
  render_status memory' = render_status memory.
Proof.
  unfold add_interaction, _extract_key_facts. simpl.
  destruct (extract_facts _ _) as [kf|]; [|discriminate].
  intros [= <-]. simpl. unfold _update_buyer_stage. split_branches.
Qed.

Lemma record_cta_attempt_awaiting memory cta_type response now_attempt now_last :
  awaiting_contact memory ->
  awaiting_contact (record_cta_attempt memory cta_type response now_attempt now_last).
Proof.
  intros [Hc Hs]. split.
  - rewrite (captured_count_contact memory); [exact Hc|].
    apply record_cta_attempt_contact.
  - destruct (record_cta_attempt_status memory cta_type response now_attempt now_last)
      as [->| ->]; auto.
Qed.

Lemma chat_memory_awaiting self memory t memory' :
  awaiting_contact memory -> chat_memory self memory t = Some memory' ->
  awaiting_contact memory'.
Proof.
  intros Ha. unfold chat_memory. cbv zeta.
  rewrite (handle_render_workflow_idle memory _ _ (or_intror (proj1 Ha))).
  replace (if render_requested memory
              || Text.contains "render" (Text.lower (t_user_message t))
              || Text.contains "visual" (Text.lower (t_user_message t))
           then memory else memory) with memory by (now destruct (_ || _ || _)).
  set (mid := match should_attempt_cta memory (t_now_gate t) with
              | (true, Some cta_type) =>
                  if negb (Text.contains "render" (Text.lower (t_reply_at_cta t)))
                     && negb (Text.contains "consult" (Text.lower (t_reply_at_cta t)))
                  then record_cta_attempt memory cta_type "pending"
                         (t_now_attempt t) (t_now_last t)
                  else memory
              | _ => memory
              end).
  assert (Hmid : awaiting_contact mid).
  { unfold mid. destruct (should_attempt_cta _ _) as [[] [k|]]; try exact Ha.
    destruct (_ && _); [|exact Ha]. now apply record_cta_attempt_awaiting. }
  intros Hadd. destruct Hmid as [Hc Hs].
  destruct (add_interaction_render _ _ _ _ _ _ Hadd) as [_ Hci].
  pose proof (add_interaction_status _ _ _ _ _ _ Hadd) as Hst.
  split; [now rewrite (captured_count_contact mid) | now rewrite Hst].
Qed.

Lemma handle_awaiting self db request :
  all_awaiting_contact db -> all_awaiting_contact (handle self db request).
Proof.
  assert (Hdef : forall uid now, awaiting_contact (default_memory uid now)).
  { intros uid now. split; [reflexivity | now left]. }
  assert (Hst : forall c u m, awaiting_contact m -> awaiting_contact (set_stamps c u m)).
  { intros c u m Hm. exact Hm. }
  intros Hdb. destruct request; simpl.
  - apply (chat_keeps _ Hdef Hst); [|exact Hdb].
    intros memory memory'. apply chat_memory_awaiting.
  - unfold simulate_response. apply (save_memory_keeps _ Hst); [exact Hdb|].
    apply record_cta_attempt_awaiting. now apply (load_memory_keeps _ Hdef).
  - now apply (cleanup_keeps awaiting_contact).
  - now apply (reset_keeps awaiting_contact).
Qed.

(** X15. No endpoint ever captures a contact field.  The contact scan
    runs only at stage [collecting_info], which needs a field already
    captured, and nothing else writes [contact_info].  So from a table
    whose rows have no field captured and a render status absent or
    [info_needed] (the empty table, or one where render offers were
    accepted), every sequence of chat, simulated-response, cleanup and
    reset requests leads to a table of such rows: each stays at stage
    [not_requested] or [info_needed], and all four fields stay
    missing. *)
Theorem no_request_captures_contact self requests : forall db,
  all_awaiting_contact db ->
  all_awaiting_contact (serve self db requests)
  /\ (forall uid row, serve self db requests !! uid = Some row ->
        (get_render_workflow_stage row = "not_requested"
         \/ get_render_workflow_stage row = "info_needed")
        /\ get_missing_contact_fields row = required_fields).
Proof.
  assert (Hinv : forall db, all_awaiting_contact db ->
                            all_awaiting_contact (serve self db requests)).
  { unfold serve. induction requests as [|request rest IH]; intros db Hdb;
      simpl; [exact Hdb|].
    apply IH, handle_awaiting, Hdb. }
  intros db Hdb. split; [now apply Hinv|].
  intros uid row Hrow.
  destruct (Hinv db Hdb uid row Hrow) as [Hc Hs].
  destruct (nothing_captured row Hc) as (Hn & He & Hp & Hf).
  unfold captured in *. split.
  - unfold get_render_workflow_stage, required_fields. simpl.
    rewrite Hn, He, Hp, Hf. simpl.
    destruct (render_requested row); simpl; [|now left].
    destruct Hs as [-> | ->]; simpl; now right.
  - unfold get_missing_contact_fields, required_fields. simpl.
    now rewrite Hn, He, Hp, Hf.
Qed.

Lemma no_request_captures_contact_witness :
  all_awaiting_contact render_accepted_table
  /\ forall uid row,
       serve app_manager render_accepted_table
         [Chat (contact_turn 1); Chat (contact_turn 2)] !! uid = Some row ->
       get_missing_contact_fields row = required_fields.
Proof.
  assert (H : all_awaiting_contact render_accepted_table).
  { apply map_Forall_singleton. split; [reflexivity | now right]. }
  split; [exact H|].
  intros uid row Hrow.
  exact (proj2 (proj2 (no_request_captures_contact app_manager
                         [Chat (contact_turn 1); Chat (contact_turn 2)]
                         render_accepted_table H) uid row Hrow)).
Defined.

Lemma chat_memory_render_off self memory t memory' :
  render_requested memory = false -> chat_memory self memory t = Some memory' ->
  render_requested memory' = false.
Proof.
  intros Hoff. unfold chat_memory. cbv zeta.
  rewrite (handle_render_workflow_idle memory _ _ (or_introl Hoff)).
  replace (if render_requested memory
              || Text.contains "render" (Text.lower (t_user_message t))
              || Text.contains "visual" (Text.lower (t_user_message t))
           then memory else memory) with memory by (now destruct (_ || _ || _)).
  set (mid := match should_attempt_cta memory (t_now_gate t) with
              | (true, Some cta_type) =>
                  if negb (Text.contains "render" (Text.lower (t_reply_at_cta t)))
                     && negb (Text.contains "consult" (Text.lower (t_reply_at_cta t)))
                  then record_cta_attempt memory cta_type "pending"
                         (t_now_attempt t) (t_now_last t)
                  else memory
              | _ => memory
              end).
  assert (Hmid : render_requested mid = false).
  { unfold mid. destruct (should_attempt_cta _ _) as [[] [k|]]; try exact Hoff.
    destruct (_ && _); [|exact Hoff].
    destruct (record_cta_attempt_requested memory k "pending"
                (t_now_attempt t) (t_now_last t)) as [-> | Hacc]; [exact Hoff|].
    rewrite pending_is_no_acceptance in Hacc. discriminate Hacc. }
  intros Hadd.
  destruct (add_interaction_render _ _ _ _ _ _ Hadd) as [-> _]. exact Hmid.
Qed.

Lemma handle_render_off self db request :
  accepts_render request = false ->
  render_off db -> render_off (handle self db request).
Proof.
  set (P := fun row : Memory => render_requested row = false).
  assert (Hdef : forall uid now, P (default_memory uid now)) by reflexivity.
  assert (Hst : forall c u m, P m -> P (set_stamps c u m)) by (intros c u m Hm; exact Hm).
  intros Hacc Hdb.
  destruct request as [t | uid load_id cta_type response load_ok save_ok
                           now_load now_attempt now_last now_save current_timestamp
                         | ok now | uid ok];
    simpl.
  - apply (chat_keeps P Hdef Hst); [|exact Hdb].
    intros memory memory'. apply chat_memory_render_off.
  - unfold simulate_response. apply (save_memory_keeps P Hst); [exact Hdb|].
    unfold P.
    destruct (record_cta_attempt_requested
                (load_memory self db load_ok load_id now_load uid)
                cta_type response now_attempt now_last) as [-> | Hyes].
    + now apply (load_memory_keeps P Hdef).
    + simpl in Hacc. rewrite Hacc in Hyes. discriminate Hyes.
  - now apply (cleanup_keeps P).
  - now apply (reset_keeps P).
Qed.

(** X16. The chat never starts a render.  The only attempt it records
    has the response "pending", which accepts nothing; so from a table
    with no render requested, every sequence of requests without a
    simulated acceptance of a render offer leaves every row with
    [render_requested] false, at stage [not_requested], however often
    the customers ask for a render. *)
Theorem chat_never_requests_render self requests : forall db,
  render_off db ->
  forallb (fun request => negb (accepts_render request)) requests = true ->
  forall uid row, serve self db requests !! uid = Some row ->
    render_requested row = false
    /\ get_render_workflow_stage row = "not_requested".
Proof.
  assert (Hinv : forall db, render_off db ->
            forallb (fun request => negb (accepts_render request)) requests = true ->
            render_off (serve self db requests)).
  { unfold serve. induction requests as [|request rest IH]; intros db Hdb Hall;
      simpl; [exact Hdb|].
    simpl in Hall. apply andb_true_iff in Hall as [Hreq Hrest].
    apply IH; [|exact Hrest].
    apply handle_render_off; [now apply negb_true_iff | exact Hdb]. }
  intros db Hdb Hall uid row Hrow.
  pose proof (Hinv db Hdb Hall uid row Hrow) as Hoff. simpl in Hoff.
  split; [exact Hoff|].
  unfold get_render_workflow_stage. now rewrite Hoff.
Qed.

Lemma chat_never_requests_render_witness :
  render_off ∅
  /\ forallb (fun request => negb (accepts_render request))
       [Chat (render_wish 1); Chat (render_wish 2)] = true
  /\ exists row,
       serve app_manager ∅ [Chat (render_wish 1); Chat (render_wish 2)] !! "s1"
       = Some row
       /\ length (interactions row) = 2%nat
       /\ render_requested row = false.
Proof.
  assert (H1 : render_off ∅) by apply map_Forall_empty.
  assert (H2 : forallb (fun request => negb (accepts_render request))
                 [Chat (render_wish 1); Chat (render_wish 2)] = true) by reflexivity.
  split; [exact H1|]. split; [exact H2|].
  destruct (serve app_manager ∅ [Chat (render_wish 1); Chat (render_wish 2)] !! "s1")
    as [row|] eqn:Hrow.
  - exists row. split; [reflexivity|]. split.
    + assert (Hlen : option_map (fun r => length (interactions r))
                       (serve app_manager ∅
                          [Chat (render_wish 1); Chat (render_wish 2)] !! "s1")
                     = Some 2%nat) by (vm_compute; reflexivity).
      rewrite Hrow in Hlen. simpl in Hlen. congruence.
    + exact (proj1 (chat_never_requests_render app_manager
                      [Chat (render_wish 1); Chat (render_wish 2)] ∅ H1 H2
                      "s1" row Hrow)).
  - exfalso.
    assert (Hsome : is_Some (serve app_manager ∅
                      [Chat (render_wish 1); Chat (render_wish 2)] !! "s1")).
    { vm_compute. eauto. }
    rewrite Hrow in Hsome. destruct Hsome as [x Hx]. discriminate Hx.
Defined.

(** ** The message history sent to the language model *)

Lemma slice_last_suffix {A} limit (l : list A) :
  exists older, l = older ++ slice_last limit l.
Proof.
  unfold slice_last. destruct (0 <? limit).
  - exists (firstn (length l - Z.to_nat limit) l). symmetry. apply firstn_skipn.
  - exists (firstn (Z.to_nat (- limit)) l). symmetry. apply firstn_skipn.
Qed.

Lemma slice_last_length {A} limit (l : list A) :
  0 < limit ->
  length (slice_last limit l) = Nat.min (Z.to_nat limit) (length l).
Proof.
  intros Hl. unfold slice_last.
  destruct (0 <? limit) eqn:Hpos; [|apply Z.ltb_ge in Hpos; lia].
  rewrite length_skipn. lia.
Qed.

Lemma slice_last_snoc {A} limit (l : list A) e :
  0 < limit ->
  exists l', slice_last limit (l ++ [e]) = l' ++ [e].
Proof.
  intros Hl. unfold slice_last.
  destruct (0 <? limit) eqn:Hpos; [|apply Z.ltb_ge in Hpos; lia].
  rewrite skipn_app, length_app. simpl.
  replace (length l + 1 - Z.to_nat limit - length l)%nat with 0%nat by lia.
  simpl. eauto.
Qed.

Lemma flat_map_exchange_length l :
  length (flat_map exchange l) = (2 * length l)%nat.
Proof. induction l as [|i l IH]; simpl; lia. Qed.

(** X17. The history window.  For a positive limit the history has two
    messages for each of the last [limit] interactions; it is always the
    end of the full transcript; and a limit of 0 gives the whole
    transcript, not an empty one, since the slice [l[-0:]] is all of
    [l]. *)
Theorem history_is_the_end_of_the_transcript memory limit :
  (exists older,
     flat_map exchange (interactions memory)
     = older ++ get_conversation_history memory limit)
  /\ (0 < limit ->
      length (get_conversation_history memory limit)
      = (2 * Nat.min (Z.to_nat limit) (length (interactions memory)))%nat)
  /\ get_conversation_history memory 0 = flat_map exchange (interactions memory).
Proof.
  unfold get_conversation_history. split; [|split].
  - destruct (slice_last_suffix limit (interactions memory)) as (older & Hol).
    exists (flat_map exchange older).
    rewrite Hol at 1. apply flat_map_app.
  - intros Hl. now rewrite flat_map_exchange_length, slice_last_length.
  - reflexivity.
Qed.

Lemma history_is_the_end_of_the_transcript_witness :
  0 < 1
  /\ length (get_conversation_history two_turns 1) = 2%nat
  /\ length (get_conversation_history two_turns 0) = 4%nat.
Proof.
  assert (H : 0 < 1) by lia.
  split; [exact H|]. split.
  - rewrite (proj1 (proj2 (history_is_the_end_of_the_transcript two_turns 1)) H).
    reflexivity.
  - reflexivity.
Defined.

Lemma prune_snoc n (l : list Interaction) e :
  exists l', prune n (l ++ [e]) = l' ++ [e]
             /\ ((n = 0 \/ 3 <= n)%nat -> (2 <= length l)%nat -> (2 <= length l')%nat).
Proof.
  unfold prune.
  destruct (n <? length (l ++ [e]))%nat eqn:Hlen;
    [|exists l; split; [reflexivity | auto]].
  destruct n as [|n]; [exists l; split; [reflexivity | auto]|].
  apply Nat.ltb_lt in Hlen. rewrite length_app in Hlen. simpl in Hlen.
  rewrite skipn_app.
  replace (length (l ++ [e]) - S n - length l)%nat with 0%nat
    by (rewrite length_app; simpl; lia).
  simpl. eexists. split; [reflexivity|].
  intros Hn Hl. rewrite length_skipn, length_app. simpl. lia.
Qed.

(** X18. What the next request sends to the language model after a
    stored turn: the system prompt first, at most 24 messages in all,
    and at the end the stored exchange followed by the new utterance,
    for every cap on the log. *)
Theorem message_history_ends_with_last_turn self memory um bot now memory'
    system_prompt user_message context_summary opening_message :
  add_interaction self memory um bot now = Some memory' ->
  let history :=
    build_message_history system_prompt memory' user_message context_summary
      opening_message in
  (exists earlier,
     history
     = {| role := "system"; content := system_prompt |} :: earlier
       ++ [ {| role := "user"; content := um |};
            {| role := "assistant"; content := bot |};
            {| role := "user"; content := user_message |} ])
  /\ (length history <= 24)%nat.
Proof.
  intros Hadd history.
  pose proof (add_interaction_interactions _ _ _ _ _ _ Hadd) as Hint.
  destruct (prune_snoc (max_interactions self) (interactions memory)
              {| i_timestamp := now; i_user := um; i_bot := bot |}) as (l' & Hl' & _).
  rewrite Hl' in Hint.
  destruct (slice_last_snoc 10 l' {| i_timestamp := now; i_user := um; i_bot := bot |})
    as (recent & Hrecent); [lia|].
  assert (Hhist : get_conversation_history memory' 10
                  = flat_map exchange recent
                    ++ [ {| role := "user"; content := um |};
                         {| role := "assistant"; content := bot |} ]).
  { unfold get_conversation_history. rewrite Hint, Hrecent, flat_map_app.
    reflexivity. }
  assert (Hlen : (length (get_conversation_history memory' 10) <= 20)%nat).
  { unfold get_conversation_history.
    rewrite flat_map_exchange_length, slice_last_length by lia. lia. }
  unfold history, build_message_history. cbv zeta. split.
  - rewrite Hhist.
    destruct (negb (String.eqb context_summary "")),
      (truthy_str opening_message);
      [ exists ({| role := "system"; content := context_summary |}
                :: {| role := "assistant"; content := default "" opening_message |}
                :: flat_map exchange recent)
      | exists ({| role := "system"; content := context_summary |}
                :: flat_map exchange recent)
      | exists ({| role := "assistant"; content := default "" opening_message |}
                :: flat_map exchange recent)
      | exists (flat_map exchange recent) ];
      simpl; rewrite <- app_assoc; reflexivity.
  - destruct (negb (String.eqb context_summary "")),
      (truthy_str opening_message); simpl;
      rewrite ?length_app; simpl; lia.
Qed.

Lemma message_history_ends_with_last_turn_witness :
  exists memory',
    add_interaction app_manager two_turns "What about heating?" "Heaters are optional."
      3 = Some memory'
    /\ (length (build_message_history "You are Rusty." memory' "ok" "" None) <= 24)%nat.
Proof.
  destruct (add_interaction app_manager two_turns "What about heating?"
              "Heaters are optional." 3) as [memory'|] eqn:Hadd.
  - exists memory'. split; [reflexivity|].
    exact (proj2 (message_history_ends_with_last_turn app_manager two_turns
                    "What about heating?" "Heaters are optional." 3 memory'
                    "You are Rusty." "ok" "" None Hadd)).
  - exfalso. revert Hadd. vm_compute. discriminate.
Defined.

(** ** The stall detector *)

Lemma question_mark_lower_ascii c :
  Ascii.eqb "?" (Text.lower_ascii c) = Ascii.eqb "?" c.
Proof. destruct c as [[] [] [] [] [] [] [] []]; reflexivity. Qed.

Lemma count_question_marks_lower s :
  Text.count_char "?" (Text.lower s) = Text.count_char "?" s.
Proof.
  induction s as [|c s IH]; [reflexivity|].
  change (Text.count_char "?" (Text.lower (String c s)))
    with ((if Ascii.eqb "?" (Text.lower_ascii c) then 1 else 0)
          + Text.count_char "?" (Text.lower s)).
  change (Text.count_char "?" (String c s))
    with ((if Ascii.eqb "?" c then 1 else 0) + Text.count_char "?" s).
  now rewrite question_mark_lower_ascii, IH.
Qed.

(** X19. A statement is enough for the stall detector.  After a stored
    turn whose utterance has no question mark, with two or more
    interactions stored before it and a cap on the log of 0 or at least
    3, the detector reports a stall at the next turn; and with fewer
    than three interactions stored it never does. *)
Theorem statement_triggers_stall self memory um bot now memory' :
  add_interaction self memory um bot now = Some memory' ->
  ((length (interactions memory') < 3)%nat -> detect_conversation_stall memory' = false)
  /\ ((max_interactions self = 0 \/ 3 <= max_interactions self)%nat ->
      (2 <= length (interactions memory))%nat ->
      Text.count_char "?" um = 0 ->
      detect_conversation_stall memory' = true).
Proof.
  intros Hadd. split.
  - intros Hlen. unfold detect_conversation_stall.
    apply Nat.ltb_lt in Hlen. now rewrite Hlen.
  - intros Hmax Hold Hq.
    pose proof (add_interaction_interactions _ _ _ _ _ _ Hadd) as Hint.
    destruct (prune_snoc (max_interactions self) (interactions memory)
                {| i_timestamp := now; i_user := um; i_bot := bot |})
      as (l' & Hl' & Hlen).
    specialize (Hlen Hmax Hold). rewrite Hl' in Hint.
    unfold detect_conversation_stall. rewrite Hint.
    assert (H3 : (length (l' ++ [{| i_timestamp := now; i_user := um; i_bot := bot |}])
                  <? 3)%nat = false).
    { apply Nat.ltb_ge. rewrite length_app. simpl. lia. }
    rewrite H3.
    destruct (slice_last_snoc 3 l' {| i_timestamp := now; i_user := um; i_bot := bot |})
      as (recent & ->); [lia|].
    destruct (2 <=? _)%nat; [reflexivity|].
    rewrite map_app, existsb_app. simpl.
    rewrite count_question_marks_lower, Hq. simpl.
    now rewrite orb_true_r.
Qed.

Lemma statement_triggers_stall_witness :
  exists memory',
    add_interaction app_manager two_turns "We have a small yard behind the house"
      "Good to know." 3 = Some memory'
    /\ detect_conversation_stall memory' = true.
Proof.
  destruct (add_interaction app_manager two_turns
              "We have a small yard behind the house" "Good to know." 3)
    as [memory'|] eqn:Hadd.
  - exists memory'. split; [reflexivity|].
    apply (proj2 (statement_triggers_stall app_manager two_turns
                    "We have a small yard behind the house" "Good to know." 3
                    memory' Hadd)).
    + right. vm_compute. lia.
    + vm_compute. lia.
    + reflexivity.
  - exfalso. revert Hadd. vm_compute. discriminate.
Defined.

(** ** The reply of the render workflow *)

Lemma string_append_assoc (a b c : string) :
  ((a +:+ b) +:+ c = a +:+ (b +:+ c))%string.
Proof.
  induction a as [|x a IH]; [reflexivity|].
  change (String x ((a +:+ b) +:+ c) = String x (a +:+ (b +:+ c))).
  now rewrite IH.
Qed.

Lemma update_contact_info_present memory field value key :
  is_Some (contact_info memory !! key) ->
  is_Some (contact_info (update_contact_info memory field value) !! key).
Proof.
  intros Hk. destruct (decide (key = field)) as [->|Hne].
  - rewrite update_contact_info_own. eauto.
  - now rewrite update_contact_info_other.
Qed.

Lemma process_contact_info_present user_message scan memory key :
  is_Some (contact_info memory !! key) ->
  is_Some (contact_info (process_contact_info user_message scan memory) !! key).
Proof.
  intros Hk. unfold process_contact_info. cbv zeta.
  contact_steps; repeat apply update_contact_info_present; exact Hk.
Qed.

Lemma process_contact_info_captured user_message scan memory field :
  captured memory field = true ->
  captured (process_contact_info user_message scan memory) field = true.
Proof.
  unfold captured. intros Hc.
  destruct (decide (In field ["name"; "email"; "phone"])) as [Hin|Hnot].
  - now rewrite (proj1 (contact_fields_hold user_message scan memory) field Hin Hc).
  - destruct (decide (field = "photo")) as [->|Hne].
    + destruct (proj1 (proj2 (contact_fields_hold user_message scan memory)))
        as [-> | ->]; [exact Hc | reflexivity].
    + rewrite (proj2 (proj2 (contact_fields_hold user_message scan memory)) field);
        [exact Hc|].
      unfold required_fields. simpl.
      intros [H|[H|[H|[H|[]]]]]; subst;
        first [now apply Hne | apply Hnot; simpl; auto].
Qed.

Lemma collecting_has_a_field memory :
  get_render_workflow_stage memory = "collecting_info" ->
  exists field, In field required_fields /\ captured memory field = true.
Proof.
  intros Hst. apply stage_collecting_captured in Hst as [_ Hn].
  destruct (captured_cases memory) as (_ & _ & Hcount). rewrite Hcount in Hn.
  destruct (captured memory "name") eqn:H1; [exists "name"; split; [simpl; tauto | assumption]|].
  destruct (captured memory "email") eqn:H2; [exists "email"; split; [simpl; tauto | assumption]|].
  destruct (captured memory "phone") eqn:H3; [exists "phone"; split; [simpl; tauto | assumption]|].
  destruct (captured memory "photo") eqn:H4; [exists "photo"; split; [simpl; tauto | assumption]|].
  simpl in Hn. lia.
Qed.

Lemma captured_not_missing memory field :
  In field required_fields -> captured memory field = true ->
  (length (get_missing_contact_fields memory) <= 3)%nat
  /\ should_offer_partial_info memory = false.
Proof.
  intros Hin Hc. split.
  - unfold get_missing_contact_fields, required_fields. unfold captured in Hc.
    simpl in Hin. destruct Hin as [<-|[<-|[<-|[<-|[]]]]]; simpl; rewrite Hc; simpl;
      repeat match goal with
             | |- context [if ?b then _ else _] => destruct b
             end; simpl; lia.
  - unfold should_offer_partial_info. apply andb_false_iff. right.
    apply Nat.eqb_neq. intros Hsize. apply map_size_empty_iff in Hsize.
    unfold captured in Hc. rewrite Hsize, lookup_empty in Hc. discriminate Hc.
Qed.

(** X20. The reply of the render workflow never draws on two of its
    phrase banks.  The offer to start with name and e-mail alone needs
    an empty [contact_info] at a stage that has a field captured, and
    the opening request that names all four fields needs four missing
    fields where the handler passes none or at most three: two calls
    that differ only in those two draws give the same reply.  At stage
    [info_needed] the request appended names no field at all. *)
Theorem render_reply_never_uses_two_banks memory user_message scan bot_response
    picks picks' :
  pick_timeline picks = pick_timeline picks' ->
  pick_soft picks = pick_soft picks' ->
  handle_render_workflow_reply memory user_message scan bot_response picks
  = handle_render_workflow_reply memory user_message scan bot_response picks'
  /\ (get_render_workflow_stage memory = "info_needed" ->
      handle_render_workflow_reply memory user_message scan bot_response picks
      = (bot_response ++ " Great! I still need: . "
         ++ generate_render_timeline_message (pick_timeline picks))%string).
Proof.
  intros Ht Hs. unfold handle_render_workflow_reply. cbv zeta.
  destruct (String.eqb (get_render_workflow_stage memory) "info_needed") eqn:Hinfo.
  { split.
    - now rewrite Ht.
    - intros _. unfold get_contact_collection_message. simpl.
      now rewrite string_append_assoc. }
  split; [|intros Hst; rewrite Hst in Hinfo; discriminate Hinfo].
  destruct (String.eqb (get_render_workflow_stage memory) "collecting_info") eqn:Hcol;
    [|reflexivity].
  apply String.eqb_eq, collecting_has_a_field in Hcol as (field & Hin & Hc).
  apply (process_contact_info_captured user_message scan) in Hc.
  destruct (captured_not_missing _ field Hin Hc) as [Hlen Hoff].
  rewrite Hoff, andb_false_r.
  destruct (get_missing_contact_fields _) as [|f rest] eqn:Hmiss; [reflexivity|].
  unfold get_contact_collection_message.
  assert (H4 : (length (f :: rest) =? 4)%nat = false) by (apply Nat.eqb_neq; lia).
  rewrite H4, Hs. reflexivity.
Qed.

Lemma render_reply_never_uses_two_banks_witness :
  pick_timeline picks_a = pick_timeline picks_b
  /\ pick_soft picks_a = pick_soft picks_b
  /\ get_render_workflow_stage email_known_keen = "collecting_info"
  /\ handle_render_workflow_reply email_known_keen "my phone is 405-555-0100"
       no_matches "Thanks." picks_a
     = handle_render_workflow_reply email_known_keen "my phone is 405-555-0100"
         no_matches "Thanks." picks_b.
Proof.
  assert (H1 : pick_timeline picks_a = pick_timeline picks_b) by reflexivity.
  assert (H2 : pick_soft picks_a = pick_soft picks_b) by reflexivity.
  split; [exact H1|]. split; [exact H2|]. split; [reflexivity|].
  exact (proj1 (render_reply_never_uses_two_banks email_known_keen
                  "my phone is 405-555-0100" no_matches "Thanks."
                  picks_a picks_b H1 H2)).
Defined.

(** ** The render workflow only advances *)

Lemma b2n_le (a b : bool) : (a = true -> b = true) -> (Nat.b2n a <= Nat.b2n b)%nat.
Proof. destruct a, b; simpl; intros H; first [lia | discriminate (H eq_refl)]. Qed.

Lemma process_contact_info_count user_message scan memory :
  (captured_count memory
   <= captured_count (process_contact_info user_message scan memory))%nat.
Proof.
  destruct (captured_cases memory) as (_ & _ & ->).
  destruct (captured_cases (process_contact_info user_message scan memory))
    as (_ & _ & ->).
  pose proof (fun field => b2n_le _ _
    (process_contact_info_captured user_message scan memory field)) as Hle.
  pose proof (Hle "name"). pose proof (Hle "email").
  pose proof (Hle "phone"). pose proof (Hle "photo"). lia.
Qed.

Lemma update_contact_info_status memory field value :
  let memory' := update_contact_info memory field value in
  render_status memory' = render_status memory
  \/ render_status memory' = Some "complete".
Proof. unfold update_contact_info. destruct (forallb _ _); simpl; auto. Qed.

Lemma process_contact_info_requested user_message scan memory :
  render_requested (process_contact_info user_message scan memory)
  = render_requested memory.
Proof.
  unfold process_contact_info. cbv zeta.
  contact_steps; rewrite ?update_contact_info_requested; reflexivity.
Qed.

Lemma process_contact_info_status user_message scan memory :
  let memory' := process_contact_info user_message scan memory in
  render_status memory' = render_status memory
  \/ render_status memory' = Some "complete".
Proof.
  cbv zeta.
  assert (Hstep : forall m field value,
            (render_status m = render_status memory
             \/ render_status m = Some "complete") ->
            render_status (update_contact_info m field value) = render_status memory
            \/ render_status (update_contact_info m field value) = Some "complete").
  { intros m field value Hm.
    destruct (update_contact_info_status m field value) as [-> | ->]; auto. }
  unfold process_contact_info. cbv zeta.
  contact_steps; repeat apply Hstep; auto.
Qed.

Lemma stage_by_count memory :
  render_requested memory = true ->
  status_is "complete" (render_status memory) = false ->
  status_is "in_progress" (render_status memory) = false ->
  (captured_count memory = 4%nat /\ get_render_workflow_stage memory = "complete")
  \/ ((0 < captured_count memory < 4)%nat
      /\ get_render_workflow_stage memory = "collecting_info")
  \/ (captured_count memory = 0%nat
      /\ get_render_workflow_stage memory = "info_needed").
Proof.
  intros Hreq Hc Hp. unfold get_render_workflow_stage.
  rewrite Hreq, Hc, Hp. cbn [negb].
  destruct (captured_cases memory) as (Hall & Hany & Hcount).
  unfold captured in Hall at 1, Hany at 1. rewrite Hall, Hany, Hcount.
  destruct (captured memory "name"), (captured memory "email"),
    (captured memory "phone"), (captured memory "photo"); simpl;
    first [ left; split; [reflexivity | reflexivity]
          | right; left; split; [lia | reflexivity]
          | right; right; split; [reflexivity | reflexivity] ].
Qed.

Lemma collecting_status memory :
  get_render_workflow_stage memory = "collecting_info" ->
  status_is "complete" (render_status memory) = false
  /\ status_is "in_progress" (render_status memory) = false.
Proof.
  unfold get_render_workflow_stage.
  destruct (negb (render_requested memory)); [discriminate|].
  destruct (status_is "complete" _); [discriminate|].
  destruct (status_is "in_progress" _); [discriminate|]. auto.
Qed.

Lemma all_captured_iff memory :
  forallb (fun field => truthy_str (contact_info memory !! field)) required_fields
  = true <-> captured_count memory = 4%nat.
Proof.
  destruct (captured_cases memory) as (Hall & _ & Hcount).
  unfold captured in Hall at 1. rewrite Hall, Hcount.
  destruct (captured memory "name"), (captured memory "email"),
    (captured memory "phone"), (captured memory "photo"); simpl;
    split; intros H; first [reflexivity | discriminate H | lia].
Qed.

Lemma missing_nil_iff memory :
  get_missing_contact_fields memory = [] <-> captured_count memory = 4%nat.
Proof.
  destruct (captured_cases memory) as (_ & _ & Hcount). rewrite Hcount.
  unfold get_missing_contact_fields, required_fields, captured. simpl.
  destruct (truthy_str (contact_info memory !! "name")),
    (truthy_str (contact_info memory !! "email")),
    (truthy_str (contact_info memory !! "phone")),
    (truthy_str (contact_info memory !! "photo")); simpl;
    split; intros H; first [reflexivity | discriminate H | lia].
Qed.

Lemma update_contact_info_count_full m field value :
  captured_count m = 4%nat -> truthy_str (Some value) = true ->
  captured_count (update_contact_info m field value) = 4%nat.
Proof.
  intros H4 Hv.
  destruct (captured_cases m) as (_ & _ & Hc). rewrite Hc in H4.
  destruct (captured_cases (update_contact_info m field value)) as (_ & _ & ->).
  assert (Hkeep : forall g, captured m g = true ->
            captured (update_contact_info m field value) g = true).
  { intros g Hg. unfold captured in *.
    destruct (decide (g = field)) as [->|Hne].
    - now rewrite update_contact_info_own.
    - now rewrite update_contact_info_other. }
  destruct (captured m "name") eqn:H1, (captured m "email") eqn:H2,
    (captured m "phone") eqn:H3, (captured m "photo") eqn:H5;
    simpl in H4; try lia.
  now rewrite !Hkeep.
Qed.

Lemma update_keeps_status memory m field value :
  status_kept_or_complete memory m ->
  captured m field = false \/ truthy_str (Some value) = true ->
  In field required_fields ->
  status_kept_or_complete memory (update_contact_info m field value).
Proof.
  intros [Hsame|[Hdone H4]] Hside Hin.
  - unfold update_contact_info.
    destruct (forallb _ _) eqn:Hall; [|now left].
    right. split; [reflexivity|].
    apply all_captured_iff. exact Hall.
  - destruct Hside as [Hnot|Hv].
    + exfalso. destruct (captured_cases m) as (_ & _ & Hc). rewrite Hc in H4.
      unfold required_fields in Hin. simpl in Hin.
      destruct Hin as [<-|[<-|[<-|[<-|[]]]]]; rewrite Hnot in H4;
        destruct (captured m "name"), (captured m "email"),
          (captured m "phone"), (captured m "photo"); simpl in H4; lia.
    + right. split; [|now apply update_contact_info_count_full].
      destruct (update_contact_info_status m field value) as [-> | ->];
        [exact Hdone | reflexivity].
Qed.

Lemma process_contact_info_status_full user_message scan memory :
  status_kept_or_complete memory (process_contact_info user_message scan memory).
Proof.
  unfold process_contact_info. cbv zeta.
  contact_steps;
    repeat (apply update_keeps_status;
            [ | first [ right; reflexivity
                      | left; unfold captured; apply negb_true_iff; assumption ]
              | unfold required_fields; simpl; tauto ]);
    now left.
Qed.

(** X21. The render workflow only advances.  The handler changes a
    record only at stage [collecting_info]; the number of captured
    fields never goes down; and from [collecting_info] the record either
    stays there with a field still missing and its status untouched, or
    has all four fields, the status "complete" and the stage
    [complete]. *)
Theorem render_workflow_only_advances memory user_message scan :
  let memory' := handle_render_workflow memory user_message scan in
  (get_render_workflow_stage memory <> "collecting_info" -> memory' = memory)
  /\ (captured_count memory <= captured_count memory')%nat
  /\ (get_render_workflow_stage memory = "collecting_info" ->
      ((captured_count memory' < 4)%nat
       /\ get_render_workflow_stage memory' = "collecting_info"
       /\ render_status memory' = render_status memory)
      \/ (captured_count memory' = 4%nat
          /\ get_render_workflow_stage memory' = "complete"
          /\ render_status memory' = Some "complete")).
Proof.
  cbv zeta. split; [|split].
  - intros Hne. unfold handle_render_workflow.
    destruct (String.eqb _ "info_needed"); [reflexivity|].
    destruct (String.eqb _ "collecting_info") eqn:Hc; [|reflexivity].
    apply String.eqb_eq in Hc. contradiction.
  - unfold handle_render_workflow.
    destruct (String.eqb _ "info_needed"); [lia|].
    destruct (String.eqb _ "collecting_info"); [|lia].
    destruct (get_missing_contact_fields _); [|apply process_contact_info_count].
    eapply Nat.le_trans; [apply (process_contact_info_count user_message scan)|].
    apply Nat.eq_le_incl. symmetry. now apply captured_count_contact.
  - intros Hst. unfold handle_render_workflow. rewrite Hst. simpl.
    destruct (stage_collecting_captured memory Hst) as [Hreq Hpos].
    destruct (collecting_status memory Hst) as [Hnc Hnp].
    pose proof (process_contact_info_count user_message scan memory) as Hcount.
    pose proof (process_contact_info_status_full user_message scan memory) as Hkept.
    pose proof (process_contact_info_requested user_message scan memory) as Hreq'.
    rewrite Hreq in Hreq'.
    set (mid := process_contact_info user_message scan memory) in *.
    destruct (get_missing_contact_fields mid) as [|f rest] eqn:Hmiss.
    + right. apply missing_nil_iff in Hmiss. split; [|split].
      * rewrite (captured_count_contact mid); [exact Hmiss | reflexivity].
      * unfold get_render_workflow_stage. simpl. now rewrite Hreq'.
      * reflexivity.
    + left.
      assert (Hnot4 : captured_count mid <> 4%nat).
      { intros H4. apply missing_nil_iff in H4. rewrite H4 in Hmiss.
        discriminate Hmiss. }
      destruct Hkept as [Hsame|[_ H4]]; [|contradiction].
      rewrite <- Hsame in Hnc, Hnp.
      destruct (stage_by_count mid Hreq' Hnc Hnp) as [[H4 _]|[[Hlt Hs]|[H0 _]]];
        [contradiction| |lia].
      split; [lia|]. split; [exact Hs | exact Hsame].
Qed.

Lemma render_workflow_only_advances_witness :
  get_render_workflow_stage email_known = "collecting_info"
  /\ captured_count
       (handle_render_workflow email_known
          "I'm Pat, 405-555-0100, photo attached" full_contact) = 4%nat
  /\ render_status
       (handle_render_workflow email_known
          "I'm Pat, 405-555-0100, photo attached" full_contact) = Some "complete"
  /\ contact_info
       (handle_render_workflow email_known
          "I'm Pat, 405-555-0100, photo attached" full_contact) !! "email"
     = Some "first@example.com".
Proof.
  assert (H : get_render_workflow_stage email_known = "collecting_info")
    by reflexivity.
  split; [exact H|].
  destruct (proj2 (proj2 (render_workflow_only_advances email_known
                            "I'm Pat, 405-555-0100, photo attached" full_contact)) H)
    as [(Hlt & _ & _)|(H4 & _ & Hdone)].
  - exfalso. revert Hlt. vm_compute. lia.
  - split; [exact H4|]. split; [exact Hdone|]. vm_compute. reflexivity.
Defined.
